(** * Shallow embedding of the PlayHub client library

    Verified here: the TTL/LRU cache ([ttlCache.ts]), the event standings
    resolver and the bounded-concurrency runner ([api.ts]), and the
    leaderboard aggregation pipeline ([leaderboard.ts]); further the
    status and filter helpers, the pagination and the cached fetchers of
    [api.ts], the retrying fetch ([fetchWithRetry.ts]), the geocoder
    ([geocode.ts]) and the search by store ([search.ts]).

    Conventions of the embedding.
    - A JavaScript [number] that the code uses as a count, an index, a
      timestamp or a score is a [Z]; a list index is a [nat].
    - A JavaScript [string] is a [string]; characters outside ASCII are
      carried as their UTF-8 bytes.
    - A [Map] is an association list in insertion order, because the code
      observes that order (LRU eviction, order of the aggregated players).
    - [x | undefined] is [option x]; an optional field is an [option].
      Where the code tells [null] from [undefined], the field is a
      [json_field]: missing, [null] or a value.
    - [Date.now()] is an explicit clock reading passed to the operation. *)

From stdpp Require Import base list relations.
From Stdlib Require Import ZArith String Ascii Bool Lia DecimalString.
From Stdlib Require QArith DecimalPos DecimalZ.
From Stdlib Require Import List Permutation Sorted.
Import ListNotations.
Open Scope Z_scope.

(** ** [Map<string, V>] as an association list in insertion order *)

Module JsMap.

Section JsMap.
Context {V : Type}.

(** [m.get(key)] *)
Fixpoint get (key : string) (m : list (string * V)) : option V :=
  match m with
  | [] => None
  | (k, v) :: m' => if String.eqb k key then Some v else get key m'
  end.

(** [m.has(key)] *)
Definition has (key : string) (m : list (string * V)) : bool :=
  match get key m with Some _ => true | None => false end.

(** [m.delete(key)] *)
Definition delete (key : string) (m : list (string * V)) : list (string * V) :=
  List.filter (fun kv => negb (String.eqb (fst kv) key)) m.

(** [m.set(key, v)]: an existing key keeps its position, a new key
    goes last. *)
Fixpoint set (key : string) (v : V) (m : list (string * V)) : list (string * V) :=
  match m with
  | [] => [(key, v)]
  | (k, v0) :: m' =>
      if String.eqb k key then (k, v) :: m' else (k, v0) :: set key v m'
  end.

(** [m.keys()] *)
Definition keys (m : list (string * V)) : list string := map fst m.

(** [m.values()] *)
Definition values (m : list (string * V)) : list V := map snd m.

End JsMap.

End JsMap.

(** ** TTL cache with optional LRU bound ([createTtlCache]) *)

Module TtlCache.

Section Cache.
Context {T : Type}.

(** [{ value: T; expiresAt: number }] *)
Record entry := Entry { value : T; expiresAt : Z }.

(** [new Map<string, entry>()], oldest insertion first. *)
Definition store := list (string * entry).

(** [const { maxSize = 0 } = options] *)
Variable maxSize : Z.

Definition store_size (s : store) : Z := Z.of_nat (length s).

(** [pruneExpired]: [now] is the reading of [Date.now()]. *)
Definition pruneExpired (now : Z) (s : store) : store :=
  List.filter (fun ke => negb (now >? expiresAt (snd ke))) s.

(** [evictLru] *)
Definition evictLru (s : store) : store :=
  if (maxSize <=? 0) || (store_size s <? maxSize) then s
  else match s with
       | [] => s
       | (firstKey, _) :: _ => JsMap.delete firstKey s
       end.

(** [while (store.size >= maxSize) evictLru();] with an iteration
    budget; [evict_loop_exits] shows that the budget used by [set]
    always reaches the exit of the loop. *)
Fixpoint evict_loop (fuel : nat) (s : store) : store :=
  match fuel with
  | O => s
  | S fuel' =>
      if store_size s >=? maxSize then evict_loop fuel' (evictLru s) else s
  end.

(** [get(key)]: returns the new store and the result. *)
Definition get (now : Z) (key : string) (s : store) : store * option T :=
  match JsMap.get key s with
  | None => (s, None)
  | Some e =>
      if now >? expiresAt e then (JsMap.delete key s, None)
      else if maxSize >? 0
           then (JsMap.set key e (JsMap.delete key s), Some (value e))
           else (s, Some (value e))
  end.

(** [set(key, value, ttlMs)]: [now1] is the clock read by
    [pruneExpired], [now2] the clock read for [expiresAt]. *)
Definition set (now1 now2 : Z) (key : string) (v : T) (ttlMs : Z)
    (s : store) : store :=
  let s1 := pruneExpired now1 s in
  let isNew := negb (JsMap.has key s1) in
  let s2 := if isNew && (maxSize >? 0)
            then evict_loop (S (length s1)) s1 else s1 in
  let e := Entry v (now2 + ttlMs) in
  let s3 := if (maxSize >? 0) && negb isNew then JsMap.delete key s2 else s2 in
  JsMap.set key e s3.

(** A sequence of calls on one cache instance. *)
Inductive op :=
| OpGet (now : Z) (key : string)
| OpSet (now1 now2 : Z) (key : string) (v : T) (ttlMs : Z).

Definition run_op (s : store) (o : op) : store :=
  match o with
  | OpGet now key => fst (get now key s)
  | OpSet now1 now2 key v ttlMs => set now1 now2 key v ttlMs s
  end.

(** The store after the calls [ops], starting from [createTtlCache]. *)
Definition run (ops : list op) : store := fold_left run_op ops [].

End Cache.

End TtlCache.

(** ** Bounded-concurrency runner ([runWithBoundedConcurrency])

    JavaScript runs the workers on one thread: a worker runs without
    interruption from one [await] to the next. A state records the
    shared variables [index] and [results] and, for each worker, whether
    it is suspended at [await fn(item)] for some index or has returned.
    One step resumes one suspended worker; which one is the scheduler's
    choice. *)

Module Runner.

(** How a call [fn(item)] ends: it throws before returning a promise,
    or it returns a promise that is later fulfilled or rejected. *)
Inductive call (R : Type) :=
| ThrowsNow
| Fulfils (r : R)
| Rejects.
Arguments ThrowsNow {R}.
Arguments Fulfils {R} r.
Arguments Rejects {R}.

(** What [try { results[i] = await fn(item) } catch { results[i] = undefined }]
    stores. *)
Definition stored {R : Type} (c : call R) : option R :=
  match c with
  | Fulfils r => Some r
  | ThrowsNow | Rejects => None
  end.

Inductive worker :=
| Awaiting (i : nat)   (* suspended at [await fn(items[i])] *)
| Returned.            (* left the [while] loop *)

Section Runner.
Context {T R : Type}.
Variable fn : T -> call R.
Variable items : list T.
Variable concurrency : Z.

(** A slot of [results] is read as [undefined] ([None]) both when it
    is a hole of [new Array(n)] and when the [catch] stored
    [undefined]. *)
Record state := State {
  index : nat;
  results : list (option R);
  workers : list worker
}.

(** The [while] loop over the items [rest] that are not yet claimed,
    the first of which has index [idx], up to the next [await] or to the
    return: a call that throws at once is caught without suspending the
    worker, which goes on with the next index. *)
Fixpoint scan (rest : list T) (idx : nat) (res : list (option R))
    : nat * list (option R) * worker :=
  match rest with
  | [] => (idx, res, Returned)
  | item :: rest' =>
      match fn item with
      | ThrowsNow => scan rest' (S idx) (<[idx := None]> res)
      | Fulfils _ | Rejects => (S idx, res, Awaiting idx)
      end
  end.

(** From the test of [while (index < items.length)] on. *)
Definition loop_head (idx : nat) (res : list (option R))
    : nat * list (option R) * worker :=
  scan (drop idx items) idx res.

(** One call [worker()] made by [Array.from]. *)
Definition spawn (st : state) : state :=
  let '(idx, res, w) := loop_head (index st) (results st) in
  State idx res (workers st ++ [w]).

(** [Array.from({ length: Math.min(concurrency, items.length) }, ...)]
    creates no worker for a length that is not positive. *)
Definition pool_size : nat :=
  Z.to_nat (Z.min concurrency (Z.of_nat (length items))).

Definition init : state :=
  Nat.iter pool_size spawn (State 0 (replicate (length items) None) []).

(** What [results[i]] receives. The loop test keeps [i] below
    [items.length]; the model gives [None] outside that range, which no
    run reaches ([RunnerFacts.inv_reachable]). *)
Definition outcome (i : nat) : option R :=
  match items !! i with
  | Some item => stored (fn item)
  | None => None
  end.

(** Worker [w], suspended on index [i], is resumed: it stores the
    outcome at [results[i]] and goes back to the head of the loop. An
    assignment past the end would extend a JavaScript array and does
    nothing here; no run makes one ([RunnerFacts.inv_reachable]). *)
Definition resume (w i : nat) (st : state) : state :=
  let '(idx, res, wk) := loop_head (index st) (<[i := outcome i]> (results st)) in
  State idx res (<[w := wk]> (workers st)).

Inductive step : state -> state -> Prop :=
| step_resume st w i :
    workers st !! w = Some (Awaiting i) -> step st (resume w i st).

(** [Promise.all(workers)] is fulfilled. *)
Definition all_returned (st : state) : Prop :=
  Forall (fun w => w = Returned) (workers st).

End Runner.

Definition awaiting_count (ws : list worker) : nat :=
  length (List.filter (fun w => match w with Awaiting _ => true | Returned => false end) ws).

End Runner.

(** ** JavaScript library functions used by the code *)

Module Js.

(** The outcome of a call that may throw. *)
Inductive result (A : Type) :=
| Throws
| Returns (a : A).
Arguments Throws {A}.
Arguments Returns {A} a.

(** [o === s] for an optional string. *)
Definition opt_is (o : option string) (s : string) : bool :=
  match o with
  | Some x => String.eqb x s
  | None => false
  end.

(** [a ?? b] *)
Definition nullish {A} (a : option A) (b : option A) : option A :=
  match a with
  | Some x => Some x
  | None => b
  end.

(** A property of parsed JSON that the code compares with [undefined]:
    it is missing, it is [null], or it holds a value. *)
Inductive json_field (A : Type) :=
| Undefined
| Null
| Just (a : A).
Arguments Undefined {A}.
Arguments Null {A}.
Arguments Just {A} a.

(** [p !== undefined] *)
Definition is_defined {A} (p : json_field A) : bool :=
  match p with
  | Undefined => false
  | Null | Just _ => true
  end.

(** The property as [??] reads it: [undefined] and [null] are both
    passed over. *)
Definition non_nullish {A} (p : json_field A) : option A :=
  match p with
  | Just a => Some a
  | Undefined | Null => None
  end.

(** [String.prototype.toLowerCase] on the ASCII letters. No character
    outside ASCII lowers to an ASCII letter other than [k] (the Kelvin
    sign), so comparisons of the result with the lower-case ASCII words
    used in the code are exact. *)
Definition lower_ascii (c : ascii) : ascii :=
  let n := nat_of_ascii c in
  if ((65 <=? n) && (n <=? 90))%nat then ascii_of_nat (n + 32) else c.

Fixpoint toLowerCase (s : string) : string :=
  match s with
  | EmptyString => EmptyString
  | String c s' => String (lower_ascii c) (toLowerCase s')
  end.

(** White space and line terminators of ASCII (tab, LF, VT, FF, CR,
    space); those outside ASCII are not modelled. *)
Definition isWhiteSpace (c : ascii) : bool :=
  let n := nat_of_ascii c in
  ((9 <=? n) && (n <=? 13) || (n =? 32))%nat.

Fixpoint trimStart (s : string) : string :=
  match s with
  | EmptyString => EmptyString
  | String c s' => if isWhiteSpace c then trimStart s' else s
  end.

Fixpoint trimEnd (s : string) : string :=
  match s with
  | EmptyString => EmptyString
  | String c s' =>
      match trimEnd s' with
      | EmptyString => if isWhiteSpace c then EmptyString else String c EmptyString
      | r => String c r
      end
  end.

(** [String.prototype.trim] *)
Definition trim (s : string) : string := trimEnd (trimStart s).

(** [s.split(sep)] for a separator of one character. *)
Fixpoint split (sep : ascii) (s : string) : list string :=
  match s with
  | EmptyString => [EmptyString]
  | String c s' =>
      if Ascii.eqb c sep then EmptyString :: split sep s'
      else match split sep s' with
           | h :: t => String c h :: t
           | [] => [String c EmptyString]
           end
  end.

Definition digit (c : ascii) : option Z :=
  let n := nat_of_ascii c in
  if ((48 <=? n) && (n <=? 57))%nat then Some (Z.of_nat (n - 48)) else None.

(** The value of the longest prefix of decimal digits, [None] when the
    prefix is empty. *)
Fixpoint digits (acc : option Z) (s : string) : option Z :=
  match s with
  | EmptyString => acc
  | String c s' =>
      match digit c with
      | Some d => digits (Some (10 * match acc with Some a => a | None => 0 end + d)) s'
      | None => acc
      end
  end.

(** [parseInt(s, 10)]; [None] is [NaN]. The result is the exact integer
    (the rounding of integers above 2^53 to a double is not modelled). *)
Definition parseInt (s : string) : option Z :=
  match trimStart s with
  | String "-"%char r => option_map Z.opp (digits None r)
  | String "+"%char r => digits None r
  | r => digits None r
  end.

(** [`${n}`] for an integer [n]. *)
Definition string_of_Z (n : Z) : string := NilZero.string_of_int (Z.to_int n).

(** [s.slice(0, 10)] *)
Definition slice_0_10 (s : string) : string := String.substring 0 10 s.

(** [Math.round(x / d)] for a positive integer [d]: the nearest integer,
    a half rounding up. The quotient of two integers below 2^53 is
    computed by the double division with an error far below the
    distance of the quotient to the nearest half, so the integer
    formula is exact for the timestamps compared here. *)
Definition Math_round_div (x d : Z) : Z := (2 * x + d) / (2 * d).

(** [players.slice(0, limit)] *)
Definition slice0 {A} (limit : Z) (l : list A) : list A :=
  if limit <? 0
  then firstn (Z.to_nat (Z.max (Z.of_nat (length l) + limit) 0)) l
  else firstn (Z.to_nat limit) l.

(** [Array.prototype.sort(cmp)]: the sort is stable, so for a comparator
    that is a consistent ordering the result is the one arrangement that
    is ascending for [cmp] and keeps equal elements in their input
    order. Insertion from the right computes it. *)
Fixpoint sort_insert {A} (cmp : A -> A -> Z) (x : A) (l : list A) : list A :=
  match l with
  | [] => [x]
  | y :: l' => if cmp x y <=? 0 then x :: l else y :: sort_insert cmp x l'
  end.

Definition Array_sort {A} (cmp : A -> A -> Z) (l : list A) : list A :=
  fold_right (sort_insert cmp) [] l.

(** [a] may come before [b] in an array sorted with [cmp]. *)
Definition cmp_le {A} (cmp : A -> A -> Z) (a b : A) : Prop := cmp a b <= 0.

(** [Math.min(...l)] for a non-empty [l]; every list the code passes is
    non-empty (see [AggregateFacts.placements_nonempty]), and the model
    returns 0 for the empty list, where JavaScript returns [Infinity]. *)
Definition Math_min (l : list Z) : Z :=
  match l with
  | [] => 0
  | x :: l' => fold_left Z.min l' x
  end.

End Js.

(** ** Records of the upstream API ([types.ts]) *)

Module Player.
Record t := Make { best_identifier : option string; id : option Z }.
End Player.

Module UserEventStatus.
Record t := Make { best_identifier : Js.json_field string }.
End UserEventStatus.

Module StandingEntry.
Record t := Make {
  rank : option Z;
  placement : option Z;
  player : option Player.t;
  player_name : option string;
  username : option string;
  display_name : option string;
  wins : option Z;
  losses : option Z;
  record : option string;
  match_record : option string;
  user_event_status : option UserEventStatus.t
}.
End StandingEntry.

Module Round.
Record t := Make {
  id : Z;
  round_number : Z;
  standings_status : option string
}.
End Round.

Module Phase.
Record t := Make { rounds : option (list Round.t) }.
End Phase.

Module Event.
Record t := Make {
  id : Z;
  name : string;
  start_datetime : string;
  display_status : option string;
  event_lifecycle_status : option string;  (* [settings?.event_lifecycle_status] *)
  store_name : option string;              (* [store?.name] *)
  tournament_phases : option (list Phase.t)
}.
End Event.

(** [{ event, standings }] *)
Definition EventStandings : Type := Event.t * list StandingEntry.t.

(** ** Event standings resolver ([getEventStandings]) *)

Module Standings.
Import Js.

(** [isEventCompleted] *)
Definition isEventCompleted (event : Event.t) : bool :=
  let status := option_map toLowerCase (Event.display_status event) in
  let lifecycle := option_map toLowerCase (Event.event_lifecycle_status event) in
  opt_is status "past" || opt_is lifecycle "completed" || opt_is lifecycle "past".

(** [roundStandingsPriority] *)
Definition roundStandingsPriority (standingsStatus : option string) : Z :=
  match standingsStatus with
  | None => 1
  | Some EmptyString => 1
  | Some str =>
      let s := toLowerCase str in
      if String.eqb s "completed" || String.eqb s "final"
         || String.eqb s "published" || String.eqb s "closed" then 0
      else if String.eqb s "pending" || String.eqb s "in_progress"
              || String.eqb s "in progress" then 2
      else 1
  end.

(** An element of [allRounds]. *)
Record RoundRef := MkRoundRef {
  id : Z;
  round_number : Z;
  phase_index : Z;
  standings_status : option string
}.

(** The two nested [for] loops that fill [allRounds]. *)
Fixpoint collectRounds (phaseIndex : Z) (phases : list Phase.t) : list RoundRef :=
  match phases with
  | [] => []
  | phase :: rest =>
      match Phase.rounds phase with
      | None => []
      | Some rs =>
          map (fun r => MkRoundRef (Round.id r) (Round.round_number r) phaseIndex
                                   (Round.standings_status r)) rs
      end ++ collectRounds (phaseIndex + 1) rest
  end.

(** The comparator given to [allRounds.sort]. *)
Definition compareRounds (a b : RoundRef) : Z :=
  let pa := roundStandingsPriority (standings_status a) in
  let pb := roundStandingsPriority (standings_status b) in
  if negb (pa =? pb) then pa - pb
  else if negb (phase_index b =? phase_index a) then phase_index b - phase_index a
  else round_number b - round_number a.

(** One call of [fetchTournamentRoundStandings]. *)
Record FetchCall := MkFetchCall {
  call_roundId : Z;
  call_page : Z;
  call_pageSize : Z;
  call_isPastEvent : bool
}.

Section Resolver.
(** [fetchEventDetails(eventId)]: the event, or [None] when it throws. *)
Variable fetchEventDetails : Z -> option Event.t.

(** [fetchTournamentRoundStandings(roundId, page, pageSize, { isPastEvent })]:
    the [results] of the response, or [None] when the call throws. *)
Variable fetchTournamentRoundStandings : FetchCall -> option (list StandingEntry.t).

(** The [for (const round of allRounds)] loop; returns the calls made,
    in order, and the standings found. *)
Fixpoint walk (pageSize : Z) (isPast : bool) (rounds : list RoundRef)
    : list FetchCall * option (list StandingEntry.t) :=
  match rounds with
  | [] => ([], None)
  | round :: rest =>
      let call := MkFetchCall (id round) 1 pageSize isPast in
      match fetchTournamentRoundStandings call with
      | Some (e :: res) => ([call], Some (e :: res))
      | _ => let '(calls, found) := walk pageSize isPast rest in
             (call :: calls, found)
      end
  end.

(** [getEventStandings(eventId, pageSize = 50)] *)
Definition getEventStandings (eventId : Z) (pageSize : option Z)
    : list FetchCall * result (option EventStandings) :=
  let pageSize := match pageSize with Some p => p | None => 50 end in
  match fetchEventDetails eventId with
  | None => ([], Throws)
  | Some event =>
      match Event.tournament_phases event with
      | None | Some [] => ([], Returns None)
      | Some phases =>
          let isPast := isEventCompleted event in
          let allRounds := Array_sort compareRounds (collectRounds 0 phases) in
          let '(calls, found) := walk pageSize isPast allRounds in
          (calls, Returns (option_map (fun standings => (event, standings)) found))
      end
  end.

End Resolver.

End Standings.

(** ** Leaderboard aggregation ([leaderboard.ts]) *)

Module AggRec.
(** The value type of the [agg] map. *)
Record t := Make {
  displayName : string;
  hasUserEventStatus : bool;
  wins : Z;
  losses : Z;
  eventsPlayed : Z;
  placements : list Z
}.
End AggRec.

Module PlayerStats.
Record t := Make {
  playerName : string;
  totalWins : Z;
  totalLosses : Z;
  eventsPlayed : Z;
  bestPlacement : Z;
  firstPlaceFinishes : Z;
  placements : list Z
}.
End PlayerStats.

Module Aggregate.
Import Js.

Inductive LeaderboardSortBy := total_wins | events_played | win_rate | best_placement.

(** The key of an entry that cannot be attributed: an em dash. *)
Definition UNKNOWN : string := "—".

(** [parseRecordToWinsLosses] *)
Definition parseRecordToWinsLosses (record : option string) : Z * Z :=
  match record with
  | None => (0, 0)
  | Some r =>
      match trim r with
      | EmptyString => (0, 0)
      | _ =>
          match map (fun s => parseInt (trim s)) (split "-" r) with
          | Some w :: Some l :: _ => (w, l)
          | _ => (0, 0)
          end
      end
  end.

Definition player_id (entry : StandingEntry.t) : option Z :=
  match StandingEntry.player entry with
  | Some p => Player.id p
  | None => None
  end.

Definition player_best_identifier (entry : StandingEntry.t) : option string :=
  match StandingEntry.player entry with
  | Some p => Player.best_identifier p
  | None => None
  end.

(** [entry.user_event_status?.best_identifier] *)
Definition status_best_identifier (entry : StandingEntry.t) : json_field string :=
  match StandingEntry.user_event_status entry with
  | Some u => UserEventStatus.best_identifier u
  | None => Undefined
  end.

(** [standingPlayerKey] *)
Definition standingPlayerKey (entry : StandingEntry.t) : string :=
  match player_id entry with
  | Some n => ("player_id:" ++ string_of_Z n)%string
  | None =>
      match nullish (player_best_identifier entry)
              (nullish (StandingEntry.player_name entry)
                 (nullish (StandingEntry.display_name entry)
                    (StandingEntry.username entry))) with
      | Some s => s
      | None => UNKNOWN
      end
  end.

(** [standingPlayerDisplayName] *)
Definition standingPlayerDisplayName (entry : StandingEntry.t) : string :=
  match nullish (non_nullish (status_best_identifier entry))
          (nullish (player_best_identifier entry)
             (nullish (StandingEntry.player_name entry)
                (nullish (StandingEntry.display_name entry)
                   (StandingEntry.username entry)))) with
  | Some s => s
  | None => UNKNOWN
  end.

(** [standingPlacement] *)
Definition standingPlacement (entry : StandingEntry.t) (index : nat) : Z :=
  match nullish (StandingEntry.rank entry) (StandingEntry.placement entry) with
  | Some p => p
  | None => Z.of_nat index + 1
  end.

(** [standingWinsLosses] *)
Definition standingWinsLosses (entry : StandingEntry.t) : Z * Z :=
  match StandingEntry.wins entry, StandingEntry.losses entry with
  | Some w, Some l => (w, l)
  | _, _ => parseRecordToWinsLosses
              (nullish (StandingEntry.record entry) (StandingEntry.match_record entry))
  end.

(** The body of the inner loop of [aggregateStandingsToPlayers] for the
    entry at position [i]. The record of a key is mutated in place,
    which keeps the key's position in the map. *)
Definition addEntry (agg : list (string * AggRec.t)) (i : nat)
    (entry : StandingEntry.t) : list (string * AggRec.t) :=
  let key := standingPlayerKey entry in
  if String.eqb key UNKNOWN then agg
  else
    let displayName := standingPlayerDisplayName entry in
    let hasUserEventStatus := is_defined (status_best_identifier entry) in
    let placement := standingPlacement entry i in
    let '(wins, losses) := standingWinsLosses entry in
    let r :=
      match JsMap.get key agg with
      | None => AggRec.Make displayName hasUserEventStatus 0 0 0 []
      | Some r =>
          if hasUserEventStatus && negb (AggRec.hasUserEventStatus r)
          then AggRec.Make displayName true (AggRec.wins r) (AggRec.losses r)
                           (AggRec.eventsPlayed r) (AggRec.placements r)
          else r
      end in
    JsMap.set key
      (AggRec.Make (AggRec.displayName r) (AggRec.hasUserEventStatus r)
                   (AggRec.wins r + wins) (AggRec.losses r + losses)
                   (AggRec.eventsPlayed r + 1) (AggRec.placements r ++ [placement]))
      agg.

(** [for (let i = 0; i < standings.length; i++)], from index [i]. *)
Fixpoint addStandings (agg : list (string * AggRec.t)) (i : nat)
    (standings : list StandingEntry.t) : list (string * AggRec.t) :=
  match standings with
  | [] => agg
  | entry :: rest => addStandings (addEntry agg i entry) (S i) rest
  end.

(** [for (const { standings } of eventStandings)] *)
Definition accumulate (eventStandings : list EventStandings)
    : list (string * AggRec.t) :=
  fold_left (fun agg es => addStandings agg 0 (snd es)) eventStandings [].

Definition count_first (placements : list Z) : Z :=
  Z.of_nat (length (List.filter (fun p => p =? 1) placements)).

(** The [.map] that builds a [PlayerStats]. *)
Definition toPlayerStats (r : AggRec.t) : PlayerStats.t :=
  PlayerStats.Make (AggRec.displayName r) (AggRec.wins r) (AggRec.losses r)
                   (AggRec.eventsPlayed r) (Math_min (AggRec.placements r))
                   (count_first (AggRec.placements r)) (AggRec.placements r).

(** The win rate as a fraction with a positive denominator. *)
Definition rate (p : PlayerStats.t) : Z * Z :=
  let total := PlayerStats.totalWins p + PlayerStats.totalLosses p in
  if total >? 0 then (PlayerStats.totalWins p, total) else (0, 1).

(** The sign of [rateB - rateA]. The code subtracts two doubles; the
    sign is that of the difference of the exact fractions as long as
    the totals stay below 2^26, where distinct fractions give distinct
    doubles. *)
Definition rateDiff (b a : PlayerStats.t) : Z :=
  let '(nb, db) := rate b in
  let '(na, da) := rate a in
  Z.sgn (nb * da - na * db).

(** The comparators of [sortPlayers]. *)
Definition comparePlayers (sortBy : LeaderboardSortBy) (a b : PlayerStats.t) : Z :=
  let byWins :=
    if negb (PlayerStats.totalWins b =? PlayerStats.totalWins a)
    then Some (PlayerStats.totalWins b - PlayerStats.totalWins a) else None in
  let byLosses :=
    if negb (PlayerStats.totalLosses a =? PlayerStats.totalLosses b)
    then Some (PlayerStats.totalLosses a - PlayerStats.totalLosses b) else None in
  let byPlacement := PlayerStats.bestPlacement a - PlayerStats.bestPlacement b in
  match sortBy with
  | total_wins =>
      match byWins, byLosses with
      | Some d, _ => d
      | None, Some d => d
      | None, None => byPlacement
      end
  | events_played =>
      if negb (PlayerStats.eventsPlayed b =? PlayerStats.eventsPlayed a)
      then PlayerStats.eventsPlayed b - PlayerStats.eventsPlayed a
      else match byWins, byLosses with
           | Some d, _ => d
           | None, Some d => d
           | None, None => byPlacement
           end
  | win_rate =>
      if negb (rateDiff b a =? 0) then rateDiff b a
      else match byWins, byLosses with
           | Some d, _ => d
           | None, Some d => d
           | None, None => byPlacement
           end
  | best_placement =>
      if negb (PlayerStats.bestPlacement a =? PlayerStats.bestPlacement b)
      then byPlacement
      else match byWins, byLosses with
           | Some d, _ => d
           | None, Some d => d
           | None, None => 0
           end
  end.

(** [sortPlayers] *)
Definition sortPlayers (players : list PlayerStats.t) (sortBy : LeaderboardSortBy)
    : list PlayerStats.t :=
  Array_sort (comparePlayers sortBy) players.

(** The players before [sortPlayers]: the values of [agg] in insertion
    order, filtered by [minEvents]. *)
Definition qualifiedPlayers (eventStandings : list EventStandings) (minEvents : Z)
    : list PlayerStats.t :=
  map toPlayerStats
      (List.filter (fun r => AggRec.eventsPlayed r >=? minEvents)
                   (JsMap.values (accumulate eventStandings))).

(** [aggregateStandingsToPlayers] *)
Definition aggregateStandingsToPlayers (eventStandings : list EventStandings)
    (minEvents : Z) (sortBy : LeaderboardSortBy) (limit : Z) : list PlayerStats.t :=
  slice0 limit (sortPlayers (qualifiedPlayers eventStandings minEvents) sortBy).

(** [filterByMinRounds] *)
Definition totalRounds (event : Event.t) : Z :=
  fold_left (fun sum phase =>
               sum + match Phase.rounds phase with
                     | Some rs => Z.of_nat (length rs)
                     | None => 0
                     end)
            (match Event.tournament_phases event with Some ps => ps | None => [] end) 0.

Definition filterByMinRounds (eventStandings : list EventStandings)
    (minRounds : option Z) : list EventStandings :=
  match minRounds with
  | None | Some 0 => eventStandings
  | Some m => List.filter (fun es => totalRounds (fst es) >=? m) eventStandings
  end.

End Aggregate.

(** ** Leaderboard entry points ([getPlayerLeaderboardByCity],
       [getPlayerLeaderboardByStore]) *)

Module Geo.
(** [GeocodeCityResult]; a coordinate is a double, which is a rational. *)
Record t := Make {
  lat : QArith_base.Q;
  lon : QArith_base.Q;
  display_name : string
}.
End Geo.

Module CityParams.
Record t := Make {
  city : string;
  startDate : string;
  endDate : string;
  radiusMiles : option Z;
  limit : option Z;
  minEvents : option Z;
  minRounds : option Z;
  sortBy : option Aggregate.LeaderboardSortBy
}.
End CityParams.

Module StoreParams.
Record t := Make {
  storeId : Z;
  storeLabel : option string;
  startDate : string;
  endDate : string;
  limit : option Z;
  minEvents : option Z;
  minRounds : option Z;
  sortBy : option Aggregate.LeaderboardSortBy
}.
End StoreParams.

Module CoordsQuery.
(** The argument of [searchEventsByCoords]. *)
Record t := Make {
  latitude : QArith_base.Q;
  longitude : QArith_base.Q;
  locationLabel : string;
  radiusMiles : Z;
  statuses : list string;
  startDate : string;
  endDate : string;
  pageSize : Z;
  page : Z
}.
End CoordsQuery.

Module StoreQuery.
(** The argument of [searchEventsByStore]. *)
Record t := Make {
  storeId : Z;
  storeLabel : option string;
  statuses : list string;
  startDate : string;
  endDate : string;
  pageSize : Z;
  page : Z
}.
End StoreQuery.

Module Filters.
Record t := Make {
  city : option string;
  store : option string;
  minRounds : option Z
}.
End Filters.

Module LeaderboardResult.
Record t := Make {
  players : list PlayerStats.t;
  eventsAnalyzed : Z;
  eventsIncluded : list (Z * string * string);   (* id, name, startDate *)
  dateRange : string * string;                   (* start, end *)
  filters : Filters.t
}.
End LeaderboardResult.

Module Leaderboard.
Import Js Aggregate.

Definition MAX_LEADERBOARD_DATE_RANGE_DAYS : Z := 366.
Definition MAX_LEADERBOARD_RADIUS_MILES : Z := 100.
Definition MAX_LEADERBOARD_LIMIT : Z := 100.

Definition msPerDay : Z := 24 * 60 * 60 * 1000.

(** What a search helper resolves to: [{ error }] or a page of events
    with the total reported by the upstream. *)
Inductive SearchReply :=
| SearchError (error : string)
| SearchOk (events : list Event.t) (total : Z).

(** An element of [allEvents]. *)
Definition EventRef : Type := Z * string * string.   (* id, name, start_datetime *)
Definition toEventRef (e : Event.t) : EventRef :=
  (Event.id e, Event.name e, Event.start_datetime e).
Definition ref_id (r : EventRef) : Z := fst (fst r).

(** The upstream calls, in the order in which they are made. *)
Inductive Call :=
| CallGeocode (city : string)
| CallSearchCoords (q : CoordsQuery.t)
| CallSearchStore (q : StoreQuery.t)
| CallStandings (eventIds : list Z).

(** How the [while (hasMore)] loop ends. *)
Inductive Discovery :=
| StillPaging                       (* the iteration budget ran out *)
| SearchThrew
| SearchFailed (error : string)
| Discovered (allEvents : list EventRef) (label : option string).

(** What the returned promise does. *)
Inductive Reply :=
| Error (error : string)
| Success (result : LeaderboardResult.t).

Inductive Outcome :=
| Pending                           (* the paging loop has not ended *)
| Rejected                          (* an upstream call threw *)
| Resolved (reply : Reply).

Definition is_truthy (o : option string) : bool :=
  match o with
  | Some (String _ _) => true
  | _ => false
  end.

Section EntryPoints.
(** The time value of [new Date(text)], [None] for an invalid date. *)
Variable Date_parse : string -> option Z.
(** [geocodeCity]; [Returns None] is [null]. *)
Variable geocodeCity : string -> result (option Geo.t).
Variable searchEventsByCoords : CoordsQuery.t -> result SearchReply.
Variable searchEventsByStore : StoreQuery.t -> result SearchReply.
(** [fetchAllEventStandings] catches every failure and resolves to
    the events that have standings. *)
Variable fetchAllEventStandings : list Z -> list EventStandings.

(** [validateDateRange] *)
Definition validateDateRange (startDate endDate : string) : option string :=
  match Date_parse (startDate ++ "T00:00:00Z")%string,
        Date_parse (endDate ++ "T23:59:59Z")%string with
  | Some start, Some end_ =>
      if start >? end_ then Some "start_date must be on or before end_date."%string
      else
        let daysDiff := Math_round_div (end_ - start) msPerDay in
        if daysDiff >? MAX_LEADERBOARD_DATE_RANGE_DAYS
        then Some ("Date range cannot exceed "
                     ++ string_of_Z MAX_LEADERBOARD_DATE_RANGE_DAYS
                     ++ " days (about 1 year).")%string
        else None
  | _, _ => Some "Dates must be valid YYYY-MM-DD."%string
  end.

Definition pastAndInProgress : list string := ["past"; "inProgress"]%string.

(** The paging loop of the city variant, from page [page] with
    [allEvents] collected so far. *)
Fixpoint pageByCoords (fuel : nat) (geo : Geo.t) (radius : Z)
    (startDate endDate : string) (page : Z) (allEvents : list EventRef)
    : list Call * Discovery :=
  match fuel with
  | O => ([], StillPaging)
  | S fuel' =>
      let q := CoordsQuery.Make (Geo.lat geo) (Geo.lon geo) (Geo.display_name geo)
                 radius pastAndInProgress startDate endDate 100 page in
      match searchEventsByCoords q with
      | Throws => ([CallSearchCoords q], SearchThrew)
      | Returns (SearchError e) => ([CallSearchCoords q], SearchFailed e)
      | Returns (SearchOk events total) =>
          let allEvents' := allEvents ++ map toEventRef events in
          let hasMore := (Z.of_nat (length events) =? 100)
                         && (total >? Z.of_nat (length allEvents')) in
          if hasMore
          then let '(calls, d) :=
                 pageByCoords fuel' geo radius startDate endDate (page + 1) allEvents' in
               (CallSearchCoords q :: calls, d)
          else ([CallSearchCoords q], Discovered allEvents' None)
      end
  end.

(** [resolvedStoreLabel] after the [for] loop over one page. *)
Definition resolveLabel (label : option string) (events : list Event.t)
    : option string :=
  fold_left (fun l e =>
               if negb (is_truthy l) && is_truthy (Event.store_name e)
               then Event.store_name e else l)
            events label.

(** The paging loop of the store variant. *)
Fixpoint pageByStore (fuel : nat) (storeId : Z) (label : option string)
    (startDate endDate : string) (page : Z) (allEvents : list EventRef)
    : list Call * Discovery :=
  match fuel with
  | O => ([], StillPaging)
  | S fuel' =>
      let q := StoreQuery.Make storeId label pastAndInProgress
                 startDate endDate 100 page in
      match searchEventsByStore q with
      | Throws => ([CallSearchStore q], SearchThrew)
      | Returns (SearchError e) => ([CallSearchStore q], SearchFailed e)
      | Returns (SearchOk events total) =>
          let allEvents' := allEvents ++ map toEventRef events in
          let label' := resolveLabel label events in
          let hasMore := (Z.of_nat (length events) =? 100)
                         && (total >? Z.of_nat (length allEvents')) in
          if hasMore
          then let '(calls, d) :=
                 pageByStore fuel' storeId label' startDate endDate (page + 1) allEvents' in
               (CallSearchStore q :: calls, d)
          else ([CallSearchStore q], Discovered allEvents' label')
      end
  end.

Definition truthyZ (o : option Z) : option Z :=
  match o with
  | Some 0 | None => None
  | Some m => Some m
  end.

(** The part shared by both entry points after the events are known. *)
Definition buildResult (allEvents : list EventRef) (minRounds : option Z)
    (minEventsCap : Z) (sortBy : LeaderboardSortBy) (limitCap : Z)
    (startDate endDate : string) (city store : option string)
    : LeaderboardResult.t :=
  let eventStandings := fetchAllEventStandings (map ref_id allEvents) in
  let filteredStandings := filterByMinRounds eventStandings minRounds in
  let players :=
    aggregateStandingsToPlayers filteredStandings minEventsCap sortBy limitCap in
  LeaderboardResult.Make players (Z.of_nat (length filteredStandings))
    (map (fun es => (Event.id (fst es), Event.name (fst es),
                     slice_0_10 (Event.start_datetime (fst es))))
         filteredStandings)
    (startDate, endDate)
    (Filters.Make city store (truthyZ minRounds)).

Definition noEventsNear (place startDate endDate : string) : string :=
  ("No past or in-progress events found near " ++ place ++ " for " ++ startDate
     ++ " – " ++ endDate ++ ". Try a larger radius or different dates.")%string.

Definition noEventsAtStore (storeId : Z) (startDate endDate : string) : string :=
  ("No past or in-progress events found at store " ++ string_of_Z storeId ++ " for "
     ++ startDate ++ " – " ++ endDate ++ ". Try different dates.")%string.

Definition orElse {A} (o : option A) (d : A) : A :=
  match o with Some x => x | None => d end.

(** [getPlayerLeaderboardByCity]; [fuel] bounds the iterations of the
    paging loop. *)
Definition getPlayerLeaderboardByCity (fuel : nat) (params : CityParams.t)
    : list Call * Outcome :=
  let city := CityParams.city params in
  let startDate := CityParams.startDate params in
  let endDate := CityParams.endDate params in
  let radiusMiles := orElse (CityParams.radiusMiles params) 50 in
  let limit := orElse (CityParams.limit params) 20 in
  let minEvents := orElse (CityParams.minEvents params) 1 in
  let minRounds := CityParams.minRounds params in
  let sortBy := orElse (CityParams.sortBy params) total_wins in
  match validateDateRange startDate endDate with
  | Some dateError => ([], Resolved (Error dateError))
  | None =>
      let radius := Z.min MAX_LEADERBOARD_RADIUS_MILES (Z.max 0 radiusMiles) in
      let limitCap := Z.min MAX_LEADERBOARD_LIMIT (Z.max 1 limit) in
      let minEventsCap := Z.max 1 minEvents in
      match geocodeCity city with
      | Throws => ([CallGeocode city], Rejected)
      | Returns None =>
          ([CallGeocode city],
           Resolved (Error ("Could not find location: " ++ city)%string))
      | Returns (Some geo) =>
          let '(calls, d) := pageByCoords fuel geo radius startDate endDate 1 [] in
          match d with
          | StillPaging => (CallGeocode city :: calls, Pending)
          | SearchThrew => (CallGeocode city :: calls, Rejected)
          | SearchFailed e => (CallGeocode city :: calls, Resolved (Error e))
          | Discovered allEvents _ =>
              if (length allEvents =? 0)%nat
              then (CallGeocode city :: calls,
                    Resolved (Error (noEventsNear (Geo.display_name geo)
                                                  startDate endDate)))
              else (CallGeocode city :: calls
                      ++ [CallStandings (map ref_id allEvents)],
                    Resolved (Success
                      (buildResult allEvents minRounds minEventsCap sortBy limitCap
                         startDate endDate (Some (Geo.display_name geo)) None)))
          end
      end
  end.

(** [getPlayerLeaderboardByStore] *)
Definition getPlayerLeaderboardByStore (fuel : nat) (params : StoreParams.t)
    : list Call * Outcome :=
  let storeId := StoreParams.storeId params in
  let storeLabel := StoreParams.storeLabel params in
  let startDate := StoreParams.startDate params in
  let endDate := StoreParams.endDate params in
  let limit := orElse (StoreParams.limit params) 20 in
  let minEvents := orElse (StoreParams.minEvents params) 1 in
  let minRounds := StoreParams.minRounds params in
  let sortBy := orElse (StoreParams.sortBy params) total_wins in
  match validateDateRange startDate endDate with
  | Some dateError => ([], Resolved (Error dateError))
  | None =>
      let limitCap := Z.min MAX_LEADERBOARD_LIMIT (Z.max 1 limit) in
      let minEventsCap := Z.max 1 minEvents in
      let '(calls, d) := pageByStore fuel storeId storeLabel startDate endDate 1 [] in
      match d with
      | StillPaging => (calls, Pending)
      | SearchThrew => (calls, Rejected)
      | SearchFailed e => (calls, Resolved (Error e))
      | Discovered allEvents resolvedStoreLabel =>
          if (length allEvents =? 0)%nat
          then (calls, Resolved (Error (noEventsAtStore storeId startDate endDate)))
          else (calls ++ [CallStandings (map ref_id allEvents)],
                Resolved (Success
                  (buildResult allEvents minRounds minEventsCap sortBy limitCap
                     startDate endDate None
                     (Some (orElse resolvedStoreLabel
                              ("Store " ++ string_of_Z storeId)%string)))))
      end
  end.

End EntryPoints.

End Leaderboard.

(** ** A date parser to run the validation on

    [Date.parse] belongs to the JavaScript runtime; the entry points take
    it as a parameter. [IsoDate.parse] is the ECMAScript date-time
    string format restricted to the shape [YYYY-MM-DDTHH:mm:ssZ], which
    is what the code builds from a [YYYY-MM-DD] date; every other text is
    an invalid date. *)

Module IsoDate.

Definition digit2 (a b : ascii) : option Z :=
  match Js.digit a, Js.digit b with
  | Some x, Some y => Some (10 * x + y)
  | _, _ => None
  end.

Definition isLeap (y : Z) : bool :=
  (y mod 4 =? 0) && (negb (y mod 100 =? 0) || (y mod 400 =? 0)).

Definition daysInMonth (y m : Z) : Z :=
  if m =? 2 then (if isLeap y then 29 else 28)
  else if (m =? 4) || (m =? 6) || (m =? 9) || (m =? 11) then 30
  else 31.

(** Days from 1970-01-01 to the given civil date. *)
Definition daysFromCivil (y m d : Z) : Z :=
  let y' := if m <=? 2 then y - 1 else y in
  let era := y' / 400 in
  let yoe := y' - era * 400 in
  let mp := if m >? 2 then m - 3 else m + 9 in
  let doy := (153 * mp + 2) / 5 + d - 1 in
  let doe := yoe * 365 + yoe / 4 - yoe / 100 + doy in
  era * 146097 + doe - 719468.

Definition parse (text : string) : option Z :=
  match list_ascii_of_string text with
  | [y1; y2; y3; y4; dash1; m1; m2; dash2; d1; d2; tee; h1; h2; c1; n1; n2; c2; s1; s2; zed] =>
      match digit2 y1 y2, digit2 y3 y4, digit2 m1 m2, digit2 d1 d2,
            digit2 h1 h2, digit2 n1 n2, digit2 s1 s2 with
      | Some yh, Some yl, Some m, Some d, Some h, Some n, Some sec =>
          let y := 100 * yh + yl in
          if Ascii.eqb dash1 "-" && Ascii.eqb dash2 "-" && Ascii.eqb tee "T"
             && Ascii.eqb c1 ":" && Ascii.eqb c2 ":" && Ascii.eqb zed "Z"
             && (1 <=? m) && (m <=? 12) && (1 <=? d) && (d <=? daysInMonth y m)
             && (h <=? 23) && (n <=? 59) && (sec <=? 59)
          then Some (daysFromCivil y m d * 86400000
                     + h * 3600000 + n * 60000 + sec * 1000)
          else None
      | _, _, _, _, _, _, _ => None
      end
  | _ => None
  end.

End IsoDate.

(** ** More of the JavaScript library *)

Module JsMore.

(** The position that [Array.prototype.slice] derives from an argument:
    a negative one counts from the end, and both ends are clamped. *)
Definition relative_index (len i : Z) : Z :=
  if i <? 0 then Z.max (len + i) 0 else Z.min i len.

(** [l.slice(start, end)] *)
Definition Array_slice {A} (start end_ : Z) (l : list A) : list A :=
  let len := Z.of_nat (length l) in
  let k := relative_index len start in
  let final := relative_index len end_ in
  firstn (Z.to_nat (Z.max (final - k) 0)) (skipn (Z.to_nat k) l).

(** [Math.ceil(a / b)] for integers [a] and [b > 0]. *)
Definition Math_ceil_div (a b : Z) : Z := - ((- a) / b).

(** [l.join(sep)] *)
Definition join (sep : string) (l : list string) : string := String.concat sep l.

(** [s.includes(sub)] *)
Fixpoint includes (sub s : string) : bool :=
  String.prefix sub s ||
  match s with
  | EmptyString => false
  | String _ s' => includes sub s'
  end.

(** A string is truthy when it is defined and not empty. *)
Definition truthy (o : option string) : bool :=
  match o with
  | Some (String _ _) => true
  | _ => false
  end.

(** The double quote character, as a string. *)
Definition dquote : string := String (ascii_of_nat 34) EmptyString.

(** The outcome of a call that may throw [new Error(message)]. *)
Inductive throwing (A : Type) :=
| ThrowError (message : string)
| Return (a : A).
Arguments ThrowError {A} message.
Arguments Return {A} a.

End JsMore.

(** ** Event statuses ([expandStatusesForApi]) *)

Module Statuses.

Definition API_STATUSES : list string := ["upcoming"; "inProgress"; "past"]%string.

(** [expandStatusesForApi] *)
Definition expandStatusesForApi (statuses : list string) : list string :=
  if (length statuses =? 0)%nat || existsb (fun s => String.eqb s "all") statuses
  then API_STATUSES
  else List.filter (fun s => negb (String.eqb s "all")) statuses.

End Statuses.

(** ** Format and category filter maps

    The module variables [FORMAT_MAP] and [CATEGORY_MAP] are the state;
    [updateFilterMaps] replaces both, the resolvers read them. *)

Module FilterMaps.
Import JsMore.

(** [GameplayFormat] and [EventCategory], as far as the maps read
    them. *)
Record Named := MkNamed { id : string; name : string }.

Record Maps := MkMaps {
  FORMAT_MAP : list (string * string);
  CATEGORY_MAP : list (string * string)
}.

(** The maps of a freshly loaded module. *)
Definition initial : Maps := MkMaps [] [].

(** [new Map(pairs)]: the pairs are set in order. *)
Definition Map_of (pairs : list (string * string)) : list (string * string) :=
  fold_left (fun m kv => JsMap.set (fst kv) (snd kv) m) pairs [].

(** [updateFilterMaps] *)
Definition updateFilterMaps (formats categories : list Named) : Maps :=
  MkMaps (Map_of (map (fun f => (name f, id f)) formats))
         (Map_of (map (fun c => (name c, id c)) categories)).

Definition warnUnknown (kind name : string) : string :=
  ("Warning: Unknown " ++ kind ++ " " ++ dquote ++ name ++ dquote)%string.

(** The loop of [resolveFormatIds] and [resolveCategoryIds]: the ids
    pushed and the lines written with [console.error]. *)
Fixpoint resolveLoop (kind : string) (m : list (string * string)) (names : list string)
    (ids warnings : list string) : list string * list string :=
  match names with
  | [] => (ids, warnings)
  | name :: rest =>
      let id := JsMap.get name m in
      if truthy id
      then resolveLoop kind m rest (ids ++ match id with Some i => [i] | None => [] end)
                       warnings
      else resolveLoop kind m rest ids (warnings ++ [warnUnknown kind name])
  end.

(** [resolveFormatIds] *)
Definition resolveFormatIds (maps : Maps) (formatNames : list string)
    : list string * list string :=
  resolveLoop "format" (FORMAT_MAP maps) formatNames [] [].

(** [resolveCategoryIds] *)
Definition resolveCategoryIds (maps : Maps) (categoryNames : list string)
    : list string * list string :=
  resolveLoop "category" (CATEGORY_MAP maps) categoryNames [] [].

(** The loop of the strict resolvers: the ids and the invalid names. *)
Fixpoint strictLoop (m : list (string * string)) (names : list string)
    (invalid ids : list string) : list string * list string :=
  match names with
  | [] => (invalid, ids)
  | name :: rest =>
      let id := JsMap.get name m in
      if truthy id
      then strictLoop m rest invalid (ids ++ match id with Some i => [i] | None => [] end)
      else strictLoop m rest (invalid ++ [name]) ids
  end.

(** [resolveFormatIdsStrict] *)
Definition resolveFormatIdsStrict (maps : Maps) (formatNames : list string)
    : throwing (list string) :=
  let '(invalid, ids) := strictLoop (FORMAT_MAP maps) formatNames [] [] in
  if (0 <? length invalid)%nat
  then ThrowError ("Unknown format(s). Use list_filters for valid names: "
                     ++ join ", " invalid)%string
  else Return ids.

(** [resolveCategoryIdsStrict] *)
Definition resolveCategoryIdsStrict (maps : Maps) (categoryNames : list string)
    : throwing (list string) :=
  let '(invalid, ids) := strictLoop (CATEGORY_MAP maps) categoryNames [] [] in
  if (0 <? length invalid)%nat
  then ThrowError ("Unknown category(s). Use list_filters for valid names: "
                     ++ join ", " invalid)%string
  else Return ids.

(** The loop of [getCategoryName] over [CATEGORY_MAP.entries()]. *)
Fixpoint nameOfId (entries : list (string * string)) (templateId : string)
    : option string :=
  match entries with
  | [] => None
  | (name, id) :: rest =>
      if String.eqb id templateId then Some name else nameOfId rest templateId
  end.

(** [getCategoryName] *)
Definition getCategoryName (maps : Maps) (templateId : string) : string :=
  match nameOfId (CATEGORY_MAP maps) templateId with
  | Some name => name
  | None => templateId
  end.

End FilterMaps.

(** ** Pages of standings ([paginateStandings]) *)

Module StandingsResponse.
Record t := Make {
  count : Z;
  total : option Z;
  page_size : Z;
  current_page_number : Z;
  next_page_number : option Z;
  previous_page_number : option Z;
  results : list StandingEntry.t
}.
End StandingsResponse.

Module Pagination.
Import JsMore.

(** [paginateStandings] *)
Definition paginateStandings (standings : list StandingEntry.t) (page pageSize : Z)
    : StandingsResponse.t :=
  let safePage := Z.max 1 page in
  let safePageSize := Z.max 1 pageSize in
  let total := Z.of_nat (length standings) in
  let startIndex := (safePage - 1) * safePageSize in
  let results := Array_slice startIndex (startIndex + safePageSize) standings in
  let totalPages := Z.max 1 (Math_ceil_div total safePageSize) in
  StandingsResponse.Make
    (Z.of_nat (length results))
    (Some total)
    safePageSize
    safePage
    (if safePage <? totalPages then Some (safePage + 1) else None)
    (if (safePage >? 1) && (safePage <=? totalPages) then Some (safePage - 1) else None)
    results.

End Pagination.

(** ** Fetch with retries ([fetchWithRetry]) *)

Module Retry.
Import JsMore.

(** A [Response], as far as [fetchWithRetry] reads it. *)
Record Response := MkResponse { ok : bool; status : Z }.

(** A thrown value, as far as [isRetryableError] reads it: whether it
    is an instance of [TypeError] and of [Error], its [name] and its
    [message]. *)
Record Err := MkErr {
  isTypeError : bool;
  isError : bool;
  name : option string;
  message : option string
}.

Definition DEFAULT_MAX_RETRIES : Z := 3.
Definition DEFAULT_RETRY_DELAY_MS : Z := 1000.

Definition RETRYABLE_STATUS : list Z := [429; 502; 503; 504].

(** [isRetryableError] *)
Definition isRetryableError (err : Err) : bool :=
  (isTypeError err
   && match message err with Some m => includes "fetch" m | None => false end)
  || (isError err
      && match name err with Some n => String.eqb n "AbortError" | None => false end).

(** What the function does, in order. *)
Inductive event :=
| Fetch (attempt : Z)
| Sleep (ms : Z).

(** What the returned promise does; [Rejected None] rejects with
    [undefined]. *)
Inductive outcome :=
| Resolved (res : Response)
| Rejected (err : option Err).

Record Options := MkOptions {
  maxRetries : option Z;
  retryDelayMs : option Z
}.

Section FetchWithRetry.
(** The outcome of the call of [fetch] made with the counter at
    [attempt]: a response, or a thrown value (among them the abort
    after [timeoutMs]). *)
Variable fetch : Z -> Response + Err.
Variables (maxRetries retryDelayMs : Z).

(** The [for] loop from [attempt] on; [left] counts the values of the
    counter that still pass the test [attempt <= maxRetries]. When none
    is left the loop is over and [lastError] is thrown. *)
Fixpoint attempts (left : nat) (attempt : Z) (lastError : option Err)
    : list event * outcome :=
  match left with
  | O => ([], Rejected lastError)
  | S left' =>
      match fetch attempt with
      | inl res =>
          if ok res then ([Fetch attempt], Resolved res)
          else if (attempt <? maxRetries)
                  && existsb (Z.eqb (status res)) RETRYABLE_STATUS
          then let delay := retryDelayMs * 2 ^ attempt in
               let '(trace, o) := attempts left' (attempt + 1) lastError in
               (Fetch attempt :: Sleep delay :: trace, o)
          else ([Fetch attempt], Resolved res)
      | inr err =>
          if (attempt <? maxRetries) && isRetryableError err
          then let delay := retryDelayMs * 2 ^ attempt in
               let '(trace, o) := attempts left' (attempt + 1) (Some err) in
               (Fetch attempt :: Sleep delay :: trace, o)
          else ([Fetch attempt], Rejected (Some err))
      end
  end.

End FetchWithRetry.

(** [fetchWithRetry(url, options)] against the network behaviour
    [fetch]. *)
Definition fetchWithRetry (fetch : Z -> Response + Err) (options : Options)
    : list event * outcome :=
  let maxRetries := match maxRetries options with
                    | Some m => m
                    | None => DEFAULT_MAX_RETRIES
                    end in
  let retryDelayMs := match retryDelayMs options with
                      | Some d => d
                      | None => DEFAULT_RETRY_DELAY_MS
                      end in
  attempts fetch maxRetries retryDelayMs (Z.to_nat (maxRetries + 1)) 0 None.

End Retry.

(** ** Cached fetchers of [api.ts]

    A fetcher is a function of the cache it reads and writes, of the
    readings of [Date.now()] that the cache operations make, and of the
    upstream's answers; it returns the cache, the requests sent in order
    and what the returned promise does. A fetcher is modelled running
    alone: no other call touches its cache between its lookup and its
    store. *)

Module Http.

(** What [await fetchWithRetry(url, init)] gives, with the body read:
    the call throws, or there is a response, whose [json()] may reject
    ([json = None]). *)
Inductive reply (A : Type) :=
| Unreachable
| Responds (ok : bool) (status : Z) (statusText text : string) (json : option A).
Arguments Unreachable {A}.
Arguments Responds {A} ok status statusText text json.

(** A thrown value: the one of [fetchWithRetry] or of [json()], or the
    [Error] that the fetcher builds. *)
Inductive thrown :=
| Opaque
| ApiError (message : string).

Inductive outcome (A : Type) :=
| Thrown (e : thrown)
| Value (a : A).
Arguments Thrown {A} e.
Arguments Value {A} a.

Inductive Request :=
| GetEvent (eventId : Z)
| GetStandingsPage (roundId page pageSize : Z)
| GetStandings (roundId : Z).

End Http.

Module Fetchers.
Import Js JsMore Http Standings Pagination.

Definition CACHE_MAX_SIZE : Z := 1000.
Definition CACHE_TTL_PAST_MS : Z := 7 * 24 * 60 * 60 * 1000.
Definition CACHE_TTL_LIVE_MS : Z := 60 * 1000.

(** [cacheTtlForEvent] *)
Definition cacheTtlForEvent (event : Event.t) : Z :=
  if isEventCompleted event then CACHE_TTL_PAST_MS else CACHE_TTL_LIVE_MS.

Definition apiRequestFailed (status : Z) (statusText text : string) : string :=
  ("API request failed: " ++ string_of_Z status ++ " " ++ statusText ++ " - " ++ text)%string.

Definition orDefault {A} (o : option A) (d : A) : A :=
  match o with Some x => x | None => d end.

(** The key of [roundStandingsPaginatedCache]. *)
Definition pageKey (roundId safePage safePageSize : Z) : string :=
  (string_of_Z roundId ++ "-" ++ string_of_Z safePage ++ "-"
     ++ string_of_Z safePageSize)%string.

Section Upstream.
(** [GET /events/{eventId}/] *)
Variable getEvent : Z -> reply Event.t.
(** [GET /tournament-rounds/{roundId}/standings/paginated/?page=&page_size=] *)
Variable getStandingsPage : Z -> Z -> Z -> reply StandingsResponse.t.
(** [GET /tournament-rounds/{roundId}/standings/]; the payload is its
    [standings] field. *)
Variable getStandings : Z -> reply (option (list StandingEntry.t)).

(** [fetchEventDetails] *)
Definition fetchEventDetails (now0 now1 now2 : Z) (eventId : Z)
    (cache : @TtlCache.store Event.t)
    : @TtlCache.store Event.t * list Request * outcome Event.t :=
  let key := string_of_Z eventId in
  match TtlCache.get CACHE_MAX_SIZE now0 key cache with
  | (cache1, Some cached) => (cache1, [], Value cached)
  | (cache1, None) =>
      match getEvent eventId with
      | Unreachable => (cache1, [GetEvent eventId], Thrown Opaque)
      | Responds ok status statusText text json =>
          if negb ok
          then (cache1, [GetEvent eventId],
                Thrown (ApiError (apiRequestFailed status statusText text)))
          else match json with
               | None => (cache1, [GetEvent eventId], Thrown Opaque)
               | Some event =>
                   (TtlCache.set CACHE_MAX_SIZE now1 now2 key event
                                 (cacheTtlForEvent event) cache1,
                    [GetEvent eventId], Value event)
               end
      end
  end.

(** [fetchTournamentRoundStandingsUnpaginated] *)
Definition fetchTournamentRoundStandingsUnpaginated (roundId : Z)
    : outcome (list StandingEntry.t) :=
  match getStandings roundId with
  | Unreachable => Thrown Opaque
  | Responds ok _ _ _ json =>
      if negb ok then Value []
      else match json with
           | None => Thrown Opaque
           | Some standings => Value (orDefault standings [])
           end
  end.

(** [fetchTournamentRoundStandings(roundId, page = 1, pageSize = 25, options)] *)
Definition fetchTournamentRoundStandings (now0 now1 now2 : Z) (roundId : Z)
    (page pageSize : option Z) (isPastEvent : option bool)
    (cache : @TtlCache.store StandingsResponse.t)
    : @TtlCache.store StandingsResponse.t * list Request * outcome StandingsResponse.t :=
  let safePage := Z.max 1 (orDefault page 1) in
  let safePageSize := Z.max 1 (orDefault pageSize 25) in
  let cacheKey := pageKey roundId safePage safePageSize in
  match TtlCache.get CACHE_MAX_SIZE now0 cacheKey cache with
  | (cache1, Some cached) => (cache1, [], Value cached)
  | (cache1, None) =>
      let request := GetStandingsPage roundId safePage safePageSize in
      match getStandingsPage roundId safePage safePageSize with
      | Unreachable => (cache1, [request], Thrown Opaque)
      | Responds ok status statusText text json =>
          if negb ok
          then (cache1, [request],
                Thrown (ApiError (apiRequestFailed status statusText text)))
          else match json with
               | None => (cache1, [request], Thrown Opaque)
               | Some paginated =>
                   let empty :=
                     (length (StandingsResponse.results paginated) =? 0)%nat
                     && (orDefault (StandingsResponse.total paginated) 0 =? 0) in
                   let paginated' :=
                     if empty
                     then match fetchTournamentRoundStandingsUnpaginated roundId with
                          | Value (e :: fullStandings) =>
                              paginateStandings (e :: fullStandings) safePage safePageSize
                          | _ => paginated
                          end
                     else paginated in
                   let ttl := if orDefault isPastEvent false
                              then CACHE_TTL_PAST_MS else CACHE_TTL_LIVE_MS in
                   (TtlCache.set CACHE_MAX_SIZE now1 now2 cacheKey paginated' ttl cache1,
                    request :: (if empty then [GetStandings roundId] else []),
                    Value paginated')
               end
      end
  end.

End Upstream.

Definition STANDINGS_PAGE_SIZE : Z := 100.
Definition STANDINGS_MAX_PAGES : Z := 50.

Section AllPages.
(** [fetchTournamentRoundStandings(roundId, page, pageSize, { isPastEvent })]
    as its caller sees it: the response, or [None] when it throws. *)
Variable fetchTournamentRoundStandings : FetchCall -> option StandingsResponse.t.

(** The [while (hasMore && page <= STANDINGS_MAX_PAGES)] loop from
    [page] on, with [all] collected so far; [left] counts the pages from
    [page] to [STANDINGS_MAX_PAGES]. Returns the calls made and [all],
    or [None] when a call throws. *)
Fixpoint collectPages (left : nat) (roundId : Z) (isPastEvent : bool) (page : Z)
    (all : list StandingEntry.t) : list FetchCall * option (list StandingEntry.t) :=
  match left with
  | O => ([], Some all)
  | S left' =>
      let call := MkFetchCall roundId page STANDINGS_PAGE_SIZE isPastEvent in
      match fetchTournamentRoundStandings call with
      | None => ([call], None)
      | Some response =>
          let all' := all ++ StandingsResponse.results response in
          let hasMore :=
            match StandingsResponse.next_page_number response with
            | Some _ => true
            | None => false
            end
            && (Z.of_nat (length (StandingsResponse.results response))
                =? STANDINGS_PAGE_SIZE) in
          if hasMore
          then let '(calls, r) := collectPages left' roundId isPastEvent (page + 1) all' in
               (call :: calls, r)
          else ([call], Some all')
      end
  end.

(** [fetchAllRoundStandings(roundId, isPastEvent = false)] *)
Definition fetchAllRoundStandings (now0 now1 now2 : Z) (roundId : Z)
    (isPastEvent : option bool) (cache : @TtlCache.store (list StandingEntry.t))
    : @TtlCache.store (list StandingEntry.t) * list FetchCall
      * option (list StandingEntry.t) :=
  let isPastEvent := orDefault isPastEvent false in
  let cacheKey := string_of_Z roundId in
  match TtlCache.get CACHE_MAX_SIZE now0 cacheKey cache with
  | (cache1, Some cached) => (cache1, [], Some cached)
  | (cache1, None) =>
      match collectPages (Z.to_nat STANDINGS_MAX_PAGES) roundId isPastEvent 1 [] with
      | (calls, None) => (cache1, calls, None)
      | (calls, Some all) =>
          (if (0 <? length all)%nat
           then TtlCache.set CACHE_MAX_SIZE now1 now2 cacheKey all
                             (if isPastEvent then CACHE_TTL_PAST_MS
                              else CACHE_TTL_LIVE_MS) cache1
           else cache1,
           calls, Some all)
      end
  end.

End AllPages.

End Fetchers.

(** ** Standings of many events ([fetchAllEventStandings]) *)

Module Batch.
Import Js.

Definition EVENT_STANDINGS_CONCURRENCY : Z := 8.

Section Batch.
(** [getEventStandings(eventId, pageSize)] as its caller sees it. *)
Variable getEventStandings : Z -> Z -> result (option EventStandings).

(** The operation given to the runner,
    [async (eventId) => { try { return await getEventStandings(eventId, 100) }
                          catch { return null } }]:
    its promise is always fulfilled, with [null] after a failure. *)
Definition fetchOne (eventId : Z) : Runner.call (option EventStandings) :=
  Runner.Fulfils match getEventStandings eventId 100 with
                 | Returns found => found
                 | Throws => None
                 end.

(** The loop over [raw] that keeps what is neither [null] nor
    [undefined]. *)
Definition keepFound (raw : list (option (option EventStandings)))
    : list EventStandings :=
  fold_left (fun results one =>
               match one with
               | Some (Some found) => results ++ [found]
               | _ => results
               end)
            raw [].

(** [fetchAllEventStandings(eventIds)] resolves to [out]: the runner
    has finished under some schedule, and [out] is what the final loop
    keeps of its results. *)
Definition fetchAllEventStandings (eventIds : list Z) (out : list EventStandings)
    : Prop :=
  exists st,
    rtc (Runner.step fetchOne eventIds)
        (Runner.init fetchOne eventIds EVENT_STANDINGS_CONCURRENCY) st /\
    Runner.all_returned st /\
    out = keepFound (Runner.results st).

End Batch.

End Batch.

(** ** Geocoding a city ([geocodeCity], [geocode.ts]) *)

Module Geocode.
Import Js JsMore Http.

Definition GEO_CACHE_TTL_MS : Z := 10 * 60 * 1000.
Definition GEO_CACHE_MAX_SIZE : Z := 500.

(** [NominatimResult] *)
Record NominatimResult := MkNominatim {
  n_lat : string;
  n_lon : string;
  n_display_name : string
}.

Section Geocode.
(** The numbers of the runtime and its [parseFloat]. *)
Variable number : Type.
Variable parseFloat : string -> number.
(** [String.prototype.toLowerCase] of the runtime. *)
Variable toLowerCase : string -> string.
(** The answer of Nominatim to the search for [city]. *)
Variable search : string -> reply (list NominatimResult).

(** [GeocodeCityResult] *)
Record GeocodeCityResult := MkResult {
  lat : number;
  lon : number;
  display_name : string
}.

(** [geocodeCity]: the cache, whether a request was sent, and the
    result, [Value None] being [null]. *)
Definition geocodeCity (now0 now1 now2 : Z) (city : string)
    (cache : @TtlCache.store GeocodeCityResult)
    : @TtlCache.store GeocodeCityResult * list string * outcome (option GeocodeCityResult) :=
  let cacheKey := ("geocode:" ++ toLowerCase city)%string in
  match TtlCache.get GEO_CACHE_MAX_SIZE now0 cacheKey cache with
  | (cache1, Some cached) => (cache1, [], Value (Some cached))
  | (cache1, None) =>
      match search city with
      | Unreachable => (cache1, [city], Thrown Opaque)
      | Responds ok _ _ _ json =>
          if negb ok then (cache1, [city], Value None)
          else match json with
               | None => (cache1, [city], Thrown Opaque)
               | Some [] => (cache1, [city], Value None)
               | Some (first :: _) =>
                   let result := MkResult (parseFloat (n_lat first))
                                          (parseFloat (n_lon first))
                                          (n_display_name first) in
                   (TtlCache.set GEO_CACHE_MAX_SIZE now1 now2 cacheKey result
                                 GEO_CACHE_TTL_MS cache1,
                    [city], Value (Some result))
               end
      end
  end.

End Geocode.

End Geocode.

(** ** Searching the events of a store ([searchEventsByStore], [search.ts]) *)

Module EventsApiResponse.
Record t := Make {
  count : Z;
  total : Z;
  page_size : Z;
  current_page_number : Z;
  next_page_number : option Z;
  results : list Event.t
}.
End EventsApiResponse.

Module EventSearchResult.
Record t := Make {
  events : list Event.t;
  location : string;
  total : Z;
  currentPage : Z;
  nextPage : option Z;
  pageSize : Z
}.
End EventSearchResult.

Module SearchStoreParams.
Record t := Make {
  storeId : Z;
  storeLabel : option string;
  statuses : option (list string);
  startDate : option string;
  endDate : option string;
  pageSize : option Z;
  page : option Z
}.
End SearchStoreParams.

Module Search.
Import Js JsMore Http.

Definition SEARCH_CACHE_TTL_MS : Z := 5 * 60 * 1000.
Definition CACHE_MAX_SIZE : Z := 1000.

(** What a search helper resolves to. *)
Inductive found :=
| ErrorReply (error : string)
| ResultReply (result : EventSearchResult.t).

Definition orDefault {A} (o : option A) (d : A) : A :=
  match o with Some x => x | None => d end.

(** The key of [eventsByStoreCache]. *)
Definition storeCacheKey (storeId : Z) (storeLabel : option string)
    (statuses : list string) (startDate endDate : option string) (pageSize page : Z)
    : string :=
  ("eventsByStore:"
     ++ join "|" [string_of_Z storeId; orDefault storeLabel EmptyString; join "," statuses;
                  orDefault startDate EmptyString; orDefault endDate EmptyString;
                  string_of_Z pageSize; string_of_Z page])%string.

(** The pairs of the [URLSearchParams] of the request, in order. *)
Definition storeQuery (storeId : Z) (statuses : list string)
    (startDate endDate : option string) (pageSize page : Z) : list (string * string) :=
  [("game_slug", "disney-lorcana"); ("store_id", string_of_Z storeId);
   ("page", string_of_Z page); ("page_size", string_of_Z pageSize)]%string
  ++ map (fun status => ("display_statuses"%string, status)) statuses
  ++ (if truthy startDate
      then [("start_date_after", orDefault startDate EmptyString ++ "T00:00:00Z")]%string
      else [])
  ++ (if truthy endDate
      then [("start_date_before", orDefault endDate EmptyString ++ "T23:59:59Z")]%string
      else []).

(** [storeLabel || data.results[0]?.store?.name || `Store ${storeId}`] *)
Definition storeLocation (storeId : Z) (storeLabel : option string)
    (results : list Event.t) : string :=
  if truthy storeLabel then orDefault storeLabel EmptyString
  else let first := match results with
                    | e :: _ => Event.store_name e
                    | [] => None
                    end in
       if truthy first then orDefault first EmptyString
       else ("Store " ++ string_of_Z storeId)%string.

Section Search.
(** The answer of the events endpoint to a query. *)
Variable getEvents : list (string * string) -> reply EventsApiResponse.t.

(** [searchEventsByStore] *)
Definition searchEventsByStore (now0 now1 now2 : Z) (params : SearchStoreParams.t)
    (cache : @TtlCache.store EventSearchResult.t)
    : @TtlCache.store EventSearchResult.t * list (list (string * string))
      * outcome found :=
  let storeId := SearchStoreParams.storeId params in
  let storeLabel := SearchStoreParams.storeLabel params in
  let statuses := orDefault (SearchStoreParams.statuses params)
                            ["upcoming"; "inProgress"]%string in
  let startDate := SearchStoreParams.startDate params in
  let endDate := SearchStoreParams.endDate params in
  let pageSize := orDefault (SearchStoreParams.pageSize params) 25 in
  let page := orDefault (SearchStoreParams.page params) 1 in
  let cacheKey :=
    storeCacheKey storeId storeLabel statuses startDate endDate pageSize page in
  match TtlCache.get CACHE_MAX_SIZE now0 cacheKey cache with
  | (cache1, Some cached) => (cache1, [], Value (ResultReply cached))
  | (cache1, None) =>
      let query := storeQuery storeId statuses startDate endDate pageSize page in
      match getEvents query with
      | Unreachable => (cache1, [query], Thrown Opaque)
      | Responds ok status _ _ json =>
          if negb ok
          then (cache1, [query],
                Value (ErrorReply ("API error: " ++ string_of_Z status)%string))
          else match json with
               | None => (cache1, [query], Thrown Opaque)
               | Some data =>
                   let result :=
                     EventSearchResult.Make
                       (EventsApiResponse.results data)
                       (storeLocation storeId storeLabel (EventsApiResponse.results data))
                       (EventsApiResponse.count data)
                       (EventsApiResponse.current_page_number data)
                       (EventsApiResponse.next_page_number data)
                       (EventsApiResponse.page_size data) in
                   (TtlCache.set CACHE_MAX_SIZE now1 now2 cacheKey result
                                 SEARCH_CACHE_TTL_MS cache1,
                    [query], Value (ResultReply result))
               end
      end
  end.

End Search.

End Search.

(** * Vocabulary of the properties *)

(** ** The cache *)

Module TtlCacheSpec.

(** No entry of the store has expired at the clock reading [now]. *)
Definition all_live {T : Type} (now : Z) (s : @TtlCache.store T) : Prop :=
  Forall (fun ke => now <= TtlCache.expiresAt (snd ke)) s.

End TtlCacheSpec.

(** ** The runner *)

Module RunnerSpec.
Import Runner.

Section Invariant.
Context {T R : Type}.
Variable fn : T -> call R.
Variable items : list T.

(** The invariant of a run: every claimed index is either being
    awaited by a worker or already holds its outcome, and a worker
    returns only when all indices are claimed. *)
Record inv (st : @state R) : Prop := Inv {
  inv_results : length (results st) = length items;
  inv_index : (index st <= length items)%nat;
  inv_awaiting : forall w i,
      workers st !! w = Some (Awaiting i) -> (i < index st)%nat;
  inv_claimed : forall j, (j < index st)%nat ->
      (exists w, workers st !! w = Some (Awaiting j)) \/
      results st !! j = Some (outcome fn items j);
  inv_returned : In Returned (workers st) -> index st = length items
}.

(** What is left to do: the indices not yet claimed and the calls
    being awaited. *)
Definition remaining (st : @state R) : nat :=
  (length items - index st) + awaiting_count (workers st).

End Invariant.

(** Ten items; the call on item 5 throws at once and the promise of
    item 7 is rejected. *)
Definition ten_items : list nat := seq 0 10.
Definition fails_on_5_and_7 (x : nat) : call nat :=
  if (x =? 5)%nat then ThrowsNow
  else if (x =? 7)%nat then Rejects
  else Fulfils (10 * x)%nat.

End RunnerSpec.

(** ** The resolver *)

Module StandingsSpec.
Import Js Standings.

Definition authoritative : list string := ["completed"; "final"; "published"; "closed"]%string.
Definition provisional : list string := ["pending"; "in_progress"; "in progress"]%string.

(** The three-level key: priority ascending, then phase index
    descending, then round number descending. *)
Definition round_le (a b : RoundRef) : Prop :=
  let pa := roundStandingsPriority (standings_status a) in
  let pb := roundStandingsPriority (standings_status b) in
  pa < pb \/
  (pa = pb /\
   (phase_index b < phase_index a \/
    (phase_index a = phase_index b /\ round_number b <= round_number a))).

(** The call that the walk makes for a round. *)
Definition call_of (pageSize : Z) (isPast : bool) (r : RoundRef) : FetchCall :=
  MkFetchCall (id r) 1 pageSize isPast.

(** The fetch of page 1 of a round throws or yields no result. *)
Definition no_data (fetch : FetchCall -> option (list StandingEntry.t))
    (pageSize : Z) (isPast : bool) (r : RoundRef) : Prop :=
  fetch (call_of pageSize isPast r) = None \/
  fetch (call_of pageSize isPast r) = Some [].

Definition sample_entry : StandingEntry.t :=
  StandingEntry.Make (Some 1) None (Some (Player.Make (Some "Ann B"%string) (Some 7)))
                     None None None None None (Some "3-0"%string) None None.

Definition sample_event : Event.t :=
  Event.Make 42 "Store Championship"%string "2025-01-18T17:00:00Z"%string (Some "past"%string) None None
    (Some [ Phase.Make (Some [ Round.Make 101 1 (Some "completed"%string);
                               Round.Make 102 2 (Some "COMPLETED"%string);
                               Round.Make 103 3 (Some "pending"%string) ]);
            Phase.Make (Some [ Round.Make 201 1 (Some "final"%string);
                               Round.Make 202 2 None ]) ]).

Definition sample_details (eventId : Z) : option Event.t :=
  if eventId =? 42 then Some sample_event else None.

(** Round 201 throws, round 102 is empty, round 101 has standings. *)
Definition sample_fetch (c : FetchCall) : option (list StandingEntry.t) :=
  if call_roundId c =? 201 then None
  else if call_roundId c =? 101 then Some [sample_entry]
  else Some [].

End StandingsSpec.

(** ** The aggregation *)

Module AggregateSpec.
Import Js Aggregate.

(** The placement, wins and losses that the entry at position [i] adds
    to its player's record. *)
Definition contribution (i : nat) (entry : StandingEntry.t) : Z * Z * Z :=
  (standingPlacement entry i, fst (standingWinsLosses entry),
   snd (standingWinsLosses entry)).

Fixpoint contribs_from (k : string) (i : nat) (standings : list StandingEntry.t)
    : list (Z * Z * Z) :=
  match standings with
  | [] => []
  | entry :: rest =>
      (if String.eqb (standingPlayerKey entry) k then [contribution i entry] else [])
        ++ contribs_from k (S i) rest
  end.

Definition all_contribs (k : string) (evs : list EventStandings) : list (Z * Z * Z) :=
  flat_map (fun es => contribs_from k 0 (snd es)) evs.





Definition sumZ (l : list Z) : Z := fold_right Z.add 0 l.

Definition c_placement (c : Z * Z * Z) : Z := fst (fst c).
Definition c_wins (c : Z * Z * Z) : Z := snd (fst c).
Definition c_losses (c : Z * Z * Z) : Z := snd c.

(** The record of a key is the running total of its contributions. *)
Definition tracks (o : option AggRec.t) (cs : list (Z * Z * Z)) : Prop :=
  match o with
  | None => cs = []
  | Some r =>
      cs <> [] /\
      AggRec.wins r = sumZ (map c_wins cs) /\
      AggRec.losses r = sumZ (map c_losses cs) /\
      AggRec.eventsPlayed r = Z.of_nat (length cs) /\
      AggRec.placements r = map c_placement cs
  end.

Definition stats (r : AggRec.t) : Z * Z * Z * Z * Z :=
  (AggRec.wins r, AggRec.losses r, AggRec.eventsPlayed r,
   Math_min (AggRec.placements r), count_first (AggRec.placements r)).




(** The statistics of a player, without the display name and without
    the order of the placements. *)
Definition row (p : PlayerStats.t) : Z * Z * Z * Z * Z :=
  (PlayerStats.totalWins p, PlayerStats.totalLosses p, PlayerStats.eventsPlayed p,
   PlayerStats.bestPlacement p, PlayerStats.firstPlaceFinishes p).

(** The fields that the comparator of [sortBy] reads. *)
Definition sort_key (sortBy : LeaderboardSortBy) (p : PlayerStats.t) : Z * Z * Z * Z :=
  (match sortBy with events_played => PlayerStats.eventsPlayed p | _ => 0 end,
   PlayerStats.totalWins p, PlayerStats.totalLosses p, PlayerStats.bestPlacement p).

Definition key_of_row (sortBy : LeaderboardSortBy) (r : Z * Z * Z * Z * Z) : Z * Z * Z * Z :=
  let '(w, l, e, b, _) := r in
  (match sortBy with events_played => e | _ => 0 end, w, l, b).





Definition no_digit (s : string) : Prop :=
  forall c, In c (list_ascii_of_string s) -> digit c = None.

(** Every character of [s] is a decimal digit. *)
Definition all_digits (s : string) : Prop :=
  forall c, In c (list_ascii_of_string s) -> exists v, digit c = Some v.

(** No character of [s] is white space. *)
Definition no_space (s : string) : Prop :=
  forall c, In c (list_ascii_of_string s) -> isWhiteSpace c = false.

(** Entries of the examples: a player known by [name] alone, with a
    rank and a record. *)
Definition named_entry (name : string) (rk : Z) (rec : string) : StandingEntry.t :=
  StandingEntry.Make (Some rk) None (Some (Player.Make (Some name) None))
                     None None None None None (Some rec) None None.

(** An entry of player number [n] whose per-event status carries the
    handle [handle]. *)
Definition handle_entry (n : Z) (handle : string) : StandingEntry.t :=
  StandingEntry.Make (Some 1) None (Some (Player.Make None (Some n)))
                     None None None None None (Some "1-0"%string) None
                     (Some (UserEventStatus.Make (Just handle))).


Definition plain_event (n : Z) : Event.t :=
  Event.Make n "Weekly"%string "2025-01-04T18:00:00Z"%string None None None None.

Definition week1 : EventStandings :=
  (plain_event 1, [named_entry "ann" 1 "3-0"; named_entry "bob" 2 "2-1"]).

Definition unranked (name : string) : StandingEntry.t :=
  StandingEntry.Make None None (Some (Player.Make (Some name) None))
                     None None None None None (Some "2-1"%string) None None.

End AggregateSpec.

(** ** The entry points *)

Module LeaderboardSpec.
Import Js Aggregate Leaderboard.

(** The radius that the city variant searches with. *)
Definition cityRadius (params : CityParams.t) : Z :=
  Z.min MAX_LEADERBOARD_RADIUS_MILES
        (Z.max 0 (orElse (CityParams.radiusMiles params) 50)).

(** Upstream stand-ins for the examples. *)
Definition detroit : Geo.t :=
  Geo.Make (QArith_base.Qmake 423314 10000) (QArith_base.Qmake (-830458) 10000)
           "Detroit, Wayne County, Michigan, United States".

Definition geocode_detroit (city : string) : result (option Geo.t) :=
  Returns (Some detroit).

Definition no_events_by_coords (q : CoordsQuery.t) : result SearchReply :=
  Returns (SearchOk [] 0).

Definition no_events_by_store (q : StoreQuery.t) : result SearchReply :=
  Returns (SearchOk [] 0).

Definition no_standings (eventIds : list Z) : list EventStandings := [].

Definition january_in_detroit : CityParams.t :=
  CityParams.Make "Detroit, MI" "2025-01-01" "2025-01-31" None (Some 5) (Some 1) None
                  (Some total_wins).

Definition january_at_store : StoreParams.t :=
  StoreParams.Make 4622 None "2025-01-01" "2025-01-31" (Some 5) (Some 1) None
                   (Some total_wins).

Definition inverted_range : CityParams.t :=
  CityParams.Make "Detroit, MI" "2026-02-01" "2026-01-01" None None None None None.

End LeaderboardSpec.

(** ** The filter maps *)

Module FilterMapsSpec.
Import JsMore FilterMaps.

(** The id that the map [m] holds for [name], when it is usable. *)
Definition idOf (m : list (string * string)) (name : string) : option string :=
  match JsMap.get name m with
  | Some (String c s) => Some (String c s)
  | _ => None
  end.

(** The ids of the names that [m] knows, and the names it does not. *)
Definition knownIds (m : list (string * string)) (names : list string) : list string :=
  flat_map (fun n => match idOf m n with Some i => [i] | None => [] end) names.

Definition unknownNames (m : list (string * string)) (names : list string)
    : list string :=
  List.filter (fun n => match idOf m n with Some _ => false | None => true end) names.

(** The last pair of [pairs] whose first component is [key]. *)
Definition lastOf (key : string) (pairs : list (string * string)) : option string :=
  option_map snd (find (fun kv => String.eqb (fst kv) key) (rev pairs)).

Definition constructed : Named := MkNamed "f-1" "Core Constructed".
Definition sealed : Named := MkNamed "f-2" "Sealed".
Definition league : Named := MkNamed "c-7" "League".
Definition championship : Named := MkNamed "c-9" "Store Championship".

End FilterMapsSpec.

(** ** Pages of standings *)

Module PaginationSpec.
Import JsMore Pagination.

(** The number of pages that [paginateStandings] reports. *)
Definition totalPages (standings : list StandingEntry.t) (pageSize : Z) : Z :=
  Z.max 1 (Math_ceil_div (Z.of_nat (length standings)) (Z.max 1 pageSize)).

(** An entry that carries only a rank. *)
Definition ranked (n : Z) : StandingEntry.t :=
  StandingEntry.Make (Some n) None None None None None None None None None None.

Definition seven : list StandingEntry.t := map ranked [1; 2; 3; 4; 5; 6; 7].

End PaginationSpec.

(** ** Fetch with retries *)

Module RetrySpec.
Import Retry.

(** The trace of [k] failed attempts followed by a sleep each, and of a
    last attempt [k]. *)
Definition backoff (retryDelayMs : Z) (k : nat) : list event :=
  flat_map (fun i => [Fetch (Z.of_nat i); Sleep (retryDelayMs * 2 ^ Z.of_nat i)])
           (seq 0 k)
  ++ [Fetch (Z.of_nat k)].

(** The attempt made with the counter at [attempt] fails in a way that
    the function retries. *)
Definition transient (fetch : Z -> Response + Err) (attempt : Z) : Prop :=
  match fetch attempt with
  | inl res => ok res = false /\ In (status res) RETRYABLE_STATUS
  | inr err => isRetryableError err = true
  end.

(** The attempt ends the function whatever the retries left. *)
Definition final (fetch : Z -> Response + Err) (attempt : Z) : Prop :=
  ~ transient fetch attempt.

(** What the promise does when the function stops at [attempt]. *)
Definition settles (fetch : Z -> Response + Err) (attempt : Z) : outcome :=
  match fetch attempt with
  | inl res => Resolved res
  | inr err => Rejected (Some err)
  end.

(** The time slept in a trace. *)
Definition slept (trace : list event) : Z :=
  fold_right (fun e acc => match e with Sleep ms => ms + acc | Fetch _ => acc end)
             0 trace.

Definition requests (trace : list event) : nat :=
  length (List.filter (fun e => match e with Fetch _ => true | Sleep _ => false end)
                      trace).

(** A network that answers 503 twice and then 200. *)
Definition flaky (attempt : Z) : Response + Err :=
  if attempt <? 2 then inl (MkResponse false 503) else inl (MkResponse true 200).

(** A network that always times out. *)
Definition aborted : Err := MkErr false true (Some "AbortError"%string) None.
Definition dead (attempt : Z) : Response + Err := inr aborted.

End RetrySpec.

(** ** The cached fetchers *)

Module FetchersSpec.
Import Js JsMore Http Standings Pagination Fetchers.

(** The cache holds nothing under [key]. *)
Definition absent {T} (key : string) (cache : @TtlCache.store T) : Prop :=
  JsMap.get key cache = None.

(** The page that a paginated server gives for a call, when the
    standings of the round are [full]. *)
Definition serves (full : list StandingEntry.t) (call : FetchCall)
    : option StandingsResponse.t :=
  Some (paginateStandings full (call_page call) (call_pageSize call)).

(** The calls for the pages 1 to [k] of a round. *)
Definition pageCalls (roundId : Z) (isPastEvent : bool) (k : nat) : list FetchCall :=
  map (fun p => MkFetchCall roundId (Z.of_nat p) STANDINGS_PAGE_SIZE isPastEvent)
      (seq 1 k).

(** The response tells [fetchAllRoundStandings] to go on: it names a
    next page and holds a full page of results. *)
Definition hasMore (response : StandingsResponse.t) : bool :=
  match StandingsResponse.next_page_number response with
  | Some _ => true
  | None => false
  end
  && (Z.of_nat (length (StandingsResponse.results response)) =? STANDINGS_PAGE_SIZE).

(** What the calls [calls] gave: the responses [responses], and then
    an exception when [threw] is set. *)
Definition answered (fetch : FetchCall -> option StandingsResponse.t)
    (calls : list FetchCall) (responses : list StandingsResponse.t) (threw : bool)
    : Prop :=
  map fetch calls = map Some responses ++ (if threw then [None] else []).

(** Upstream stand-ins for the examples. *)
Definition weekly : Event.t :=
  Event.Make 42 "Weekly"%string "2025-01-18T17:00:00Z"%string (Some "Past"%string)
             None None None.

Definition serveWeekly (eventId : Z) : reply Event.t :=
  Responds true 200 "OK" EmptyString (Some weekly).

Definition down (eventId : Z) : reply Event.t :=
  Responds false 503 "Service Unavailable" "try later" None.

Definition emptyPage : StandingsResponse.t :=
  StandingsResponse.Make 0 (Some 0) 25 1 None None [].

Definition emptyPages (roundId page pageSize : Z) : reply StandingsResponse.t :=
  Responds true 200 "OK" EmptyString (Some emptyPage).

Definition twoEntries : list StandingEntry.t :=
  [PaginationSpec.ranked 1; PaginationSpec.ranked 2].

Definition fullStandings (roundId : Z) : reply (option (list StandingEntry.t)) :=
  Responds true 200 "OK" EmptyString (Some (Some twoEntries)).

Definition noStandings (roundId : Z) : reply (option (list StandingEntry.t)) :=
  Unreachable.

(** 250 entries ranked 1 to 250. *)
Definition field250 : list StandingEntry.t :=
  map (fun n => PaginationSpec.ranked (Z.of_nat n)) (seq 1 250).

End FetchersSpec.

(** ** Standings of many events *)

Module BatchSpec.
Import Js.

(** The standings found for the events, in the order of the ids. *)
Definition foundInOrder (getEventStandings : Z -> Z -> result (option EventStandings))
    (eventIds : list Z) : list EventStandings :=
  flat_map (fun eventId =>
              match getEventStandings eventId 100 with
              | Returns (Some found) => [found]
              | _ => []
              end)
           eventIds.

(** Event 1 has standings, event 2 has none, event 3 fails. *)
Definition threeEvents (eventId pageSize : Z) : result (option EventStandings) :=
  if eventId =? 1 then Returns (Some AggregateSpec.week1)
  else if eventId =? 2 then Returns None
  else Throws.

End BatchSpec.

(** ** More on the aggregation *)

Module AggregateMoreSpec.
Import Js Aggregate AggregateSpec.

(** The entries that the aggregation attributes to a player, in input
    order. *)
Definition attributed (evs : list EventStandings) : list StandingEntry.t :=
  flat_map (fun es =>
              List.filter (fun e => negb (String.eqb (standingPlayerKey e) UNKNOWN))
                          (snd es))
           evs.

Definition winsOf (entry : StandingEntry.t) : Z := fst (standingWinsLosses entry).
Definition lossesOf (entry : StandingEntry.t) : Z := snd (standingWinsLosses entry).

(** The totals of a map of records. *)
Definition totals (agg : list (string * AggRec.t)) : Z * Z * Z :=
  (sumZ (map (fun kr => AggRec.wins (snd kr)) agg),
   sumZ (map (fun kr => AggRec.losses (snd kr)) agg),
   sumZ (map (fun kr => AggRec.eventsPlayed (snd kr)) agg)).

(** A weighted sum of the three counters of a record, and its total
    over a map of records. *)
Definition measure (a b c : Z) (r : AggRec.t) : Z :=
  a * AggRec.wins r + b * AggRec.losses r + c * AggRec.eventsPlayed r.

Definition measured (a b c : Z) (agg : list (string * AggRec.t)) : Z :=
  sumZ (map (fun kr => measure a b c (snd kr)) agg).

(** The totals of a list of entries. *)
Definition entryTotals (entries : list StandingEntry.t) : Z * Z * Z :=
  (sumZ (map winsOf entries), sumZ (map lossesOf entries), Z.of_nat (length entries)).

(** The totals of the rows of a leaderboard. *)
Definition rowTotals (players : list PlayerStats.t) : Z * Z * Z :=
  (sumZ (map PlayerStats.totalWins players),
   sumZ (map PlayerStats.totalLosses players),
   sumZ (map PlayerStats.eventsPlayed players)).

(** An entry of player number [n] with numeric wins and losses. *)
Definition scored (n w l : Z) : StandingEntry.t :=
  StandingEntry.Make None None (Some (Player.Make None (Some n)))
                     None None None (Some w) (Some l) None None None.

(** An entry that names nobody. *)
Definition anonymous : StandingEntry.t :=
  StandingEntry.Make (Some 3) None None None None None (Some 9) (Some 9) None None None.

Definition night1 : EventStandings :=
  (plain_event 1, [scored 7 3 0; scored 8 2 1; anonymous]).
Definition night2 : EventStandings :=
  (plain_event 2, [scored 8 3 0; scored 7 1 2]).

End AggregateMoreSpec.

(** ** More on the entry points *)

Module LeaderboardMoreSpec.
Import Js Aggregate Leaderboard LeaderboardSpec.

(** The searches among the upstream calls. *)
Definition coordsQueries (calls : list Call) : list CoordsQuery.t :=
  flat_map (fun c => match c with CallSearchCoords q => [q] | _ => [] end) calls.

Definition storeQueries (calls : list Call) : list StoreQuery.t :=
  flat_map (fun c => match c with CallSearchStore q => [q] | _ => [] end) calls.

(** The pages 1 to [k]. *)
Definition firstPages (k : nat) : list Z := map Z.of_nat (seq 1 k).

(** No search reports more than [bound] events in total. *)
Definition totalsBelow {Q} (search : Q -> result SearchReply) (bound : Z) : Prop :=
  forall q events total, search q = Returns (SearchOk events total) -> total <= bound.

(** [k] searches were needed for at most [bound] events. *)
Definition searchesFor (k : nat) (bound : Z) : Prop :=
  (k <= 1)%nat \/ 100 * (Z.of_nat k - 1) < bound.

(** The limit and the least number of events that the entry points
    pass to the aggregation. *)
Definition limitCap (limit : option Z) : Z :=
  Z.min MAX_LEADERBOARD_LIMIT (Z.max 1 (orElse limit 20)).

Definition minEventsCap (minEvents : option Z) : Z := Z.max 1 (orElse minEvents 1).

(** A search that finds one event, and standings for it. *)
Definition one_event : Event.t :=
  Event.Make 1 "Weekly"%string "2025-01-04T18:00:00Z"%string None None
             (Some "Dice Tower"%string) None.

Definition one_event_by_coords (q : CoordsQuery.t) : result SearchReply :=
  Returns (SearchOk [one_event] 1).

Definition one_event_by_store (q : StoreQuery.t) : result SearchReply :=
  Returns (SearchOk [one_event] 1).

Definition week1_standings (eventIds : list Z) : list EventStandings :=
  [AggregateSpec.week1].

End LeaderboardMoreSpec.

(** ** Geocoding and searching *)

Module SearchSpec.
Import Js JsMore Http Geocode Search.

(** The parameters that [getPlayerLeaderboardByStore] gives to
    [searchEventsByStore] for a query. *)
Definition paramsOf (q : StoreQuery.t) : SearchStoreParams.t :=
  SearchStoreParams.Make (StoreQuery.storeId q) (StoreQuery.storeLabel q)
                         (Some (StoreQuery.statuses q))
                         (Some (StoreQuery.startDate q)) (Some (StoreQuery.endDate q))
                         (Some (StoreQuery.pageSize q)) (Some (StoreQuery.page q)).

(** What the leaderboard reads of a search that finds nothing in its
    cache. *)
Definition searchOnMiss (getEvents : list (string * string) -> reply EventsApiResponse.t)
    (q : StoreQuery.t) : result Leaderboard.SearchReply :=
  match snd (searchEventsByStore getEvents 0 0 0 (paramsOf q) []) with
  | Thrown _ => Throws
  | Value (ErrorReply error) => Returns (Leaderboard.SearchError error)
  | Value (ResultReply result) =>
      Returns (Leaderboard.SearchOk (EventSearchResult.events result)
                                    (EventSearchResult.total result))
  end.

(** The upstream reports in [count] the number of events of the page. *)
Definition countsThePage (getEvents : list (string * string) -> reply EventsApiResponse.t)
    : Prop :=
  forall query ok status statusText text data,
    getEvents query = Responds ok status statusText text (Some data) ->
    EventsApiResponse.count data = Z.of_nat (length (EventsApiResponse.results data)).

(** The key under which a search of a store is cached. *)
Definition keyOf (params : SearchStoreParams.t) : string :=
  storeCacheKey (SearchStoreParams.storeId params) (SearchStoreParams.storeLabel params)
                (orDefault (SearchStoreParams.statuses params)
                           ["upcoming"; "inProgress"]%string)
                (SearchStoreParams.startDate params) (SearchStoreParams.endDate params)
                (orDefault (SearchStoreParams.pageSize params) 25)
                (orDefault (SearchStoreParams.page params) 1).

(** Stand-ins for the examples. *)
Definition lowerAscii : string -> string := Js.toLowerCase.

Definition nominatim (city : string) : reply (list NominatimResult) :=
  Responds true 200 "OK" EmptyString
           (Some [MkNominatim "42.3314" "-83.0458" "Detroit, Michigan"]).

Definition nowhere (city : string) : reply (list NominatimResult) :=
  Responds true 200 "OK" EmptyString (Some []).

Definition hundred : list Event.t :=
  map (fun n => Event.Make (Z.of_nat n) "Weekly" "2025-01-04T18:00:00Z" None None None None)
      (seq 1 100).

(** An upstream with 250 events that reports the size of the page. *)
Definition pageCounting (query : list (string * string)) : reply EventsApiResponse.t :=
  Responds true 200 "OK" EmptyString
           (Some (EventsApiResponse.Make 100 250 100 1 (Some 2) hundred)).

Definition unavailable (query : list (string * string)) : reply EventsApiResponse.t :=
  Responds false 503 "Service Unavailable" EmptyString None.

Definition store4622 : SearchStoreParams.t :=
  SearchStoreParams.Make 4622 None None (Some "2025-01-01"%string) None None None.

End SearchSpec.

(** * Properties *)

(** ** The cache *)

(** Case analysis on the integer comparisons of a goal. *)
Ltac zcases :=
  repeat match goal with
  | H : context [(?a >? ?b)] |- _ => rewrite (Z.gtb_ltb a b) in H
  | H : context [(?a >=? ?b)] |- _ => rewrite (Z.geb_leb a b) in H
  | |- context [(?a >? ?b)] => rewrite (Z.gtb_ltb a b)
  | |- context [(?a >=? ?b)] => rewrite (Z.geb_leb a b)
  | H : context [(?a <=? ?b)] |- _ => destruct (Z.leb_spec a b)
  | H : context [(?a <? ?b)] |- _ => destruct (Z.ltb_spec a b)
  | |- context [(?a <=? ?b)] => destruct (Z.leb_spec a b)
  | |- context [(?a <? ?b)] => destruct (Z.ltb_spec a b)
  end.

Lemma gtb_true a b : b < a -> (a >? b) = true.
Proof. intros H. rewrite Z.gtb_ltb. now apply Z.ltb_lt. Qed.

Lemma gtb_false a b : a <= b -> (a >? b) = false.
Proof. intros H. rewrite Z.gtb_ltb. now apply Z.ltb_ge. Qed.

(** ** Association lists as maps *)

Module JsMapFacts.

Section Facts.
Context {V : Type}.
Implicit Types (s : list (string * V)) (e : V) (key : string).

Lemma store_get_set_eq key e s : JsMap.get key (JsMap.set key e s) = Some e.
Proof.
  induction s as [|[k e0] s IH]; simpl.
  - now rewrite String.eqb_refl.
  - destruct (String.eqb k key) eqn:E; simpl; now rewrite E.
Qed.

Lemma store_get_filter_None key (f : string * V -> bool) s :
  JsMap.get key s = None -> JsMap.get key (List.filter f s) = None.
Proof.
  induction s as [|[k e0] s IH]; simpl; [easy|].
  destruct (String.eqb k key) eqn:E; [easy|]. intros H.
  destruct (f (k, e0)); simpl; [rewrite E|]; auto.
Qed.

Lemma store_get_delete_eq key s : JsMap.get key (JsMap.delete key s) = None.
Proof.
  unfold JsMap.delete.
  induction s as [|[k e0] s IH]; simpl; [easy|].
  destruct (String.eqb k key) eqn:E; simpl; [|rewrite E]; auto.
Qed.

Lemma store_set_new key e s :
  JsMap.get key s = None -> JsMap.set key e s = s ++ [(key, e)].
Proof.
  induction s as [|[k e0] s IH]; simpl; [easy|].
  destruct (String.eqb k key); [easy|]. intros H. now rewrite IH.
Qed.

Lemma store_delete_absent key s :
  JsMap.get key s = None -> JsMap.delete key s = s.
Proof.
  unfold JsMap.delete.
  induction s as [|[k e0] s IH]; simpl; [easy|].
  destruct (String.eqb k key) eqn:E; [easy|]. intros H. simpl. now rewrite IH.
Qed.

Lemma length_filter_le (f : string * V -> bool) s :
  (length (List.filter f s) <= length s)%nat.
Proof. induction s as [|a s IH]; simpl; [lia|]. destruct (f a); simpl; lia. Qed.

Lemma length_store_delete_lt key s :
  JsMap.get key s <> None -> (length (JsMap.delete key s) < length s)%nat.
Proof.
  unfold JsMap.delete.
  induction s as [|[k e0] s IH]; simpl; [easy|].
  destruct (String.eqb k key) eqn:E; simpl; intros H.
  - pose proof (length_filter_le (fun ke => negb (String.eqb (fst ke) key)) s). lia.
  - apply IH in H. lia.
Qed.

Lemma store_get_None_iff key s : JsMap.get key s = None <-> ~ In key (JsMap.keys s).
Proof.
  induction s as [|[k e0] s IH]; simpl; [tauto|].
  destruct (String.eqb_spec k key); [|tauto].
  split; [discriminate|]. intros H. exfalso. apply H. now left.
Qed.

Lemma keys_filter_NoDup (f : string * V -> bool) s :
  NoDup (JsMap.keys s) -> NoDup (JsMap.keys (List.filter f s)).
Proof.
  induction s as [|[k e0] s IH]; simpl; [easy|].
  intros H. apply NoDup_cons_iff in H as [Hk Hs].
  destruct (f (k, e0)); simpl; [|auto].
  apply NoDup_cons_iff. split; [|auto]. intros Hin. apply Hk.
  unfold JsMap.keys in *. apply in_map_iff in Hin as [[k' e'] [Heq Hin]].
  apply filter_In in Hin as [Hin _]. apply in_map_iff. now exists (k', e').
Qed.

Lemma keys_store_set_present key e s :
  JsMap.get key s <> None -> JsMap.keys (JsMap.set key e s) = JsMap.keys s.
Proof.
  induction s as [|[k e0] s IH]; simpl; [easy|].
  destruct (String.eqb k key); simpl; [easy|]. intros H. now rewrite IH.
Qed.

Lemma store_set_NoDup key e s : NoDup (JsMap.keys s) -> NoDup (JsMap.keys (JsMap.set key e s)).
Proof.
  intros H. destruct (JsMap.get key s) eqn:Hget.
  - rewrite keys_store_set_present; [easy|congruence].
  - rewrite store_set_new by easy. unfold JsMap.keys. rewrite map_app. simpl.
    apply NoDup_app; [easy|repeat constructor; simpl; tauto|].
    intros k Hin [Heq|[]]. subst. now apply store_get_None_iff in Hget.
Qed.

Lemma store_delete_head k e s :
  NoDup (JsMap.keys ((k, e) :: s)) -> JsMap.delete k ((k, e) :: s) = s.
Proof.
  intros H. apply NoDup_cons_iff in H as [Hk _].
  unfold JsMap.delete. simpl. rewrite String.eqb_refl. simpl.
  apply store_delete_absent. now apply store_get_None_iff.
Qed.

Lemma get_set key k e s :
  JsMap.get k (JsMap.set key e s) = if String.eqb key k then Some e else JsMap.get k s.
Proof.
  induction s as [|[k0 e0] s IH]; simpl.
  - reflexivity.
  - destruct (String.eqb_spec k0 key) as [->|Hne]; simpl.
    + now destruct (String.eqb key k).
    + destruct (String.eqb_spec k0 k) as [->|Hne'].
      * destruct (String.eqb_spec key k); [congruence|easy].
      * apply IH.
Qed.


Lemma In_get key e s : NoDup (JsMap.keys s) -> In (key, e) s -> JsMap.get key s = Some e.
Proof.
  induction s as [|[k0 e0] s IH]; simpl; [easy|].
  intros Hnd [Heq|Hin]; apply NoDup_cons_iff in Hnd as [Hk Hnd].
  - injection Heq as -> ->. now rewrite String.eqb_refl.
  - destruct (String.eqb_spec k0 key) as [->|Hne]; [|auto].
    exfalso. apply Hk. unfold JsMap.keys. apply in_map_iff. now exists (key, e).
Qed.

End Facts.

End JsMapFacts.

Module TtlCacheFacts.
Import TtlCache TtlCacheSpec JsMapFacts.

Section Facts.
Context {T : Type}.
Variable maxSize : Z.
Implicit Types (s : @store T) (e : @entry T) (key : string).

Lemma evictLru_get_None key s :
  JsMap.get key s = None -> JsMap.get key (evictLru maxSize s) = None.
Proof.
  intros H. unfold evictLru.
  destruct (_ || _); [easy|]. destruct s as [|[k e0] s']; [easy|].
  now apply store_get_filter_None.
Qed.

Lemma evict_loop_get_None key fuel s :
  JsMap.get key s = None -> JsMap.get key (evict_loop maxSize fuel s) = None.
Proof.
  revert s. induction fuel as [|fuel IH]; simpl; intros s H; [easy|].
  destruct (store_size s >=? maxSize); [|easy].
  apply IH. now apply evictLru_get_None.
Qed.

(** The budget [S (length s)] is enough for the eviction loop to reach
    its exit condition [store.size < maxSize]. *)
Lemma evict_loop_exits fuel s :
  0 < maxSize -> (length s < fuel)%nat ->
  store_size (evict_loop maxSize fuel s) < maxSize.
Proof.
  intros Hmax. revert s. induction fuel as [|fuel IH]; simpl; intros s Hlen; [lia|].
  unfold evictLru, store_size in *. zcases; simpl; try lia.
  apply IH. destruct s as [|[k e0] s'].
  - simpl in *. lia.
  - assert (JsMap.get k ((k, e0) :: s') <> None) as Hk
      by (simpl; now rewrite String.eqb_refl).
    apply length_store_delete_lt in Hk. simpl in *. lia.
Qed.

Lemma evict_loop_length_le fuel s :
  (length (evict_loop maxSize fuel s) <= length s)%nat.
Proof.
  revert s. induction fuel as [|fuel IH]; simpl; intros s; [lia|].
  destruct (store_size s >=? maxSize); [|lia].
  etransitivity; [apply IH|]. unfold evictLru.
  destruct (_ || _); [lia|]. destruct s as [|[k e0] s']; [lia|].
  apply length_filter_le.
Qed.

(** Size after [set] and [get]. *)
Lemma set_size_bound now1 now2 key v ttlMs s :
  0 < maxSize -> store_size s <= maxSize ->
  store_size (set maxSize now1 now2 key v ttlMs s) <= maxSize.
Proof.
  intros Hmax Hs. unfold set.
  set (s1 := pruneExpired now1 s).
  assert (store_size s1 <= maxSize) as Hs1.
  { pose proof (length_filter_le (fun ke => negb (now1 >? expiresAt (snd ke))) s).
    unfold store_size, s1, pruneExpired in *. lia. }
  rewrite (gtb_true maxSize) by lia.
  unfold JsMap.has. destruct (JsMap.get key s1) eqn:Hget; cbn [negb andb].
  - assert (JsMap.get key s1 <> None) as Hne by congruence.
    apply length_store_delete_lt in Hne.
    rewrite store_set_new by apply store_get_delete_eq.
    unfold store_size in *. rewrite length_app. simpl. lia.
  - pose proof (evict_loop_exits (S (length s1)) s1 Hmax ltac:(lia)) as Hex.
    rewrite store_set_new by now apply evict_loop_get_None.
    unfold store_size in *. rewrite length_app. cbn [length]. lia.
Qed.

Lemma get_size_bound now key s :
  store_size (fst (get maxSize now key s)) <= store_size s.
Proof.
  unfold get. destruct (JsMap.get key s) eqn:Hget; simpl; [|lia].
  assert (JsMap.get key s <> None) as Hne by congruence.
  apply length_store_delete_lt in Hne.
  destruct (now >? expiresAt e); simpl; [unfold store_size; lia|].
  destruct (maxSize >? 0); simpl; [|lia].
  rewrite store_set_new by apply store_get_delete_eq.
  unfold store_size. rewrite length_app. simpl. lia.
Qed.

Lemma run_snoc (ops : list (@op T)) o :
  run maxSize (ops ++ [o]) = run_op maxSize (run maxSize ops) o.
Proof. unfold run. now rewrite fold_left_app. Qed.

Lemma run_size_bound (ops : list (@op T)) :
  0 < maxSize -> store_size (run maxSize ops) <= maxSize.
Proof.
  intros Hmax. induction ops as [|o ops IH] using rev_ind.
  - unfold run, store_size. simpl. lia.
  - rewrite run_snoc. destruct o as [now key|now1 now2 key v ttlMs]; simpl.
    + pose proof (get_size_bound now key (run maxSize ops)). lia.
    + now apply set_size_bound.
Qed.

(** *** Keys stay unique, as in a [Map] *)

Lemma evict_loop_NoDup fuel s :
  NoDup (JsMap.keys s) -> NoDup (JsMap.keys (evict_loop maxSize fuel s)).
Proof.
  revert s. induction fuel as [|fuel IH]; simpl; intros s H; [easy|].
  destruct (store_size s >=? maxSize); [|easy]. apply IH.
  unfold evictLru. destruct (_ || _); [easy|].
  destruct s as [|[k e0] s']; [easy|]. now apply keys_filter_NoDup.
Qed.

Lemma set_NoDup now1 now2 key v ttlMs s :
  NoDup (JsMap.keys s) -> NoDup (JsMap.keys (set maxSize now1 now2 key v ttlMs s)).
Proof.
  intros H. unfold set. apply store_set_NoDup.
  assert (NoDup (JsMap.keys (pruneExpired now1 s))) as H1 by now apply keys_filter_NoDup.
  destruct (_ && negb _); [apply keys_filter_NoDup|];
    (destruct (_ && _); [now apply evict_loop_NoDup|easy]).
Qed.

Lemma get_NoDup now key s :
  NoDup (JsMap.keys s) -> NoDup (JsMap.keys (fst (get maxSize now key s))).
Proof.
  intros H. unfold get. destruct (JsMap.get key s); [|easy].
  destruct (now >? expiresAt e); simpl; [now apply keys_filter_NoDup|].
  destruct (maxSize >? 0); simpl; [|easy].
  apply store_set_NoDup. now apply keys_filter_NoDup.
Qed.

Lemma run_NoDup (ops : list (@op T)) : NoDup (JsMap.keys (run maxSize ops)).
Proof.
  induction ops as [|o ops IH] using rev_ind; [constructor|].
  rewrite run_snoc. destruct o; simpl; [now apply get_NoDup|now apply set_NoDup].
Qed.

(** *** Eviction removes a prefix of the insertion order *)

Lemma evict_loop_drops_oldest fuel s :
  0 < maxSize -> NoDup (JsMap.keys s) -> (length s < fuel)%nat ->
  exists dropped,
    s = dropped ++ evict_loop maxSize fuel s /\
    (dropped = [] \/ store_size (evict_loop maxSize fuel s) = maxSize - 1).
Proof.
  intros Hmax. revert s.
  induction fuel as [|fuel IH]; intros s Hnd Hlen; [lia|]. simpl.
  destruct (store_size s >=? maxSize) eqn:E; [|exists []; auto].
  unfold evictLru, store_size in *. zcases; try lia. simpl.
  destruct s as [|[k e0] s']; [simpl in *; lia|].
  rewrite store_delete_head by easy.
  apply NoDup_cons_iff in Hnd as [_ Hnd]. simpl in Hlen.
  destruct (IH s' Hnd ltac:(lia)) as [d [Heq Hd]].
  exists ((k, e0) :: d). split; [simpl; now rewrite <- Heq|]. right.
  destruct Hd as [->|Hd]; [|easy]. simpl in Heq. rewrite <- Heq.
  pose proof (evict_loop_exits fuel s' Hmax ltac:(lia)) as Hex.
  unfold store_size in Hex. rewrite <- Heq in Hex. simpl in *. lia.
Qed.

Lemma pruneExpired_spec now s k e :
  In (k, e) (pruneExpired now s) <-> In (k, e) s /\ now <= expiresAt e.
Proof.
  unfold pruneExpired. rewrite filter_In. simpl.
  rewrite negb_true_iff, Z.gtb_ltb, Z.ltb_ge. tauto.
Qed.

Lemma set_new_key now1 now2 key v ttlMs s :
  0 < maxSize -> NoDup (JsMap.keys s) ->
  JsMap.has key (pruneExpired now1 s) = false ->
  exists dropped kept,
    pruneExpired now1 s = dropped ++ kept /\
    set maxSize now1 now2 key v ttlMs s = kept ++ [(key, Entry v (now2 + ttlMs))] /\
    store_size kept < maxSize /\
    (dropped = [] \/ store_size kept = maxSize - 1).
Proof.
  intros Hmax Hnd Hnew. unfold set. rewrite Hnew.
  rewrite (gtb_true maxSize) by lia.
  cbn [negb andb].
  set (s1 := pruneExpired now1 s) in *.
  assert (JsMap.get key s1 = None) as Hget
    by (unfold JsMap.has in Hnew; now destruct (JsMap.get key s1)).
  destruct (evict_loop_drops_oldest (S (length s1)) s1 Hmax) as [d [Heq Hd]];
    [now apply keys_filter_NoDup|lia|].
  exists d, (evict_loop maxSize (S (length s1)) s1).
  split; [easy|]. split; [|split; [|easy]].
  - apply store_set_new. now apply evict_loop_get_None.
  - apply evict_loop_exits; [easy|lia].
Qed.

Lemma get_live_refreshes now key e s :
  0 < maxSize -> JsMap.get key s = Some e -> now <= expiresAt e ->
  get maxSize now key s = (JsMap.delete key s ++ [(key, e)], Some (value e)).
Proof.
  intros Hmax Hget Hlive. unfold get. rewrite Hget.
  rewrite (gtb_false now) by lia.
  rewrite (gtb_true maxSize) by lia.
  now rewrite store_set_new by apply store_get_delete_eq.
Qed.

Lemma store_get_set_any now1 now2 key v ttlMs s :
  JsMap.get key (set maxSize now1 now2 key v ttlMs s) = Some (Entry v (now2 + ttlMs)).
Proof. unfold set. apply store_get_set_eq. Qed.

(** *** One [set] on a store without expired entries *)

Lemma pruneExpired_live now s : all_live now s -> pruneExpired now s = s.
Proof.
  unfold pruneExpired. induction 1 as [|[k e0] s' Hle _ IH]; simpl in *; [easy|].
  rewrite gtb_false by easy. simpl. now rewrite IH.
Qed.

Lemma set_new_room now1 now2 key v ttlMs s :
  0 < maxSize -> all_live now1 s -> JsMap.get key s = None ->
  store_size s < maxSize ->
  set maxSize now1 now2 key v ttlMs s = s ++ [(key, Entry v (now2 + ttlMs))].
Proof.
  intros Hmax Hlive Hget Hsize. unfold set, JsMap.has.
  rewrite pruneExpired_live, Hget, (gtb_true maxSize) by easy.
  cbn [negb andb evict_loop]. rewrite Z.geb_leb.
  destruct (Z.leb_spec maxSize (store_size s)); [lia|].
  now apply store_set_new.
Qed.

Lemma set_new_full now1 now2 key v ttlMs x s :
  0 < maxSize -> NoDup (JsMap.keys (x :: s)) -> all_live now1 (x :: s) ->
  JsMap.get key (x :: s) = None -> store_size (x :: s) = maxSize ->
  set maxSize now1 now2 key v ttlMs (x :: s) = s ++ [(key, Entry v (now2 + ttlMs))].
Proof.
  intros Hmax Hnd Hlive Hget Hsize. unfold set, JsMap.has.
  rewrite pruneExpired_live, Hget, (gtb_true maxSize) by easy.
  cbn [negb andb]. cbn [evict_loop length].
  rewrite !Z.geb_leb. unfold evictLru.
  destruct (Z.leb_spec maxSize (store_size (x :: s))); [|lia].
  destruct (Z.leb_spec maxSize 0); [lia|].
  destruct (Z.ltb_spec (store_size (x :: s)) maxSize); [lia|].
  cbn [orb]. destruct x as [k e0]. rewrite store_delete_head by easy.
  assert (JsMap.get key s = None) as Hget'.
  { apply store_get_None_iff. apply store_get_None_iff in Hget.
    simpl in Hget. tauto. }
  assert (store_size s < maxSize) as Hlt
    by (unfold store_size in *; simpl in Hsize; lia).
  destruct (Z.leb_spec maxSize (store_size s)); [lia|].
  now apply store_set_new.
Qed.

End Facts.

End TtlCacheFacts.

Module TtlCacheScenarios.
Import TtlCache TtlCacheSpec JsMapFacts TtlCacheFacts.

Section Scenarios.
Context {T : Type}.
Implicit Types (v : T) (k : string).

Ltac eqb_keys :=
  rewrite ?String.eqb_refl;
  repeat match goal with
  | H : ?a <> ?b |- context [String.eqb ?a ?b] =>
      rewrite (proj2 (String.eqb_neq a b) H)
  | H : ?a <> ?b |- context [String.eqb ?b ?a] =>
      rewrite (proj2 (String.eqb_neq b a) (not_eq_sym H))
  end.

Ltac side :=
  first [ lia
        | progress (unfold store_size; simpl; lia)
        | solve [repeat constructor; simpl; intuition congruence]
        | solve [simpl; eqb_keys; reflexivity] ].

Lemma three_inserts_evict_first k1 k2 k3 v1 v2 v3 ttl1 ttl2 ttl3 a1 b1 a2 b2 a3 b3 :
  k1 <> k2 -> k1 <> k3 -> k2 <> k3 ->
  a2 <= b1 + ttl1 -> a3 <= b1 + ttl1 -> a3 <= b2 + ttl2 ->
  run 2 [OpSet a1 b1 k1 v1 ttl1; OpSet a2 b2 k2 v2 ttl2; OpSet a3 b3 k3 v3 ttl3]
  = [(k2, Entry v2 (b2 + ttl2)); (k3, Entry v3 (b3 + ttl3))].
Proof.
  intros H12 H13 H23 L1 L2 L3. unfold run. cbn [fold_left run_op].
  rewrite (set_new_room 2 a1) by side. cbn [app].
  rewrite (set_new_room 2 a2) by side. cbn [app].
  rewrite (set_new_full 2 a3) by side. reflexivity.
Qed.

Lemma read_key_survives_next_insert k1 k2 k3 v1 v2 v3 ttl1 ttl2 ttl3
    a1 b1 a2 b2 t a3 b3 :
  k1 <> k2 -> k1 <> k3 -> k2 <> k3 ->
  a2 <= b1 + ttl1 -> t <= b1 + ttl1 -> a3 <= b1 + ttl1 -> a3 <= b2 + ttl2 ->
  run 2 [OpSet a1 b1 k1 v1 ttl1; OpSet a2 b2 k2 v2 ttl2; OpGet t k1;
         OpSet a3 b3 k3 v3 ttl3]
  = [(k1, Entry v1 (b1 + ttl1)); (k3, Entry v3 (b3 + ttl3))].
Proof.
  intros H12 H13 H23 L1 L2 L3 L4. unfold run. cbn [fold_left run_op].
  rewrite (set_new_room 2 a1) by side. cbn [app].
  rewrite (set_new_room 2 a2) by side. cbn [app].
  rewrite (get_live_refreshes 2 t k1 (Entry v1 (b1 + ttl1))) by side.
  unfold JsMap.delete. cbn [List.filter fst]. eqb_keys. cbn [negb app fst].
  rewrite (set_new_full 2 a3) by side. reflexivity.
Qed.

End Scenarios.
End TtlCacheScenarios.

Module TtlCacheClaims.
Import TtlCache TtlCacheSpec JsMapFacts TtlCacheFacts TtlCacheScenarios.

(** C7. After [set(k, v, ttlMs)], whose expiry instant is the clock read
    by [set] plus [ttlMs], a [get(k)] at a clock reading not after that
    instant returns [v] and keeps the entry; a [get(k)] at a later
    reading returns absent and removes the entry from the store. *)
Theorem get_after_set {T} (maxSize now1 now2 : Z) (key : string) (v : T)
    (ttlMs : Z) (s : store) (t : Z) :
  let s' := set maxSize now1 now2 key v ttlMs s in
  snd (get maxSize t key s') = (if t >? now2 + ttlMs then None else Some v) /\
  JsMap.has key (fst (get maxSize t key s')) = negb (t >? now2 + ttlMs).
Proof.
  intros s'. unfold get. subst s'. rewrite store_get_set_any. cbn [expiresAt value].
  destruct (t >? now2 + ttlMs); cbn [fst snd negb].
  - split; [easy|]. unfold JsMap.has. now rewrite store_get_delete_eq.
  - unfold JsMap.has. destruct (maxSize >? 0); cbn [fst snd].
    + now rewrite store_get_set_eq.
    + now rewrite store_get_set_any.
Qed.

(** C6. With a positive [maxSize], [set] of a key that is new after the
    sweep first removes exactly the expired entries, then drops entries
    from the old end of the insertion/access order until fewer than
    [maxSize] remain, and appends the key. With [maxSize = 2], three
    inserts of distinct live keys leave the second and third; a [get] of
    a live key moves it to the new end, so the next insert evicts the
    other key. *)
Theorem set_sweeps_then_evicts_oldest {T} :
  (forall (maxSize now1 now2 : Z) (key : string) (v : T) (ttlMs : Z) (s : store),
      0 < maxSize -> NoDup (JsMap.keys s) ->
      JsMap.has key (pruneExpired now1 s) = false ->
      (forall k e, In (k, e) (pruneExpired now1 s) <->
                   In (k, e) s /\ now1 <= expiresAt e) /\
      exists dropped kept,
        pruneExpired now1 s = dropped ++ kept /\
        set maxSize now1 now2 key v ttlMs s
          = kept ++ [(key, Entry v (now2 + ttlMs))] /\
        store_size kept < maxSize /\
        (dropped = [] \/ store_size kept = maxSize - 1)) /\
  (forall k1 k2 k3 (v1 v2 v3 : T) ttl1 ttl2 ttl3 a1 b1 a2 b2 a3 b3,
      k1 <> k2 -> k1 <> k3 -> k2 <> k3 ->
      a2 <= b1 + ttl1 -> a3 <= b1 + ttl1 -> a3 <= b2 + ttl2 ->
      run 2 [OpSet a1 b1 k1 v1 ttl1; OpSet a2 b2 k2 v2 ttl2; OpSet a3 b3 k3 v3 ttl3]
      = [(k2, Entry v2 (b2 + ttl2)); (k3, Entry v3 (b3 + ttl3))]) /\
  (forall (maxSize now : Z) (key : string) (e : @entry T) (s : store),
      0 < maxSize -> JsMap.get key s = Some e -> now <= expiresAt e ->
      get maxSize now key s = (JsMap.delete key s ++ [(key, e)], Some (value e))) /\
  (forall k1 k2 k3 (v1 v2 v3 : T) ttl1 ttl2 ttl3 a1 b1 a2 b2 t a3 b3,
      k1 <> k2 -> k1 <> k3 -> k2 <> k3 ->
      a2 <= b1 + ttl1 -> t <= b1 + ttl1 -> a3 <= b1 + ttl1 -> a3 <= b2 + ttl2 ->
      run 2 [OpSet a1 b1 k1 v1 ttl1; OpSet a2 b2 k2 v2 ttl2; OpGet t k1;
             OpSet a3 b3 k3 v3 ttl3]
      = [(k1, Entry v1 (b1 + ttl1)); (k3, Entry v3 (b3 + ttl3))]).
Proof.
  split; [|split; [|split]].
  - intros maxSize now1 now2 key v ttlMs s Hmax Hnd Hnew. split.
    + intros k e. apply pruneExpired_spec.
    + now apply set_new_key.
  - intros. now apply three_inserts_evict_first.
  - intros. now apply get_live_refreshes.
  - intros. now apply read_key_survives_next_insert.
Qed.

Lemma set_sweeps_then_evicts_oldest_witness :
  (exists dropped kept,
      pruneExpired 10 [("a"%string, Entry 1%nat 5); ("b"%string, Entry 2%nat 100);
                       ("c"%string, Entry 3%nat 100)] = dropped ++ kept /\
      set 2 10 11 "d" 4%nat 50
          [("a"%string, Entry 1%nat 5); ("b"%string, Entry 2%nat 100);
           ("c"%string, Entry 3%nat 100)]
        = kept ++ [("d"%string, Entry 4%nat (11 + 50))] /\
      store_size kept < 2 /\ (dropped = [] \/ store_size kept = 2 - 1)) /\
  run 2 [OpSet 0 0 "a" 1%nat 50; OpSet 1 1 "b" 2%nat 50; OpSet 2 2 "c" 3%nat 50]
    = [("b"%string, Entry 2%nat (1 + 50)); ("c"%string, Entry 3%nat (2 + 50))] /\
  get 2 7 "a" [("a"%string, Entry 1%nat 9); ("b"%string, Entry 2%nat 9)]
    = (JsMap.delete "a" [("a"%string, Entry 1%nat 9); ("b"%string, Entry 2%nat 9)]
         ++ [("a"%string, Entry 1%nat 9)], Some 1%nat) /\
  run 2 [OpSet 0 0 "a" 1%nat 50; OpSet 1 1 "b" 2%nat 50; OpGet 2 "a";
         OpSet 3 3 "c" 3%nat 50]
    = [("a"%string, Entry 1%nat (0 + 50)); ("c"%string, Entry 3%nat (3 + 50))].
Proof.
  destruct (@set_sweeps_then_evicts_oldest nat) as [G [S3 [R RS]]].
  split; [|split; [|split]].
  - apply G; [lia|repeat constructor; simpl; intuition discriminate|reflexivity].
  - apply S3; first [discriminate|lia].
  - apply (R 2 7 "a"%string (Entry 1%nat 9)); [lia|reflexivity|simpl; lia].
  - apply RS; first [discriminate|lia].
Defined.

(** C9. For a cache created with [maxSize > 0], after every sequence
    of [get] and [set] calls the number of stored entries is at most
    [maxSize]. *)
Theorem size_never_exceeds_maxSize {T} (maxSize : Z) (ops : list (@op T)) :
  0 < maxSize -> store_size (run maxSize ops) <= maxSize.
Proof. apply run_size_bound. Qed.

Lemma size_never_exceeds_maxSize_witness :
  0 < 2 /\
  store_size (run 2 [OpSet 0 0 "a" 1%nat 50; OpSet 1 1 "b" 2%nat 50; OpGet 2 "a";
                     OpSet 3 3 "c" 3%nat 50; OpSet 60 60 "d" 4%nat 50]) <= 2.
Proof.
  split; [lia|]. apply (size_never_exceeds_maxSize 2). lia.
Defined.

End TtlCacheClaims.

(** ** The bounded-concurrency runner *)

Module RunnerFacts.
Import Runner RunnerSpec.
Local Open Scope nat_scope.

Lemma awaiting_count_app (ws : list worker) (w : worker) :
  awaiting_count (ws ++ [w])
  = awaiting_count ws + match w with Awaiting _ => 1 | Returned => 0 end.
Proof.
  unfold awaiting_count. rewrite filter_app, length_app. now destruct w.
Qed.

Lemma awaiting_count_insert (ws : list worker) w i wk :
  ws !! w = Some (Awaiting i) ->
  awaiting_count (<[w := wk]> ws)
  = match wk with
    | Awaiting _ => awaiting_count ws
    | Returned => pred (awaiting_count ws)
    end
  /\ 0 < awaiting_count ws.
Proof.
  unfold awaiting_count. revert w.
  induction ws as [|w0 ws IH]; intros [|w] H; simpl in H; try discriminate.
  - injection H as ->. simpl. destruct wk; simpl; split; lia.
  - destruct (IH _ H) as [IH1 IH2]. simpl.
    destruct w0; simpl; destruct wk; simpl in *; split; lia.
Qed.

Lemma returned_or_awaiting (ws : list worker) :
  Forall (fun w => w = Returned) ws \/ exists w i, ws !! w = Some (Awaiting i).
Proof.
  induction ws as [|[i|] ws IH].
  - left. constructor.
  - right. now exists 0, i.
  - destruct IH as [IH|[w [i Hw]]]; [left; now constructor|].
    right. now exists (S w), i.
Qed.

Section Facts.
Context {T R : Type}.
Variable fn : T -> call R.
Variable items : list T.
Variable concurrency : Z.

Local Abbreviation n := (length items).
Local Abbreviation step := (step fn items).
Local Abbreviation init := (init fn items concurrency).
Local Abbreviation outcome := (outcome fn items).
Local Abbreviation inv := (inv fn items).
Local Abbreviation remaining := (@remaining T R items).

(** *** The loop of one worker *)

Lemma scan_spec rest idx res idx' res' w :
  drop idx items = rest -> idx <= n -> length res = n ->
  scan fn rest idx res = (idx', res', w) ->
  length res' = n /\ idx <= idx' <= n /\
  (forall j, j < idx -> res' !! j = res !! j) /\
  (forall j, idx <= j < idx' -> w = Awaiting j \/ res' !! j = Some (outcome j)) /\
  match w with
  | Awaiting i => idx <= i /\ S i = idx'
  | Returned => idx' = n
  end.
Proof.
  revert idx res. induction rest as [|item rest IH]; intros idx res Hdrop Hidx Hlen Hscan.
  - simpl in Hscan. injection Hscan as <- <- <-.
    assert (n <= idx) by (pose proof (length_drop items idx) as Hl;
                          rewrite Hdrop in Hl; simpl in Hl; lia).
    repeat split; try easy; try lia.
  - assert (items !! idx = Some item) as Hitem.
    { rewrite <- (Nat.add_0_r idx), <- lookup_drop, Hdrop. reflexivity. }
    assert (idx < n) as Hlt by (now apply lookup_lt_Some in Hitem).
    assert (drop (S idx) items = rest) as Hdrop'.
    { replace (S idx) with (idx + 1) by lia.
      rewrite <- drop_drop, Hdrop. reflexivity. }
    simpl in Hscan. destruct (fn item) as [|r|] eqn:Ecall.
    + apply IH in Hscan; [|easy|lia|now rewrite length_insert].
      destruct Hscan as [Hl [Hr [Hlow [Hnew Hw]]]].
      split; [easy|]. split; [lia|]. split; [|split].
      * intros j Hj. rewrite Hlow by lia. apply list_lookup_insert_ne. lia.
      * intros j Hj. destruct (decide (j = idx)) as [->|Hne]; [|apply Hnew; lia].
        right. rewrite Hlow by lia. rewrite list_lookup_insert_eq by lia.
        unfold Runner.outcome. now rewrite Hitem, Ecall.
      * destruct w; [|easy]. lia.
    + injection Hscan as <- <- <-. repeat split; try easy; try lia.
      intros j Hj. left. f_equal. lia.
    + injection Hscan as <- <- <-. repeat split; try easy; try lia.
      intros j Hj. left. f_equal. lia.
Qed.

Lemma loop_head_spec idx res idx' res' w :
  idx <= n -> length res = n ->
  loop_head fn items idx res = (idx', res', w) ->
  length res' = n /\ idx <= idx' <= n /\
  (forall j, j < idx -> res' !! j = res !! j) /\
  (forall j, idx <= j < idx' -> w = Awaiting j \/ res' !! j = Some (outcome j)) /\
  match w with
  | Awaiting i => idx <= i /\ S i = idx'
  | Returned => idx' = n
  end.
Proof. intros Hidx Hlen. now apply scan_spec. Qed.

(** *** The invariant *)

Lemma inv_start : inv (State 0 (replicate n None) []).
Proof.
  constructor; cbn [index results workers]; try easy; try lia.
  apply length_replicate.
Qed.

Lemma inv_spawn st : inv st -> inv (spawn fn items st).
Proof.
  intros [Hres Hidx Haw Hcl Hret]. unfold spawn.
  destruct (loop_head fn items (index st) (results st)) as [[idx' res'] wk] eqn:E.
  destruct (loop_head_spec _ _ _ _ _ Hidx Hres E) as [Hl [Hr [Hlow [Hnew Hw]]]].
  constructor; cbn [index results workers]; try easy; try lia.
  - intros w i H. apply lookup_app_Some in H as [H|[_ H]].
    + apply Haw in H. lia.
    + destruct (w - length (workers st)) as [|k]; [|now destruct k].
      simpl in H. injection H as ->. lia.
  - intros j Hj. destruct (Nat.lt_ge_cases j (index st)) as [Hold|Hge].
    + destruct (Hcl j Hold) as [[w Hw']|Hr'].
      * left. exists w. now apply lookup_app_l_Some.
      * right. now rewrite Hlow.
    + destruct (Hnew j ltac:(lia)) as [->|Hr']; [|now right].
      left. exists (length (workers st)). now rewrite lookup_app_r, Nat.sub_diag by lia.
  - intros H. apply in_app_or in H as [H|[->|[]]]; [|easy].
    apply Hret in H. lia.
Qed.

Lemma inv_iter k : inv (Nat.iter k (spawn fn items) (State 0 (replicate n None) [])).
Proof.
  induction k as [|k IH]; [apply inv_start|].
  rewrite Nat.iter_succ. now apply inv_spawn.
Qed.

Lemma inv_init : inv init.
Proof. apply inv_iter. Qed.

Lemma inv_step st st' : inv st -> step st st' -> inv st'.
Proof.
  intros [Hres Hidx Haw Hcl Hret] Hstep.
  destruct Hstep as [st w i Hw]. unfold resume.
  pose proof (Haw w i Hw) as Hi.
  pose proof (lookup_lt_Some _ _ _ Hw) as Hwlt.
  destruct (loop_head fn items (index st) (<[i := outcome i]> (results st)))
    as [[idx' res'] wk] eqn:E.
  assert (length (<[i := outcome i]> (results st)) = n) as Hres1
    by now rewrite length_insert.
  destruct (loop_head_spec _ _ _ _ _ Hidx Hres1 E) as [Hl [Hr [Hlow [Hnew Hwk]]]].
  constructor; cbn [index results workers]; try easy; try lia.
  - intros w' i' H. destruct (decide (w = w')) as [->|Hne].
    + rewrite list_lookup_insert_eq in H by easy. injection H as ->. lia.
    + rewrite list_lookup_insert_ne in H by easy. apply Haw in H. lia.
  - intros j Hj. destruct (Nat.lt_ge_cases j (index st)) as [Hold|Hge].
    + rewrite Hlow by easy. destruct (decide (i = j)) as [->|Hij].
      { right. apply list_lookup_insert_eq. lia. }
      destruct (Hcl j Hold) as [[w' Hw']|Hr'].
      * left. exists w'. rewrite list_lookup_insert_ne; [easy|].
        intros ->. congruence.
      * right. now rewrite list_lookup_insert_ne.
    + destruct (Hnew j ltac:(lia)) as [->|Hr']; [|now right].
      left. exists w. now rewrite list_lookup_insert_eq.
  - intros H. apply list_elem_of_In, list_elem_of_lookup in H as [w' H].
    destruct (decide (w = w')) as [->|Hne].
    + rewrite list_lookup_insert_eq in H by easy. injection H as ->. easy.
    + rewrite list_lookup_insert_ne in H by easy.
      assert (In Returned (workers st)) as Hin
        by (apply list_elem_of_In, list_elem_of_lookup; eauto).
      apply Hret in Hin. lia.
Qed.

Lemma inv_reachable st : rtc step init st -> inv st.
Proof.
  intros H. apply (rtc_ind_r (R:=step) (fun s => inv s) init); [apply inv_init| |exact H].
  intros y z _ Hstep IH. now apply (inv_step y).
Qed.

(** *** The pool of workers *)

Lemma spawn_workers st : length (workers (spawn fn items st)) = S (length (workers st)).
Proof.
  unfold spawn. destruct (loop_head _ _ _ _) as [[idx res] w].
  cbn [workers]. rewrite length_app. simpl. lia.
Qed.

Lemma init_workers : length (workers init) = pool_size items concurrency.
Proof.
  unfold Runner.init. induction (pool_size items concurrency) as [|k IH]; [easy|].
  rewrite Nat.iter_succ, spawn_workers. now rewrite IH.
Qed.

Lemma step_workers st st' : step st st' -> length (workers st') = length (workers st).
Proof.
  intros [s w i Hw]. unfold resume. destruct (loop_head _ _ _ _) as [[idx res] wk].
  cbn [workers]. apply length_insert.
Qed.

Lemma reachable_workers st :
  rtc step init st -> length (workers st) = pool_size items concurrency.
Proof.
  intros H.
  apply (rtc_ind_r (R:=step)
           (fun s => length (workers s) = pool_size items concurrency) init);
    [apply init_workers| |exact H].
  intros y z _ Hstep IH. now rewrite (step_workers y z Hstep).
Qed.

(** *** The results *)

Lemma outcome_lookup j :
  j < n -> map (fun item => stored (fn item)) items !! j = Some (outcome j).
Proof.
  intros Hj. unfold Runner.outcome. rewrite list_lookup_fmap.
  destruct (lookup_lt_is_Some_2 items j Hj) as [x Hx]. now rewrite Hx.
Qed.

(** When every worker has returned, [results] holds the outcome of
    each item at the item's index. *)
Lemma results_when_returned st :
  (1 <= concurrency)%Z -> rtc step init st -> all_returned st ->
  results st = map (fun item => stored (fn item)) items.
Proof.
  intros Hc Hreach Hall.
  pose proof (reachable_workers st Hreach) as Hpool.
  destruct (inv_reachable st Hreach) as [Hres Hidx Haw Hcl Hret].
  assert (index st = n) as Hn.
  { destruct (workers st) as [|w ws] eqn:Ew.
    - unfold pool_size in Hpool. simpl in Hpool. lia.
    - apply Hret. left. unfold all_returned in Hall. rewrite Ew in Hall.
      now inversion Hall. }
  apply list_eq. intros j. destruct (Nat.lt_ge_cases j n) as [Hj|Hj].
  - rewrite outcome_lookup by easy.
    destruct (Hcl j ltac:(lia)) as [[w Hw]|Hr]; [|easy].
    exfalso. unfold all_returned in Hall. rewrite Forall_forall in Hall.
    assert (In (Awaiting j) (workers st)) as Hin
      by (apply list_elem_of_In, list_elem_of_lookup; eauto).
    apply Hall in Hin. discriminate.
  - rewrite !lookup_ge_None_2; [easy| |lia]. rewrite length_map. lia.
Qed.

(** *** Every schedule ends *)

(** A run that has not finished can always go on. *)
Lemma progress st : all_returned st \/ exists st', step st st'.
Proof.
  destruct (returned_or_awaiting (workers st)) as [H|[w [i Hw]]]; [now left|].
  right. exists (resume fn items w i st). now constructor.
Qed.

Lemma spawn_remaining st : inv st -> remaining (spawn fn items st) <= remaining st.
Proof.
  intros [Hres Hidx Haw Hcl Hret]. unfold RunnerSpec.remaining, spawn.
  destruct (loop_head fn items (index st) (results st)) as [[idx' res'] wk] eqn:E.
  destruct (loop_head_spec _ _ _ _ _ Hidx Hres E) as [Hl [Hr [Hlow [Hnew Hw]]]].
  cbn [index workers]. rewrite awaiting_count_app. destruct wk; lia.
Qed.

Lemma init_remaining : remaining init <= n.
Proof.
  unfold Runner.init. induction (pool_size items concurrency) as [|k IH].
  - unfold RunnerSpec.remaining, awaiting_count. simpl. lia.
  - rewrite Nat.iter_succ. etransitivity; [apply spawn_remaining, inv_iter|exact IH].
Qed.

(** Every step completes at least one item. *)
Lemma step_remaining st st' : inv st -> step st st' -> remaining st' < remaining st.
Proof.
  intros [Hres Hidx Haw Hcl Hret] Hstep.
  destruct Hstep as [st w i Hw]. unfold RunnerSpec.remaining, resume.
  destruct (loop_head fn items (index st) (<[i := outcome i]> (results st)))
    as [[idx' res'] wk] eqn:E.
  assert (length (<[i := outcome i]> (results st)) = n) as Hres1
    by now rewrite length_insert.
  destruct (loop_head_spec _ _ _ _ _ Hidx Hres1 E) as [Hl [Hr [Hlow [Hnew Hwk]]]].
  cbn [index workers].
  destruct (awaiting_count_insert (workers st) w i wk Hw) as [Hc Hpos].
  rewrite Hc. destruct wk; lia.
Qed.

(** No schedule runs for more than [items.length] steps. *)
Lemma steps_bounded m st : nsteps step m init st -> m + remaining st <= n.
Proof.
  revert st. induction m as [|m IH]; intros st H.
  - inversion H; subst. simpl. apply init_remaining.
  - apply nsteps_inv_r in H as [y [Hy Hstep]]. specialize (IH y Hy).
    pose proof (step_remaining y st (inv_reachable y (rtc_nsteps_2 _ _ _ Hy)) Hstep).
    lia.
Qed.

(** Some schedule finishes, from every state of the run. *)
Lemma can_finish st :
  inv st -> exists st', rtc step st st' /\ all_returned st'.
Proof.
  intros Hinv. remember (remaining st) as mu eqn:Hmu.
  revert st Hinv Hmu. induction mu as [mu IH] using lt_wf_ind. intros st Hinv Hmu.
  destruct (progress st) as [Hall|[st' Hstep]].
  - exists st. split; [apply rtc_refl|easy].
  - assert (inv st') as Hinv' by now apply (inv_step st).
    pose proof (step_remaining st st' Hinv Hstep) as Hlt.
    destruct (IH (remaining st') ltac:(lia) st' Hinv' eq_refl) as [st'' [Hrtc Hall]].
    exists st''. split; [|easy]. now apply (rtc_l _ _ st').
Qed.

End Facts.

End RunnerFacts.

Module RunnerClaims.
Import Runner RunnerSpec RunnerFacts.

(** C3, as stated, fails for a width that is not positive: with
    [concurrency = 0] and one item whose operation succeeds, no worker is
    created, the run is finished at once, and index 0 of the result is
    [undefined] instead of the operation's result. *)
Lemma runner_width_zero_counterexample :
  let fn := fun x : nat => Fulfils (2 * x)%nat in
  let st := init fn [7%nat] 0 in
  all_returned st /\
  (forall st', ~ step fn [7%nat] st st') /\
  results st = [None] /\
  results st <> map (fun item => stored (fn item)) [7%nat].
Proof.
  cbv zeta. split; [|split; [|split]].
  - constructor.
  - intros st' H. inversion H as [st w i Hw]. destruct w; discriminate.
  - reflexivity.
  - discriminate.
Qed.

(** C3 (amended). For every items list, every operation and every width
    of at least 1: whatever the order in which the pending operations
    settle, the run finishes (some schedule reaches the end, no schedule
    takes more than [items.length] steps, and an unfinished run can
    always go on), and when it has finished [results] has the length of
    [items] and holds at each index the result of the operation on that
    item, or [undefined] when that operation threw or its promise was
    rejected; a failure leaves every other index untouched. *)
Theorem runner_fills_every_index {T R} (fn : T -> call R) (items : list T)
    (concurrency : Z) :
  1 <= concurrency ->
  (exists st, rtc (step fn items) (init fn items concurrency) st /\ all_returned st) /\
  (forall m st, nsteps (step fn items) m (init fn items concurrency) st ->
                (m <= length items)%nat) /\
  (forall st, rtc (step fn items) (init fn items concurrency) st ->
      (all_returned st \/ exists st', step fn items st st') /\
      (all_returned st ->
         results st = map (fun item => stored (fn item)) items /\
         length (results st) = length items /\
         forall i item, items !! i = Some item ->
                        results st !! i = Some (stored (fn item)))).
Proof.
  intros Hc. split; [|split].
  - apply (can_finish fn items). apply inv_init.
  - intros m st H. pose proof (steps_bounded fn items concurrency m st H). lia.
  - intros st Hst. split; [apply progress|]. intros Hall.
    assert (results st = map (fun item => stored (fn item)) items) as Heq
      by now apply (results_when_returned fn items concurrency).
    split; [easy|]. rewrite Heq. split; [apply length_map|].
    intros i item Hi. now rewrite list_lookup_fmap, Hi.
Qed.

Lemma runner_fills_every_index_witness :
  1 <= 3 /\
  (exists st, rtc (step fails_on_5_and_7 ten_items) (init fails_on_5_and_7 ten_items 3) st
              /\ all_returned st) /\
  (forall st, rtc (step fails_on_5_and_7 ten_items) (init fails_on_5_and_7 ten_items 3) st ->
     all_returned st ->
     results st = [Some 0; Some 10; Some 20; Some 30; Some 40; None;
                   Some 60; None; Some 80; Some 90]%nat).
Proof.
  split; [lia|].
  destruct (runner_fills_every_index fails_on_5_and_7 ten_items 3 ltac:(lia))
    as [Hex [_ Hall]].
  split; [exact Hex|]. intros st Hst Hret.
  exact (proj1 (proj2 (Hall st Hst) Hret)).
Defined.

End RunnerClaims.

(** ** Sorting with a comparator *)

Module SortFacts.
Import Js.

Section Sort.
Context {A : Type}.
Variable cmp : A -> A -> Z.

Local Abbreviation cmp_le := (cmp_le cmp).

Lemma sort_insert_perm x l : Permutation (sort_insert cmp x l) (x :: l).
Proof.
  induction l as [|y l IH]; simpl; [easy|].
  destruct (cmp x y <=? 0); [easy|].
  rewrite IH. apply perm_swap.
Qed.

Lemma Array_sort_perm l : Permutation (Array_sort cmp l) l.
Proof.
  induction l as [|x l IH]; simpl; [easy|].
  rewrite sort_insert_perm. now constructor.
Qed.

Lemma Array_sort_length l : length (Array_sort cmp l) = length l.
Proof. apply Permutation_length, Array_sort_perm. Qed.

Lemma sort_insert_sorted x l :
  (forall a b, cmp_le a b \/ cmp_le b a) ->
  (forall a b c, cmp_le a b -> cmp_le b c -> cmp_le a c) ->
  StronglySorted cmp_le l -> StronglySorted cmp_le (sort_insert cmp x l).
Proof.
  intros Htot Htrans. induction 1 as [|y l Hs IH Hy]; simpl.
  - repeat constructor.
  - destruct (Z.leb_spec (cmp x y) 0) as [Hle|Hgt].
    + constructor; [now constructor|]. constructor; [easy|].
      eapply Forall_impl; [|exact Hy]. intros z Hz. now apply (Htrans x y z).
    + constructor; [easy|].
      rewrite Forall_forall in *. intros z Hz.
      apply (Permutation_in _ (sort_insert_perm x l)) in Hz as [<-|Hz]; [|auto].
      destruct (Htot x y) as [H|H]; [unfold cmp_le in H; lia|easy].
Qed.

Lemma Array_sort_sorted l :
  (forall a b, cmp_le a b \/ cmp_le b a) ->
  (forall a b c, cmp_le a b -> cmp_le b c -> cmp_le a c) ->
  StronglySorted cmp_le (Array_sort cmp l).
Proof.
  intros Htot Htrans. induction l as [|x l IH]; simpl; [constructor|].
  now apply sort_insert_sorted.
Qed.

End Sort.

Lemma StronglySorted_weaken {A : Type} (R1 R2 : A -> A -> Prop) (l : list A) :
  (forall a b, R1 a b -> R2 a b) -> StronglySorted R1 l -> StronglySorted R2 l.
Proof.
  intros Himp. induction 1 as [|a l Hs IH Ha]; constructor; [easy|].
  eapply Forall_impl; [|exact Ha]. intros b. apply Himp.
Qed.


End SortFacts.

(** ** The event standings resolver *)

Module StandingsFacts.
Import Js Standings StandingsSpec SortFacts.

Lemma roundStandingsPriority_spec (st : option string) :
  let low := option_map toLowerCase st in
  roundStandingsPriority st =
    match low with
    | Some s => if existsb (String.eqb s) authoritative then 0
                else if existsb (String.eqb s) provisional then 2 else 1
    | None => 1
    end.
Proof.
  destruct st as [[|c s]|]; [reflexivity| |reflexivity].
  cbn [option_map roundStandingsPriority authoritative provisional existsb].
  now rewrite !orb_false_r, !orb_assoc.
Qed.

Lemma compareRounds_le a b : cmp_le compareRounds a b <-> round_le a b.
Proof.
  unfold cmp_le, compareRounds, round_le. cbv zeta.
  destruct (Z.eqb_spec (roundStandingsPriority (standings_status a))
                       (roundStandingsPriority (standings_status b)));
    destruct (Z.eqb_spec (phase_index b) (phase_index a)); simpl; lia.
Qed.

Lemma round_le_total a b : round_le a b \/ round_le b a.
Proof. unfold round_le. cbv zeta. lia. Qed.

Lemma round_le_trans a b c : round_le a b -> round_le b c -> round_le a c.
Proof. unfold round_le. cbv zeta. lia. Qed.

Lemma sorted_rounds l : StronglySorted round_le (Array_sort compareRounds l).
Proof.
  eapply StronglySorted_weaken; [|apply Array_sort_sorted].
  - intros a b. apply compareRounds_le.
  - intros a b. rewrite !compareRounds_le. apply round_le_total.
  - intros a b c. rewrite !compareRounds_le. apply round_le_trans.
Qed.

(** [allRounds] holds every round of every phase, tagged with the index
    of its phase. *)
Lemma collectRounds_spec (k : Z) (phases : list Phase.t) (r : RoundRef) :
  In r (collectRounds k phases) <->
  exists (i : nat) phase rs round,
    nth_error phases i = Some phase /\ Phase.rounds phase = Some rs /\ In round rs /\
    r = MkRoundRef (Round.id round) (Round.round_number round) (k + Z.of_nat i)
                   (Round.standings_status round).
Proof.
  revert k. induction phases as [|p ps IH]; intros k; simpl.
  - split; [easy|]. intros [[|i] [phase [rs [round [H _]]]]]; discriminate.
  - rewrite in_app_iff, IH. split.
    + intros [H|[i [phase [rs [round [H1 [H2 [H3 H4]]]]]]]].
      * destruct (Phase.rounds p) as [rs|] eqn:E; [|easy].
        apply in_map_iff in H as [round [<- Hin]].
        exists 0%nat, p, rs, round. repeat split; try easy. now rewrite Z.add_0_r.
      * exists (S i), phase, rs, round. repeat split; try easy.
        subst r. f_equal. lia.
    + intros [[|i] [phase [rs [round [H1 [H2 [H3 H4]]]]]]]; simpl in H1.
      * injection H1 as ->. left. rewrite H2. apply in_map_iff.
        exists round. split; [|easy]. subst r. now rewrite Z.add_0_r.
      * right. exists i, phase, rs, round. repeat split; try easy.
        subst r. f_equal. lia.
Qed.

Section Walk.
Variable fetch : FetchCall -> option (list StandingEntry.t).
Variables (pageSize : Z) (isPast : bool).

Local Abbreviation call_of := (call_of pageSize isPast).
Local Abbreviation no_data := (no_data fetch pageSize isPast).

Lemma walk_spec rounds :
  (exists before round after standings,
      rounds = before ++ round :: after /\ Forall no_data before /\
      fetch (call_of round) = Some standings /\ standings <> [] /\
      walk fetch pageSize isPast rounds
        = (map call_of (before ++ [round]), Some standings)) \/
  (Forall no_data rounds /\
   walk fetch pageSize isPast rounds = (map call_of rounds, None)).
Proof.
  induction rounds as [|r rounds IH]; [right; split; [constructor|easy]|].
  cbn [walk]. fold (call_of r).
  destruct (fetch (call_of r)) as [[|e res]|] eqn:E.
  2:{ left. exists [], r, rounds, (e :: res). repeat split; easy. }
  all: assert (no_data r) as Hr by (unfold no_data; rewrite E; auto).
  all: destruct IH as [[before [round [after [st [H1 [H2 [H3 [H4 H5]]]]]]]]|[H1 H2]].
  all: rewrite ?H5, ?H2.
  1,3: left; exists (r :: before), round, after, st; subst rounds;
       repeat split; try easy; now constructor.
  all: right; split; [now constructor|easy].
Qed.

End Walk.

End StandingsFacts.

Module StandingsClaims.
Import Js Standings StandingsSpec SortFacts StandingsFacts.

(** C2. The priority of a round is 0 for an authoritative status, 2 for
    a provisional one and 1 otherwise; [allRounds] holds the rounds of
    all phases with their phase index; an event without tournament
    phases resolves to [null] with no fetch; and for an event with at
    least one phase the resolver walks the rounds in ascending order of
    (priority, phase index descending, round number descending),
    fetching page 1 of each, passing over rounds whose fetch throws or
    is empty, and returns [{event, standings}] for the first round with
    results, or [null] after all rounds when none has any. *)
Theorem getEventStandings_walks_sorted_rounds :
  (forall st : option string,
      roundStandingsPriority st =
        match option_map toLowerCase st with
        | Some s => if existsb (String.eqb s) authoritative then 0
                    else if existsb (String.eqb s) provisional then 2 else 1
        | None => 1
        end) /\
  (forall (phases : list Phase.t) (r : RoundRef),
      In r (collectRounds 0 phases) <->
      exists (i : nat) phase rs round,
        nth_error phases i = Some phase /\ Phase.rounds phase = Some rs /\
        In round rs /\
        r = MkRoundRef (Round.id round) (Round.round_number round) (0 + Z.of_nat i)
                       (Round.standings_status round)) /\
  (forall fetchEventDetails fetch eventId pageSize event,
      fetchEventDetails eventId = Some event ->
      Event.tournament_phases event = None \/ Event.tournament_phases event = Some [] ->
      getEventStandings fetchEventDetails fetch eventId pageSize = ([], Returns None)) /\
  (forall fetchEventDetails fetch eventId pageSize event phase phases,
      fetchEventDetails eventId = Some event ->
      Event.tournament_phases event = Some (phase :: phases) ->
      let size := match pageSize with Some p => p | None => 50 end in
      let call := call_of size (isEventCompleted event) in
      let empty := no_data fetch size (isEventCompleted event) in
      let out := getEventStandings fetchEventDetails fetch eventId pageSize in
      exists allRounds,
        Permutation allRounds (collectRounds 0 (phase :: phases)) /\
        StronglySorted round_le allRounds /\
        ((exists before round after standings,
             allRounds = before ++ round :: after /\ Forall empty before /\
             fetch (call round) = Some standings /\ standings <> [] /\
             out = (map call (before ++ [round]), Returns (Some (event, standings)))) \/
         (Forall empty allRounds /\ out = (map call allRounds, Returns None)))).
Proof.
  split; [exact roundStandingsPriority_spec|].
  split; [intros phases r; apply collectRounds_spec|].
  split.
  - intros fetchEventDetails fetch eventId pageSize event Hev Hph.
    unfold getEventStandings. rewrite Hev. now destruct Hph as [-> | ->].
  - intros fetchEventDetails fetch eventId pageSize event phase phases Hev Hph.
    cbv zeta. unfold getEventStandings. rewrite Hev, Hph.
    set (size := match pageSize with Some p => p | None => 50 end).
    set (sorted := Array_sort compareRounds (collectRounds 0 (phase :: phases))).
    exists sorted. split; [apply Array_sort_perm|]. split; [apply sorted_rounds|].
    destruct (walk_spec fetch size (isEventCompleted event) sorted)
      as [[before [round [after [st [H1 [H2 [H3 [H4 H5]]]]]]]]|[H1 H2]].
    + left. exists before, round, after, st. rewrite H5. repeat split; easy.
    + right. now rewrite H2.
Qed.

Lemma getEventStandings_walks_sorted_rounds_witness :
  getEventStandings sample_details sample_fetch 42 None
    = ([MkFetchCall 201 1 50 true; MkFetchCall 102 1 50 true; MkFetchCall 101 1 50 true],
       Returns (Some (sample_event, [sample_entry]))) /\
  exists allRounds,
    Permutation allRounds
      (collectRounds 0 [ Phase.Make (Some [ Round.Make 101 1 (Some "completed"%string);
                                            Round.Make 102 2 (Some "COMPLETED"%string);
                                            Round.Make 103 3 (Some "pending"%string) ]);
                         Phase.Make (Some [ Round.Make 201 1 (Some "final"%string);
                                            Round.Make 202 2 None ]) ]) /\
    StronglySorted round_le allRounds /\
    ((exists before round after standings,
         allRounds = before ++ round :: after /\
         Forall (no_data sample_fetch 50 (isEventCompleted sample_event)) before /\
         sample_fetch (call_of 50 (isEventCompleted sample_event) round) = Some standings /\
         standings <> [] /\
         getEventStandings sample_details sample_fetch 42 None
           = (map (call_of 50 (isEventCompleted sample_event)) (before ++ [round]),
              Returns (Some (sample_event, standings)))) \/
     (Forall (no_data sample_fetch 50 (isEventCompleted sample_event)) allRounds /\
      getEventStandings sample_details sample_fetch 42 None
        = (map (call_of 50 (isEventCompleted sample_event)) allRounds, Returns None))).
Proof.
  split; [reflexivity|].
  apply (proj2 (proj2 (proj2 getEventStandings_walks_sorted_rounds))
           sample_details sample_fetch 42 None sample_event); reflexivity.
Defined.

End StandingsClaims.

(** ** The aggregation *)

Module AggregateFacts.
Import Js Aggregate AggregateSpec JsMapFacts SortFacts.

(** *** What one key receives from the entries *)

Lemma sumZ_app l1 l2 : sumZ (l1 ++ l2) = sumZ l1 + sumZ l2.
Proof. unfold sumZ. induction l1 as [|x l1 IH]; simpl; [easy|]. rewrite IH. lia. Qed.

Lemma addEntry_tracks k agg i entry cs :
  k <> UNKNOWN -> tracks (JsMap.get k agg) cs ->
  tracks (JsMap.get k (addEntry agg i entry))
         (cs ++ if String.eqb (standingPlayerKey entry) k then [contribution i entry] else []).
Proof.
  intros Hk Ht. unfold addEntry.
  destruct (String.eqb_spec (standingPlayerKey entry) UNKNOWN) as [Hu|Hu].
  - destruct (String.eqb_spec (standingPlayerKey entry) k); [congruence|].
    now rewrite app_nil_r.
  - destruct (standingWinsLosses entry) as [w l] eqn:Ewl. rewrite get_set.
    destruct (String.eqb_spec (standingPlayerKey entry) k) as [->|Hne];
      [|now rewrite app_nil_r].
    unfold tracks in *. unfold contribution. rewrite Ewl. cbn [fst snd].
    destruct (JsMap.get k agg) as [r|].
    + destruct Ht as [Hne [Hw [Hl [He Hp]]]].
      match goal with |- context [if ?b then _ else r] => destruct b end;
        cbn [AggRec.wins AggRec.losses AggRec.eventsPlayed AggRec.placements];
        rewrite !map_app, !sumZ_app, length_app; cbn;
        (repeat split; try lia; try congruence; now destruct cs).
    + subst cs. cbn. repeat split; try lia; easy.
Qed.

Lemma addStandings_tracks k standings agg i cs :
  k <> UNKNOWN -> tracks (JsMap.get k agg) cs ->
  tracks (JsMap.get k (addStandings agg i standings)) (cs ++ contribs_from k i standings).
Proof.
  intros Hk. revert agg i cs.
  induction standings as [|entry rest IH]; intros agg i cs Ht; simpl.
  - now rewrite app_nil_r.
  - rewrite app_assoc. apply IH. now apply addEntry_tracks.
Qed.

Lemma accumulate_from_tracks k evs agg cs :
  k <> UNKNOWN -> tracks (JsMap.get k agg) cs ->
  tracks (JsMap.get k (fold_left (fun agg es => addStandings agg 0 (snd es)) evs agg))
         (cs ++ all_contribs k evs).
Proof.
  intros Hk. revert agg cs.
  induction evs as [|es evs IH]; intros agg cs Ht; simpl.
  - now rewrite app_nil_r.
  - rewrite app_assoc. apply IH. now apply addStandings_tracks.
Qed.

Lemma accumulate_tracks k evs :
  k <> UNKNOWN -> tracks (JsMap.get k (accumulate evs)) (all_contribs k evs).
Proof. intros Hk. now apply (accumulate_from_tracks k evs [] []). Qed.

(** *** The display name of a key *)




Lemma entries_from_snoc k (standings : list StandingEntry.t) entry :
  List.filter (fun e => String.eqb (standingPlayerKey e) k) (standings ++ [entry])
  = List.filter (fun e => String.eqb (standingPlayerKey e) k) standings
      ++ if String.eqb (standingPlayerKey entry) k then [entry] else [].
Proof. rewrite filter_app. simpl. now destruct (String.eqb _ k). Qed.




(** *** The map of records *)

Lemma addEntry_unknown agg i entry :
  JsMap.get UNKNOWN agg = None -> JsMap.get UNKNOWN (addEntry agg i entry) = None.
Proof.
  intros H. unfold addEntry.
  destruct (String.eqb_spec (standingPlayerKey entry) UNKNOWN) as [Hu|Hu]; [easy|].
  destruct (standingWinsLosses entry) as [w l]. rewrite get_set.
  now destruct (String.eqb_spec (standingPlayerKey entry) UNKNOWN).
Qed.

Lemma addEntry_NoDup agg i entry :
  NoDup (JsMap.keys agg) -> NoDup (JsMap.keys (addEntry agg i entry)).
Proof.
  intros H. unfold addEntry. destruct (String.eqb _ UNKNOWN); [easy|].
  destruct (standingWinsLosses entry) as [w l]. now apply store_set_NoDup.
Qed.

Lemma addStandings_inv (P : list (string * AggRec.t) -> Prop) standings agg i :
  (forall agg i entry, P agg -> P (addEntry agg i entry)) ->
  P agg -> P (addStandings agg i standings).
Proof.
  intros Hstep. revert agg i.
  induction standings as [|entry rest IH]; intros agg i H; simpl; auto.
Qed.

Lemma accumulate_inv (P : list (string * AggRec.t) -> Prop) evs :
  (forall agg i entry, P agg -> P (addEntry agg i entry)) ->
  P [] -> P (accumulate evs).
Proof.
  intros Hstep H0. unfold accumulate. generalize (@nil (string * AggRec.t)) H0.
  induction evs as [|es evs IH]; intros agg H; simpl; [easy|].
  apply IH. now apply addStandings_inv.
Qed.

Lemma accumulate_unknown evs : JsMap.get UNKNOWN (accumulate evs) = None.
Proof. apply accumulate_inv; [apply addEntry_unknown|easy]. Qed.

Lemma accumulate_NoDup evs : NoDup (JsMap.keys (accumulate evs)).
Proof. apply accumulate_inv; [apply addEntry_NoDup|constructor]. Qed.

(** Every record has at least one placement, so [Math.min] is never
    applied to an empty list. *)
Lemma placements_nonempty evs k r :
  In (k, r) (accumulate evs) -> AggRec.placements r <> [].
Proof.
  intros Hin. apply In_get in Hin; [|apply accumulate_NoDup].
  assert (k <> UNKNOWN) as Hk by (intros ->; rewrite accumulate_unknown in Hin; easy).
  pose proof (accumulate_tracks k evs Hk) as Ht. rewrite Hin in Ht.
  destruct Ht as [Hne [_ [_ [_ Hp]]]]. rewrite Hp.
  destruct (all_contribs k evs); [easy|discriminate].
Qed.

(** *** Statistics that do not depend on the order of the entries *)


Lemma sumZ_perm l l' : Permutation l l' -> sumZ l = sumZ l'.
Proof. unfold sumZ. induction 1; simpl; lia. Qed.

Lemma fold_min_le l x : fold_left Z.min l x <= x.
Proof.
  revert x. induction l as [|y l IH]; intros x; simpl; [lia|].
  specialize (IH (Z.min x y)). lia.
Qed.

Lemma fold_min_lower l x y : In y l -> fold_left Z.min l x <= y.
Proof.
  revert x. induction l as [|z l IH]; intros x; simpl; [easy|].
  intros [->|Hin]; [|auto]. pose proof (fold_min_le l (Z.min x y)). lia.
Qed.

Lemma fold_min_in l x : fold_left Z.min l x = x \/ In (fold_left Z.min l x) l.
Proof.
  revert x. induction l as [|z l IH]; intros x; simpl; [now left|].
  destruct (IH (Z.min x z)) as [H|H]; [|now right; right].
  rewrite H. destruct (Z.min_spec x z) as [[_ ->]|[_ ->]]; auto.
Qed.

(** [Math.min] of a non-empty list is its least element. *)
Lemma Math_min_spec l :
  l <> [] -> In (Math_min l) l /\ forall y, In y l -> Math_min l <= y.
Proof.
  destruct l as [|x l]; [easy|]. intros _. unfold Math_min. split.
  - destruct (fold_min_in l x) as [->|H]; [now left|now right].
  - intros y [<-|Hin]; [apply fold_min_le|now apply fold_min_lower].
Qed.







(** *** The order of [sortPlayers] *)






Lemma sortPlayers_perm players sortBy : Permutation (sortPlayers players sortBy) players.
Proof. apply Array_sort_perm. Qed.

(** *** The result, up to what the input order decides *)

Lemma row_toPlayerStats r : row (toPlayerStats r) = stats r.
Proof. reflexivity. Qed.

Lemma sort_key_row sortBy p : sort_key sortBy p = key_of_row sortBy (row p).
Proof. reflexivity. Qed.













(** *** Placement from the position in the standings *)

Lemma contribs_from_In k standings i0 j entry :
  nth_error standings j = Some entry -> standingPlayerKey entry = k ->
  In (contribution (i0 + j) entry) (contribs_from k i0 standings).
Proof.
  revert i0 j. induction standings as [|e rest IH]; intros i0 [|j] Hj Hk;
    simpl in Hj; try discriminate.
  - injection Hj as ->. simpl. rewrite Hk, String.eqb_refl, Nat.add_0_r. now left.
  - simpl. apply in_or_app. right.
    replace (i0 + S j)%nat with (S i0 + j)%nat by lia. now apply IH.
Qed.

Lemma all_contribs_In evs event standings i entry :
  In (event, standings) evs -> nth_error standings i = Some entry ->
  In (contribution i entry) (all_contribs (standingPlayerKey entry) evs).
Proof.
  intros Hev Hi. unfold all_contribs. apply in_flat_map.
  exists (event, standings). split; [easy|].
  now apply (contribs_from_In _ standings 0 i entry).
Qed.

Lemma placement_recorded evs event standings i entry :
  In (event, standings) evs -> nth_error standings i = Some entry ->
  standingPlayerKey entry <> UNKNOWN ->
  exists r, JsMap.get (standingPlayerKey entry) (accumulate evs) = Some r /\
            In (standingPlacement entry i) (AggRec.placements r).
Proof.
  intros Hev Hi Hk.
  pose proof (accumulate_tracks _ evs Hk) as Ht.
  pose proof (all_contribs_In evs event standings i entry Hev Hi) as Hin.
  destruct (JsMap.get (standingPlayerKey entry) (accumulate evs)) as [r|].
  - exists r. split; [easy|]. destruct Ht as [_ [_ [_ [_ ->]]]].
    apply in_map_iff. now exists (contribution i entry).
  - simpl in Ht. rewrite Ht in Hin. easy.
Qed.

(** *** Parsing a record without digits *)

Lemma digits_no_digit s : no_digit s -> digits None s = None.
Proof.
  destruct s as [|c s]; [easy|]. intros H. simpl.
  now rewrite (H c (or_introl eq_refl)).
Qed.

Lemma trimStart_chars s c :
  In c (list_ascii_of_string (trimStart s)) -> In c (list_ascii_of_string s).
Proof.
  induction s as [|a s IH]; simpl; [easy|].
  destruct (isWhiteSpace a); simpl; auto.
Qed.

Lemma trimEnd_chars s c :
  In c (list_ascii_of_string (trimEnd s)) -> In c (list_ascii_of_string s).
Proof.
  induction s as [|a s IH]; simpl; [easy|].
  destruct (trimEnd s) as [|b r] eqn:E.
  - destruct (isWhiteSpace a); simpl; [easy|]. intros [->|[]]. now left.
  - simpl. intros [->|H]; [now left|]. right. apply IH. exact H.
Qed.

Lemma trim_no_digit s : no_digit s -> no_digit (trim s).
Proof.
  intros H c Hc. apply H. unfold trim in Hc.
  now apply trimStart_chars, trimEnd_chars.
Qed.

Lemma parseInt_no_digit s : no_digit s -> parseInt s = None.
Proof.
  intros H. unfold parseInt.
  assert (no_digit (trimStart s)) as H' by (intros c Hc; now apply H, trimStart_chars).
  destruct (trimStart s) as [|a r] eqn:E; [easy|].
  assert (no_digit r) as Hr by (intros c Hc; apply H'; now right).
  assert (digits None (String a r) = None) as Hd by now apply digits_no_digit.
  destruct (Ascii.eqb_spec a "-"%char) as [->|Hm].
  { now rewrite (digits_no_digit r Hr). }
  destruct (Ascii.eqb_spec a "+"%char) as [->|Hp].
  { now apply digits_no_digit. }
  destruct a as [[] [] [] [] [] [] [] []]; try exact Hd; congruence.
Qed.

Lemma split_head sep s :
  exists h t, split sep s = h :: t /\
              forall c, In c (list_ascii_of_string h) -> In c (list_ascii_of_string s).
Proof.
  induction s as [|a s [h [t [IH1 IH2]]]]; simpl.
  - exists EmptyString, []. easy.
  - destruct (Ascii.eqb a sep).
    + exists EmptyString, (split sep s). easy.
    + rewrite IH1. exists (String a h), t. split; [easy|].
      simpl. intros c [->|Hc]; auto.
Qed.

Lemma parseRecord_no_digit s : no_digit s -> parseRecordToWinsLosses (Some s) = (0, 0).
Proof.
  intros H. unfold parseRecordToWinsLosses.
  destruct (trim s); [easy|].
  destruct (split_head "-" s) as [h [t [-> Hh]]]. cbn [map].
  rewrite parseInt_no_digit; [easy|].
  apply trim_no_digit. intros c Hc. now apply H, Hh.
Qed.

(** *** Parsing a record printed in decimal *)

Lemma digit_char c v :
  digit c = Some v ->
  isWhiteSpace c = false /\ Ascii.eqb c "-" = false /\ Ascii.eqb c "+" = false.
Proof.
  destruct c as [[] [] [] [] [] [] [] []]; vm_compute; intros H;
    try discriminate; auto.
Qed.

Lemma string_of_uint_digits d : all_digits (NilEmpty.string_of_uint d).
Proof.
  induction d; simpl; intros c Hc; try easy;
    (destruct Hc as [<-|Hc]; [eexists; reflexivity|now apply IHd]).
Qed.

Lemma digits_acc d acc :
  digits (Some (Z.pos acc)) (NilEmpty.string_of_uint d)
  = Some (Z.pos (Pos.of_uint_acc d acc)).
Proof.
  revert acc. induction d; intros acc; simpl; try easy;
    match goal with
    | |- digits (Some ?z) _ = Some (Z.pos (Pos.of_uint_acc _ ?p)) =>
        replace z with (Z.pos p) by (cbn; lia); apply IHd
    end.
Qed.

Lemma digits_zero d :
  digits (Some 0) (NilEmpty.string_of_uint d) = Some (Z.of_N (Pos.of_uint d)).
Proof.
  induction d; simpl; try easy; try apply (digits_acc d).
Qed.

Lemma digits_uint d :
  d <> Decimal.Nil -> digits None (NilEmpty.string_of_uint d) = Some (Z.of_N (Pos.of_uint d)).
Proof.
  destruct d; intros H; try easy; simpl; try apply (digits_acc d).
  apply digits_zero.
Qed.

Lemma string_of_Z_nonneg w :
  0 <= w ->
  exists d, string_of_Z w = NilEmpty.string_of_uint d /\ d <> Decimal.Nil /\
            Z.of_N (Pos.of_uint d) = w.
Proof.
  intros H. destruct w as [|p|p]; [| |lia].
  - exists (Decimal.D0 Decimal.Nil). easy.
  - exists (Pos.to_uint p). unfold string_of_Z. simpl.
    pose proof (DecimalPos.Unsigned.to_uint_nonnil p) as Hn.
    split; [|split; [easy|]].
    + unfold NilZero.string_of_uint. now destruct (Pos.to_uint p).
    + now rewrite DecimalPos.Unsigned.of_to.
Qed.

Lemma trimEnd_no_space s : no_space s -> trimEnd s = s.
Proof.
  induction s as [|c s IH]; intros H; simpl; [easy|].
  rewrite IH by (intros x Hx; apply H; now right).
  destruct s; [|easy]. now rewrite (H c (or_introl eq_refl)).
Qed.

Lemma trim_no_space s : no_space s -> trim s = s.
Proof.
  intros H. unfold trim.
  assert (trimStart s = s) as ->; [|now apply trimEnd_no_space].
  destruct s as [|c s]; [easy|]. simpl. now rewrite (H c (or_introl eq_refl)).
Qed.

Lemma split_app sep a b :
  (forall c, In c (list_ascii_of_string a) -> Ascii.eqb c sep = false) ->
  split sep (a ++ String sep b) = a :: split sep b.
Proof.
  induction a as [|c a IH]; intros H; simpl.
  - now rewrite Ascii.eqb_refl.
  - rewrite (H c (or_introl eq_refl)).
    now rewrite IH by (intros x Hx; apply H; now right).
Qed.

Lemma split_none sep a :
  (forall c, In c (list_ascii_of_string a) -> Ascii.eqb c sep = false) ->
  split sep a = [a].
Proof.
  induction a as [|c a IH]; intros H; simpl; [easy|].
  rewrite (H c (or_introl eq_refl)).
  now rewrite IH by (intros x Hx; apply H; now right).
Qed.

Lemma all_digits_no_space s : all_digits s -> no_space s.
Proof. intros H c Hc. destruct (H c Hc) as [v Hv]. now apply digit_char in Hv. Qed.

Lemma parseInt_digits s z :
  all_digits s -> s <> EmptyString -> digits None s = Some z -> parseInt s = Some z.
Proof.
  intros Hd Hne Hz. unfold parseInt.
  destruct s as [|c r]; [easy|].
  destruct (Hd c (or_introl eq_refl)) as [v Hv].
  destruct (digit_char c v Hv) as [Hw [Hm Hp]].
  cbn [trimStart]. rewrite Hw.
  destruct (Ascii.eqb_spec c "-"); [discriminate|].
  destruct (Ascii.eqb_spec c "+"); [discriminate|].
  destruct c as [[] [] [] [] [] [] [] []]; try exact Hz; congruence.
Qed.

Lemma in_append s t c :
  In c (list_ascii_of_string (s ++ t)) <->
  In c (list_ascii_of_string s) \/ In c (list_ascii_of_string t).
Proof. induction s as [|a s IH]; simpl; [tauto|]. rewrite IH. tauto. Qed.

Lemma parseRecord_decimal w l :
  0 <= w -> 0 <= l ->
  parseRecordToWinsLosses (Some (string_of_Z w ++ "-" ++ string_of_Z l)%string) = (w, l).
Proof.
  intros Hw Hl.
  destruct (string_of_Z_nonneg w Hw) as [dw [Ew [Nw Vw]]].
  destruct (string_of_Z_nonneg l Hl) as [dl [El [Nl Vl]]].
  rewrite Ew, El.
  set (a := NilEmpty.string_of_uint dw). set (b := NilEmpty.string_of_uint dl).
  assert (all_digits a) as Da by apply string_of_uint_digits.
  assert (all_digits b) as Db by apply string_of_uint_digits.
  assert (a <> EmptyString) as Na by (subst a; now destruct dw).
  assert (b <> EmptyString) as Nb by (subst b; now destruct dl).
  assert (forall s, all_digits s ->
            forall c, In c (list_ascii_of_string s) -> Ascii.eqb c "-" = false) as Hdash.
  { intros s Hs c Hc. destruct (Hs c Hc) as [v Hv]. now apply digit_char in Hv. }
  unfold parseRecordToWinsLosses.
  assert (no_space (a ++ "-" ++ b)) as Hns.
  { intros c Hc. apply in_append in Hc as [Hc|Hc]; [now apply all_digits_no_space in Hc|].
    simpl in Hc. destruct Hc as [<-|Hc]; [reflexivity|now apply all_digits_no_space in Hc]. }
  rewrite (trim_no_space _ Hns).
  destruct (a ++ "-" ++ b)%string eqn:E; [now destruct a|]. rewrite <- E.
  change (a ++ "-" ++ b)%string with (a ++ String "-" b)%string.
  rewrite split_app by now apply Hdash.
  rewrite split_none by now apply Hdash.
  cbn [map]. rewrite !trim_no_space by now apply all_digits_no_space.
  rewrite (parseInt_digits a w), (parseInt_digits b l); try easy.
  - subst b. rewrite digits_uint by easy. now rewrite Vl.
  - subst a. rewrite digits_uint by easy. now rewrite Vw.
Qed.

End AggregateFacts.

Module AggregateClaims.
Import Js Aggregate AggregateSpec JsMapFacts SortFacts AggregateFacts.




(** C10. An entry with neither [rank] nor [placement] gets its
    zero-based position in the event's standings array plus 1 as
    placement, and the aggregator records that value for the entry's
    player: it is in the player's placements, it bounds the best
    placement, and at position 0 it counts as a first place. *)
Theorem placement_defaults_to_position
    (evs : list EventStandings) (event : Event.t) (standings : list StandingEntry.t)
    (i : nat) (entry : StandingEntry.t) :
  StandingEntry.rank entry = None -> StandingEntry.placement entry = None ->
  standingPlacement entry i = Z.of_nat i + 1 /\
  (In (event, standings) evs -> nth_error standings i = Some entry ->
   standingPlayerKey entry <> UNKNOWN ->
   exists r,
     JsMap.get (standingPlayerKey entry) (accumulate evs) = Some r /\
     In (Z.of_nat i + 1) (AggRec.placements r) /\
     PlayerStats.bestPlacement (toPlayerStats r) <= Z.of_nat i + 1 /\
     (i = 0%nat -> 1 <= PlayerStats.firstPlaceFinishes (toPlayerStats r))).
Proof.
  intros Hr Hp.
  assert (standingPlacement entry i = Z.of_nat i + 1) as Hpl
    by (unfold standingPlacement; now rewrite Hr, Hp).
  split; [easy|]. intros Hev Hi Hk.
  destruct (placement_recorded evs event standings i entry Hev Hi Hk) as [r [Hget Hin]].
  rewrite Hpl in Hin. exists r. split; [easy|]. split; [easy|]. split.
  - cbn. apply Math_min_spec; [|easy]. intros E. now rewrite E in Hin.
  - intros ->. cbn. unfold count_first.
    assert (In 1 (List.filter (fun p => p =? 1) (AggRec.placements r))) as Hf
      by (apply filter_In; split; [exact Hin|reflexivity]).
    destruct (List.filter (fun p => p =? 1) (AggRec.placements r)); [easy|].
    simpl length. lia.
Qed.

Lemma placement_defaults_to_position_witness :
  standingPlacement (unranked "cy") 2 = 3 /\
  exists r,
    JsMap.get (standingPlayerKey (unranked "cy"))
              (accumulate [(plain_event 1, [unranked "ann"; unranked "bob"; unranked "cy"])])
      = Some r /\
    In 3 (AggRec.placements r) /\
    PlayerStats.bestPlacement (toPlayerStats r) <= 3 /\
    (2%nat = 0%nat -> 1 <= PlayerStats.firstPlaceFinishes (toPlayerStats r)).
Proof.
  destruct (placement_defaults_to_position
              [(plain_event 1, [unranked "ann"; unranked "bob"; unranked "cy"])]
              (plain_event 1) [unranked "ann"; unranked "bob"; unranked "cy"]
              2 (unranked "cy") eq_refl eq_refl) as [H1 H2].
  split; [exact H1|].
  apply H2; [now left|reflexivity|discriminate].
Defined.

(** C5. ["3-1"] parses to wins 3 and losses 1, as does every record
    made of two naturals in decimal around a dash; [""], an absent
    record and every record without a decimal digit parse to 0 and 0;
    and a
    player (of any id and handle) with rank 1 and record 3-0 in one
    event and rank 4 and record 2-1 in another aggregates to 5 wins,
    1 loss, 2 events played, best placement 1 and 1 first place. *)
Theorem record_parsing_and_two_event_totals :
  parseRecordToWinsLosses (Some "3-1"%string) = (3, 1) /\
  parseRecordToWinsLosses (Some ""%string) = (0, 0) /\
  parseRecordToWinsLosses None = (0, 0) /\
  (forall s, no_digit s -> parseRecordToWinsLosses (Some s) = (0, 0)) /\
  (forall w l, 0 <= w -> 0 <= l ->
      parseRecordToWinsLosses (Some (string_of_Z w ++ "-" ++ string_of_Z l)%string)
        = (w, l)) /\
  (forall (n : Z) (handle : option string) (e1 e2 : Event.t)
          (minEvents : Z) (sortBy : LeaderboardSortBy) (limit : Z),
      minEvents <= 2 -> 1 <= limit ->
      let entry rk rec :=
        StandingEntry.Make (Some rk) None (Some (Player.Make handle (Some n)))
                           None None None None None (Some rec) None None in
      aggregateStandingsToPlayers
        [(e1, [entry 1 "3-0"%string]); (e2, [entry 4 "2-1"%string])]
        minEvents sortBy limit
      = [PlayerStats.Make (match handle with Some h => h | None => UNKNOWN end)
                          5 1 2 1 1 [1; 4]]).
Proof.
  split; [reflexivity|]. split; [reflexivity|]. split; [reflexivity|].
  split; [exact parseRecord_no_digit|]. split; [exact parseRecord_decimal|].
  intros n handle e1 e2 minEvents sortBy limit Hmin Hlim. cbv zeta.
  set (name := match handle with Some h => h | None => UNKNOWN end).
  set (key := ("player_id:" ++ string_of_Z n)%string).
  set (en1 := StandingEntry.Make (Some 1) None (Some (Player.Make handle (Some n)))
                None None None None None (Some "3-0"%string) None None).
  set (en2 := StandingEntry.Make (Some 4) None (Some (Player.Make handle (Some n)))
                None None None None None (Some "2-1"%string) None None).
  assert (String.eqb key UNKNOWN = false) as Hu by reflexivity.
  assert (standingPlayerDisplayName en1 = name /\ standingPlayerDisplayName en2 = name)
    as [Hd1 Hd2] by (now destruct handle).
  assert (addEntry [] 0 en1 = [(key, AggRec.Make name false 3 0 1 [1])]) as H1.
  { unfold addEntry. change (standingPlayerKey en1) with key. rewrite Hu, Hd1.
    change (standingWinsLosses en1) with (3, 0). reflexivity. }
  assert (addEntry [(key, AggRec.Make name false 3 0 1 [1])] 0 en2
          = [(key, AggRec.Make name false 5 1 2 [1; 4])]) as H2.
  { unfold addEntry. change (standingPlayerKey en2) with key. rewrite Hu, Hd2.
    change (standingWinsLosses en2) with (2, 1).
    cbn [JsMap.get JsMap.set]. rewrite String.eqb_refl. reflexivity. }
  unfold aggregateStandingsToPlayers, qualifiedPlayers, accumulate.
  cbn [fold_left snd addStandings]. rewrite H1, H2.
  cbn [JsMap.values map snd List.filter AggRec.eventsPlayed].
  rewrite Z.geb_leb. destruct (Z.leb_spec minEvents 2); [|lia].
  cbn [map]. unfold sortPlayers. cbn [Array_sort fold_right sort_insert].
  unfold slice0. destruct (Z.ltb_spec limit 0); [lia|].
  destruct (Z.to_nat limit) eqn:E; [lia|]. cbn [firstn]. now rewrite firstn_nil.
Qed.

Lemma record_parsing_and_two_event_totals_witness :
  parseRecordToWinsLosses (Some "n/a"%string) = (0, 0) /\
  parseRecordToWinsLosses (Some (string_of_Z 12 ++ "-" ++ string_of_Z 7)%string) = (12, 7) /\
  aggregateStandingsToPlayers
    [(plain_event 1,
      [StandingEntry.Make (Some 1) None (Some (Player.Make (Some "Ann B"%string) (Some 7)))
                          None None None None None (Some "3-0"%string) None None]);
     (plain_event 2,
      [StandingEntry.Make (Some 4) None (Some (Player.Make (Some "Ann B"%string) (Some 7)))
                          None None None None None (Some "2-1"%string) None None])]
    1 total_wins 20
  = [PlayerStats.Make "Ann B" 5 1 2 1 1 [1; 4]].
Proof.
  destruct record_parsing_and_two_event_totals as [_ [_ [_ [Hnd [Hdec Hagg]]]]].
  split; [|split].
  - apply Hnd. intros c Hc. simpl in Hc.
    destruct Hc as [<-|[<-|[<-|[]]]]; reflexivity.
  - apply (Hdec 12 7); lia.
  - apply (Hagg 7 (Some "Ann B"%string) (plain_event 1) (plain_event 2)
                1 total_wins 20); lia.
Defined.

End AggregateClaims.

(** ** The leaderboard entry points *)

Module LeaderboardFacts.
Import Js Aggregate Leaderboard LeaderboardSpec.

(** The day span computed by [validateDateRange] for a start at 00:00:00
    of day [S] and an end at 23:59:59 of day [E] counts both days. *)
Lemma inclusive_day_span (S E : Z) :
  S <= E ->
  Math_round_div (msPerDay * E + 86399000 - msPerDay * S) msPerDay = E - S + 1.
Proof.
  intros H. unfold Math_round_div, msPerDay.
  replace (2 * (24 * 60 * 60 * 1000 * E + 86399000 - 24 * 60 * 60 * 1000 * S)
           + 24 * 60 * 60 * 1000)
    with ((E - S + 1) * (2 * (24 * 60 * 60 * 1000)) + 86398000) by lia.
  rewrite Z.div_add_l by lia. rewrite Z.div_small by lia. lia.
Qed.

Section Validation.
Variable Date_parse : string -> option Z.

Lemma validate_invalid startDate endDate :
  Date_parse (startDate ++ "T00:00:00Z")%string = None \/
  Date_parse (endDate ++ "T23:59:59Z")%string = None ->
  validateDateRange Date_parse startDate endDate
    = Some "Dates must be valid YYYY-MM-DD."%string.
Proof.
  unfold validateDateRange. intros [-> | ->]; [easy|].
  now destruct (Date_parse _).
Qed.

Lemma validate_days startDate endDate S E :
  Date_parse (startDate ++ "T00:00:00Z")%string = Some (msPerDay * S) ->
  Date_parse (endDate ++ "T23:59:59Z")%string = Some (msPerDay * E + 86399000) ->
  validateDateRange Date_parse startDate endDate
    = if E <? S then Some "start_date must be on or before end_date."%string
      else if 366 <? E - S + 1
           then Some "Date range cannot exceed 366 days (about 1 year)."%string
           else None.
Proof.
  intros Hs He. unfold validateDateRange. rewrite Hs, He.
  destruct (Z.ltb_spec E S) as [Hlt|Hle].
  - rewrite gtb_true; [easy|]. unfold msPerDay. lia.
  - rewrite gtb_false by (unfold msPerDay; lia).
    rewrite inclusive_day_span by easy.
    unfold MAX_LEADERBOARD_DATE_RANGE_DAYS. rewrite Z.gtb_ltb.
    now destruct (366 <? E - S + 1).
Qed.

End Validation.

Section Discovery.
Variable Date_parse : string -> option Z.
Variable geocodeCity : string -> result (option Geo.t).
Variable searchEventsByCoords : CoordsQuery.t -> result SearchReply.
Variable searchEventsByStore : StoreQuery.t -> result SearchReply.
Variable fetchAllEventStandings : list Z -> list EventStandings.

Local Abbreviation byCity :=
  (getPlayerLeaderboardByCity Date_parse geocodeCity searchEventsByCoords
                              fetchAllEventStandings).
Local Abbreviation byStore :=
  (getPlayerLeaderboardByStore Date_parse searchEventsByStore fetchAllEventStandings).

Lemma city_fails_fast fuel params msg :
  validateDateRange Date_parse (CityParams.startDate params) (CityParams.endDate params)
    = Some msg ->
  byCity fuel params = ([], Resolved (Error msg)).
Proof. intros H. unfold getPlayerLeaderboardByCity. now rewrite H. Qed.

Lemma store_fails_fast fuel params msg :
  validateDateRange Date_parse (StoreParams.startDate params) (StoreParams.endDate params)
    = Some msg ->
  byStore fuel params = ([], Resolved (Error msg)).
Proof. intros H. unfold getPlayerLeaderboardByStore. now rewrite H. Qed.

Lemma city_discovered fuel params geo calls allEvents label :
  validateDateRange Date_parse (CityParams.startDate params) (CityParams.endDate params)
    = None ->
  geocodeCity (CityParams.city params) = Returns (Some geo) ->
  pageByCoords searchEventsByCoords fuel geo (cityRadius params)
               (CityParams.startDate params) (CityParams.endDate params) 1 []
    = (calls, Discovered allEvents label) ->
  snd (byCity fuel params)
    = match allEvents with
      | [] => Resolved (Error (noEventsNear (Geo.display_name geo)
                                 (CityParams.startDate params)
                                 (CityParams.endDate params)))
      | _ :: _ =>
          Resolved (Success
            (buildResult fetchAllEventStandings allEvents (CityParams.minRounds params)
               (Z.max 1 (orElse (CityParams.minEvents params) 1))
               (orElse (CityParams.sortBy params) total_wins)
               (Z.min MAX_LEADERBOARD_LIMIT (Z.max 1 (orElse (CityParams.limit params) 20)))
               (CityParams.startDate params) (CityParams.endDate params)
               (Some (Geo.display_name geo)) None))
      end.
Proof.
  intros Hv Hg Hd. unfold getPlayerLeaderboardByCity. rewrite Hv, Hg.
  fold (cityRadius params). rewrite Hd. now destruct allEvents.
Qed.

Lemma store_discovered fuel params calls allEvents label :
  validateDateRange Date_parse (StoreParams.startDate params) (StoreParams.endDate params)
    = None ->
  pageByStore searchEventsByStore fuel (StoreParams.storeId params)
              (StoreParams.storeLabel params)
              (StoreParams.startDate params) (StoreParams.endDate params) 1 []
    = (calls, Discovered allEvents label) ->
  snd (byStore fuel params)
    = match allEvents with
      | [] => Resolved (Error (noEventsAtStore (StoreParams.storeId params)
                                 (StoreParams.startDate params)
                                 (StoreParams.endDate params)))
      | _ :: _ =>
          Resolved (Success
            (buildResult fetchAllEventStandings allEvents (StoreParams.minRounds params)
               (Z.max 1 (orElse (StoreParams.minEvents params) 1))
               (orElse (StoreParams.sortBy params) total_wins)
               (Z.min MAX_LEADERBOARD_LIMIT (Z.max 1 (orElse (StoreParams.limit params) 20)))
               (StoreParams.startDate params) (StoreParams.endDate params) None
               (Some (orElse label
                        ("Store " ++ string_of_Z (StoreParams.storeId params))%string))))
      end.
Proof.
  intros Hv Hd. unfold getPlayerLeaderboardByStore. rewrite Hv, Hd.
  now destruct allEvents.
Qed.

(** An empty first page ends the discovery with zero events. *)
Lemma empty_first_page_coords fuel geo radius startDate endDate total :
  let q := CoordsQuery.Make (Geo.lat geo) (Geo.lon geo) (Geo.display_name geo)
             radius pastAndInProgress startDate endDate 100 1 in
  searchEventsByCoords q = Returns (SearchOk [] total) ->
  pageByCoords searchEventsByCoords (S fuel) geo radius startDate endDate 1 []
    = ([CallSearchCoords q], Discovered [] None).
Proof. intros q H. cbn [pageByCoords]. fold q. now rewrite H. Qed.

Lemma empty_first_page_store fuel storeId label startDate endDate total :
  let q := StoreQuery.Make storeId label pastAndInProgress startDate endDate 100 1 in
  searchEventsByStore q = Returns (SearchOk [] total) ->
  pageByStore searchEventsByStore (S fuel) storeId label startDate endDate 1 []
    = ([CallSearchStore q], Discovered [] label).
Proof. intros q H. cbn [pageByStore]. fold q. now rewrite H. Qed.

End Discovery.

End LeaderboardFacts.

Module LeaderboardClaims.
Import Js Aggregate Leaderboard LeaderboardSpec AggregateSpec LeaderboardFacts.

(** C4. Validation never throws (it is a total function) and returns an
    error exactly in three cases: a date that does not parse gives the
    invalid-date error; for dates that parse to the calendar days [S]
    and [E], [S] after [E] gives the ordering error, and an inclusive
    span [E - S + 1] above 366 days gives the error that names the
    366-day maximum; otherwise validation passes. Validation makes no
    upstream call, and an entry point whose validation fails returns the
    error before any upstream call. *)
Theorem validateDateRange_contract :
  (forall Date_parse startDate endDate,
      Date_parse (startDate ++ "T00:00:00Z")%string = None \/
      Date_parse (endDate ++ "T23:59:59Z")%string = None ->
      validateDateRange Date_parse startDate endDate
        = Some "Dates must be valid YYYY-MM-DD."%string) /\
  (forall Date_parse startDate endDate S E,
      Date_parse (startDate ++ "T00:00:00Z")%string = Some (msPerDay * S) ->
      Date_parse (endDate ++ "T23:59:59Z")%string = Some (msPerDay * E + 86399000) ->
      validateDateRange Date_parse startDate endDate
        = if E <? S then Some "start_date must be on or before end_date."%string
          else if 366 <? E - S + 1
               then Some "Date range cannot exceed 366 days (about 1 year)."%string
               else None) /\
  (forall Date_parse geocodeCity searchEventsByCoords fetchAllEventStandings
          fuel params msg,
      validateDateRange Date_parse (CityParams.startDate params)
                        (CityParams.endDate params) = Some msg ->
      getPlayerLeaderboardByCity Date_parse geocodeCity searchEventsByCoords
                                 fetchAllEventStandings fuel params
        = ([], Resolved (Error msg))) /\
  (forall Date_parse searchEventsByStore fetchAllEventStandings fuel params msg,
      validateDateRange Date_parse (StoreParams.startDate params)
                        (StoreParams.endDate params) = Some msg ->
      getPlayerLeaderboardByStore Date_parse searchEventsByStore
                                  fetchAllEventStandings fuel params
        = ([], Resolved (Error msg))).
Proof.
  split; [exact validate_invalid|]. split; [exact validate_days|].
  split; [exact city_fails_fast|exact store_fails_fast].
Qed.

Lemma validateDateRange_contract_witness :
  validateDateRange IsoDate.parse "2024-13-01" "2024-12-31"
    = Some "Dates must be valid YYYY-MM-DD."%string /\
  validateDateRange IsoDate.parse "2024-01-01" "2024-12-31" = None /\
  validateDateRange IsoDate.parse "2024-01-01" "2025-01-01"
    = Some "Date range cannot exceed 366 days (about 1 year)."%string /\
  validateDateRange IsoDate.parse "2026-02-01" "2026-01-01"
    = Some "start_date must be on or before end_date."%string /\
  getPlayerLeaderboardByCity IsoDate.parse geocode_detroit no_events_by_coords
                             no_standings 5 inverted_range
    = ([], Resolved (Error "start_date must be on or before end_date.")).
Proof.
  destruct validateDateRange_contract as [Hinv [Hdays [Hcity _]]].
  split; [|split; [|split; [|split]]].
  - apply Hinv. left. reflexivity.
  - apply (Hdays IsoDate.parse "2024-01-01"%string "2024-12-31"%string 19723 20088);
      reflexivity.
  - apply (Hdays IsoDate.parse "2024-01-01"%string "2025-01-01"%string 19723 20089);
      reflexivity.
  - apply (Hdays IsoDate.parse "2026-02-01"%string "2026-01-01"%string 20485 20454);
      reflexivity.
  - apply Hcity. reflexivity.
Defined.

(** C8. When validation passes and the event discovery ends with zero
    events, both entry points resolve to an error whose text says that
    no past or in-progress events were found, near the geocoded place
    or at the store, for the two dates; this happens in particular when
    the first page is empty. When the discovery ends with at least one event they
    resolve to a success, whatever the number of qualifying players. *)
Theorem no_events_is_an_error :
  (forall Date_parse geocodeCity searchEventsByCoords fetchAllEventStandings
          fuel params geo calls label,
      validateDateRange Date_parse (CityParams.startDate params)
                        (CityParams.endDate params) = None ->
      geocodeCity (CityParams.city params) = Returns (Some geo) ->
      pageByCoords searchEventsByCoords fuel geo (cityRadius params)
                   (CityParams.startDate params) (CityParams.endDate params) 1 []
        = (calls, Discovered [] label) ->
      snd (getPlayerLeaderboardByCity Date_parse geocodeCity searchEventsByCoords
                                      fetchAllEventStandings fuel params)
        = Resolved (Error ("No past or in-progress events found near "
                             ++ Geo.display_name geo ++ " for "
                             ++ CityParams.startDate params ++ " – "
                             ++ CityParams.endDate params
                             ++ ". Try a larger radius or different dates.")%string)) /\
  (forall Date_parse searchEventsByStore fetchAllEventStandings
          fuel params calls label,
      validateDateRange Date_parse (StoreParams.startDate params)
                        (StoreParams.endDate params) = None ->
      pageByStore searchEventsByStore fuel (StoreParams.storeId params)
                  (StoreParams.storeLabel params)
                  (StoreParams.startDate params) (StoreParams.endDate params) 1 []
        = (calls, Discovered [] label) ->
      snd (getPlayerLeaderboardByStore Date_parse searchEventsByStore
                                       fetchAllEventStandings fuel params)
        = Resolved (Error ("No past or in-progress events found at store "
                             ++ string_of_Z (StoreParams.storeId params) ++ " for "
                             ++ StoreParams.startDate params ++ " – "
                             ++ StoreParams.endDate params
                             ++ ". Try different dates.")%string)) /\
  (forall searchEventsByCoords fuel geo radius startDate endDate total,
      searchEventsByCoords
        (CoordsQuery.Make (Geo.lat geo) (Geo.lon geo) (Geo.display_name geo)
                          radius pastAndInProgress startDate endDate 100 1)
        = Returns (SearchOk [] total) ->
      snd (pageByCoords searchEventsByCoords (S fuel) geo radius startDate endDate 1 [])
        = Discovered [] None) /\
  (forall searchEventsByStore fuel storeId label startDate endDate total,
      searchEventsByStore
        (StoreQuery.Make storeId label pastAndInProgress startDate endDate 100 1)
        = Returns (SearchOk [] total) ->
      snd (pageByStore searchEventsByStore (S fuel) storeId label startDate endDate 1 [])
        = Discovered [] label) /\
  (forall Date_parse geocodeCity searchEventsByCoords fetchAllEventStandings
          fuel params geo calls e allEvents label,
      validateDateRange Date_parse (CityParams.startDate params)
                        (CityParams.endDate params) = None ->
      geocodeCity (CityParams.city params) = Returns (Some geo) ->
      pageByCoords searchEventsByCoords fuel geo (cityRadius params)
                   (CityParams.startDate params) (CityParams.endDate params) 1 []
        = (calls, Discovered (e :: allEvents) label) ->
      exists result,
        snd (getPlayerLeaderboardByCity Date_parse geocodeCity searchEventsByCoords
                                        fetchAllEventStandings fuel params)
          = Resolved (Success result)) /\
  (forall Date_parse searchEventsByStore fetchAllEventStandings
          fuel params calls e allEvents label,
      validateDateRange Date_parse (StoreParams.startDate params)
                        (StoreParams.endDate params) = None ->
      pageByStore searchEventsByStore fuel (StoreParams.storeId params)
                  (StoreParams.storeLabel params)
                  (StoreParams.startDate params) (StoreParams.endDate params) 1 []
        = (calls, Discovered (e :: allEvents) label) ->
      exists result,
        snd (getPlayerLeaderboardByStore Date_parse searchEventsByStore
                                         fetchAllEventStandings fuel params)
          = Resolved (Success result)).
Proof.
  split; [|split; [|split; [|split; [|split]]]].
  - intros Date_parse geocodeCity searchC fetchAll fuel params geo calls label Hv Hg Hd.
    exact (city_discovered Date_parse geocodeCity searchC fetchAll fuel params geo
             calls [] label Hv Hg Hd).
  - intros Date_parse searchS fetchAll fuel params calls label Hv Hd.
    exact (store_discovered Date_parse searchS fetchAll fuel params calls [] label Hv Hd).
  - intros searchC fuel geo radius startDate endDate total H.
    now rewrite (empty_first_page_coords searchC fuel geo radius startDate endDate total H).
  - intros searchS fuel storeId label startDate endDate total H.
    now rewrite (empty_first_page_store searchS fuel storeId label startDate endDate total H).
  - intros Date_parse geocodeCity searchC fetchAll fuel params geo calls e allEvents
           label Hv Hg Hd.
    eexists.
    exact (city_discovered Date_parse geocodeCity searchC fetchAll fuel params geo
             calls (e :: allEvents) label Hv Hg Hd).
  - intros Date_parse searchS fetchAll fuel params calls e allEvents label Hv Hd.
    eexists.
    exact (store_discovered Date_parse searchS fetchAll fuel params calls
             (e :: allEvents) label Hv Hd).
Qed.

Lemma no_events_is_an_error_witness :
  snd (getPlayerLeaderboardByCity IsoDate.parse geocode_detroit no_events_by_coords
                                  no_standings 3 january_in_detroit)
    = Resolved (Error "No past or in-progress events found near Detroit, Wayne County, Michigan, United States for 2025-01-01 – 2025-01-31. Try a larger radius or different dates.") /\
  snd (getPlayerLeaderboardByStore IsoDate.parse no_events_by_store
                                   no_standings 3 january_at_store)
    = Resolved (Error "No past or in-progress events found at store 4622 for 2025-01-01 – 2025-01-31. Try different dates.").
Proof.
  destruct no_events_is_an_error as [Hcity [Hstore _]].
  split.
  - apply (Hcity IsoDate.parse geocode_detroit no_events_by_coords no_standings
                 3%nat january_in_detroit detroit
                 [CallSearchCoords
                    (CoordsQuery.Make (Geo.lat detroit) (Geo.lon detroit)
                       (Geo.display_name detroit) 50 pastAndInProgress
                       "2025-01-01" "2025-01-31" 100 1)] None); reflexivity.
  - apply (Hstore IsoDate.parse no_events_by_store no_standings
                  3%nat january_at_store
                  [CallSearchStore
                     (StoreQuery.Make 4622 None pastAndInProgress
                        "2025-01-01" "2025-01-31" 100 1)] None); reflexivity.
Defined.

End LeaderboardClaims.

(** ** Fetch with retries *)

Module RetryFacts.
Import Retry RetrySpec.

Section Facts.
Variable fetch : Z -> Response + Err.
Variables (maxRetries retryDelayMs : Z).

Local Abbreviation step_of :=
  (fun i : nat => [Fetch (Z.of_nat i); Sleep (retryDelayMs * 2 ^ Z.of_nat i)]).

Lemma retryable_status_In (res : Response) :
  existsb (Z.eqb (status res)) RETRYABLE_STATUS = true <-> In (status res) RETRYABLE_STATUS.
Proof.
  rewrite existsb_exists. split.
  - intros [x [Hin Heq]]. apply Z.eqb_eq in Heq. now subst.
  - intros Hin. exists (status res). split; [easy|apply Z.eqb_refl].
Qed.

(** The loop stops at the first attempt that is final or is the last
    one allowed. *)
Lemma attempts_spec (left a : nat) (lastError : option Err) :
  Z.of_nat left = maxRetries + 1 - Z.of_nat a -> (0 < left)%nat ->
  exists k : nat,
    Z.of_nat (a + k) <= maxRetries /\
    (forall i, (a <= i < a + k)%nat -> transient fetch (Z.of_nat i)) /\
    (Z.of_nat (a + k) = maxRetries \/ final fetch (Z.of_nat (a + k))) /\
    attempts fetch maxRetries retryDelayMs left (Z.of_nat a) lastError
    = (flat_map step_of (seq a k) ++ [Fetch (Z.of_nat (a + k))],
       settles fetch (Z.of_nat (a + k))).
Proof.
  revert a lastError. induction left as [|left IH]; intros a lastError Hleft Hpos; [lia|].
  cbn [attempts]. unfold final, transient, settles.
  assert (forall err',
             Z.of_nat a < maxRetries ->
             transient fetch (Z.of_nat a) ->
             exists k : nat,
               Z.of_nat (a + k) <= maxRetries /\
               (forall i, (a <= i < a + k)%nat -> transient fetch (Z.of_nat i)) /\
               (Z.of_nat (a + k) = maxRetries \/ final fetch (Z.of_nat (a + k))) /\
               (let '(trace, o) :=
                  attempts fetch maxRetries retryDelayMs left (Z.of_nat a + 1) err' in
                (Fetch (Z.of_nat a) :: Sleep (retryDelayMs * 2 ^ Z.of_nat a) :: trace, o))
               = (flat_map step_of (seq a k) ++ [Fetch (Z.of_nat (a + k))],
                  settles fetch (Z.of_nat (a + k)))) as Hnext.
  { intros err' Hlt Htr.
    destruct (IH (S a) err' ltac:(lia) ltac:(lia)) as [k [Hk [Hall [Hfin Heq]]]].
    exists (S k). replace (a + S k)%nat with (S a + k)%nat by lia.
    split; [easy|]. split; [|split; [easy|]].
    - intros i Hi. destruct (decide (i = a)) as [->|Hne]; [easy|]. apply Hall. lia.
    - replace (Z.of_nat a + 1) with (Z.of_nat (S a)) by lia. rewrite Heq.
      reflexivity. }
  destruct (fetch (Z.of_nat a)) as [res|err] eqn:Ef.
  - destruct (ok res) eqn:Eok.
    + exists 0%nat. rewrite Nat.add_0_r, Ef, Eok. simpl.
      split; [lia|]. split; [intros i Hi; lia|]. split; [|reflexivity].
      right. intros [H _]. discriminate.
    + destruct (Z.ltb_spec (Z.of_nat a) maxRetries) as [Hlt|Hge];
        destruct (existsb (Z.eqb (status res)) RETRYABLE_STATUS) eqn:Est; cbn [andb].
      * apply Hnext; [easy|]. unfold transient. rewrite Ef.
        split; [easy|]. now apply retryable_status_In.
      * exists 0%nat. rewrite Nat.add_0_r, Ef. simpl.
        split; [lia|]. split; [intros i Hi; lia|]. split; [|reflexivity].
        right. intros [_ H]. apply retryable_status_In in H. congruence.
      * exists 0%nat. rewrite Nat.add_0_r, Ef. simpl.
        split; [lia|]. split; [intros i Hi; lia|]. split; [left; lia|reflexivity].
      * exists 0%nat. rewrite Nat.add_0_r, Ef. simpl.
        split; [lia|]. split; [intros i Hi; lia|]. split; [left; lia|reflexivity].
  - destruct (Z.ltb_spec (Z.of_nat a) maxRetries) as [Hlt|Hge];
      destruct (isRetryableError err) eqn:Eerr; cbn [andb].
    + apply Hnext; [easy|]. unfold transient. now rewrite Ef.
    + exists 0%nat. rewrite Nat.add_0_r, Ef. simpl.
      split; [lia|]. split; [intros i Hi; lia|]. split; [right; congruence|reflexivity].
    + exists 0%nat. rewrite Nat.add_0_r, Ef. simpl.
      split; [lia|]. split; [intros i Hi; lia|]. split; [left; lia|reflexivity].
    + exists 0%nat. rewrite Nat.add_0_r, Ef. simpl.
      split; [lia|]. split; [intros i Hi; lia|]. split; [left; lia|reflexivity].
Qed.

End Facts.

Lemma slept_app t1 t2 : slept (t1 ++ t2) = slept t1 + slept t2.
Proof.
  unfold slept. induction t1 as [|[a|ms] t1 IH]; simpl; [easy|easy|].
  fold (slept (t1 ++ t2)) (slept t1) in *. unfold slept in *. lia.
Qed.

Lemma requests_app t1 t2 : requests (t1 ++ t2) = (requests t1 + requests t2)%nat.
Proof. unfold requests. now rewrite filter_app, length_app. Qed.

Lemma backoff_steps d (a k : nat) :
  slept (flat_map (fun i : nat => [Fetch (Z.of_nat i); Sleep (d * 2 ^ Z.of_nat i)])
                  (seq a k))
  = d * (2 ^ Z.of_nat (a + k) - 2 ^ Z.of_nat a) /\
  requests (flat_map (fun i : nat => [Fetch (Z.of_nat i); Sleep (d * 2 ^ Z.of_nat i)])
                     (seq a k)) = k.
Proof.
  revert a. induction k as [|k IH]; intros a.
  - rewrite Nat.add_0_r. simpl. split; [lia|easy].
  - destruct (IH (S a)) as [IH1 IH2]. cbn [seq flat_map].
    rewrite slept_app, requests_app, IH1, IH2. split; [|easy].
    replace (S a + k)%nat with (a + S k)%nat by lia.
    replace (Z.of_nat (S a)) with (Z.of_nat a + 1) by lia.
    rewrite Z.pow_add_r by lia. change (2 ^ 1) with 2.
    unfold slept. cbn [fold_right]. ring.
Qed.

Lemma backoff_cost d (k : nat) :
  slept (backoff d k) = d * (2 ^ Z.of_nat k - 1) /\ requests (backoff d k) = S k.
Proof.
  unfold backoff. destruct (backoff_steps d 0 k) as [H1 H2].
  rewrite slept_app, requests_app, H1, H2. cbn [Nat.add].
  change (2 ^ Z.of_nat 0) with 1.
  unfold slept, requests. cbn [fold_right List.filter length]. split; lia.
Qed.

End RetryFacts.

Module RetryProperties.
Import Retry RetrySpec RetryFacts.

(** With [maxRetries >= 0] the function makes the attempts 0, 1, ..., k
    with [k <= maxRetries], sleeping [retryDelayMs * 2^i] after attempt
    [i]; each attempt before [k] failed with a status among 429, 502,
    503, 504 or with a retryable exception, and attempt [k] either is
    not such a failure or is attempt number [maxRetries]. The promise
    does what attempt [k] did: it resolves with its response, also a
    failing one, or rejects with its exception. With [maxRetries < 0] no
    request is made and the promise rejects with [undefined]. *)
Theorem fetchWithRetry_stops_at_first_final_attempt
    (fetch : Z -> Response + Err) (maxRetries retryDelayMs : Z) :
  let run := fetchWithRetry fetch (MkOptions (Some maxRetries) (Some retryDelayMs)) in
  (0 <= maxRetries ->
   exists k : nat,
     Z.of_nat k <= maxRetries /\
     (forall i, (i < k)%nat -> transient fetch (Z.of_nat i)) /\
     (Z.of_nat k = maxRetries \/ final fetch (Z.of_nat k)) /\
     run = (backoff retryDelayMs k, settles fetch (Z.of_nat k))) /\
  (maxRetries < 0 -> run = ([], Rejected None)).
Proof.
  cbv zeta. unfold fetchWithRetry. cbn [Retry.maxRetries Retry.retryDelayMs]. split.
  - intros Hmax.
    destruct (attempts_spec fetch maxRetries retryDelayMs (Z.to_nat (maxRetries + 1))
                            0 None ltac:(simpl; lia) ltac:(lia))
      as [k [Hk [Hall [Hfin Heq]]]].
    exists k. split; [easy|]. split; [|split; [easy|]].
    + intros i Hi. apply Hall. lia.
    + exact Heq.
  - intros Hneg. replace (Z.to_nat (maxRetries + 1)) with 0%nat by lia. reflexivity.
Qed.

Lemma fetchWithRetry_stops_at_first_final_attempt_witness :
  fetchWithRetry flaky (MkOptions (Some 3) (Some 1000))
    = ([Fetch 0; Sleep 1000; Fetch 1; Sleep 2000; Fetch 2], Resolved (MkResponse true 200)) /\
  fetchWithRetry flaky (MkOptions (Some (-1)) (Some 1000)) = ([], Rejected None) /\
  exists k : nat,
    Z.of_nat k <= 3 /\
    (forall i, (i < k)%nat -> transient flaky (Z.of_nat i)) /\
    (Z.of_nat k = 3 \/ final flaky (Z.of_nat k)) /\
    fetchWithRetry flaky (MkOptions (Some 3) (Some 1000))
      = (backoff 1000 k, settles flaky (Z.of_nat k)).
Proof.
  split; [reflexivity|]. split.
  - apply (proj2 (fetchWithRetry_stops_at_first_final_attempt flaky (-1) 1000)). lia.
  - apply (proj1 (fetchWithRetry_stops_at_first_final_attempt flaky 3 1000)). lia.
Defined.

(** The number of requests is at most [maxRetries + 1] and the total
    time slept is at most [retryDelayMs * (2^maxRetries - 1)]; with the
    default options that is at most 4 requests and 7 seconds. *)
Theorem fetchWithRetry_is_bounded (fetch : Z -> Response + Err) :
  (forall maxRetries retryDelayMs,
      0 <= maxRetries -> 0 <= retryDelayMs ->
      let trace := fst (fetchWithRetry fetch
                          (MkOptions (Some maxRetries) (Some retryDelayMs))) in
      Z.of_nat (requests trace) <= maxRetries + 1 /\
      0 <= slept trace <= retryDelayMs * (2 ^ maxRetries - 1)) /\
  (let trace := fst (fetchWithRetry fetch (MkOptions None None)) in
   (requests trace <= 4)%nat /\ 0 <= slept trace <= 7000).
Proof.
  assert (forall maxRetries retryDelayMs,
             0 <= maxRetries -> 0 <= retryDelayMs ->
             let trace := fst (attempts fetch maxRetries retryDelayMs
                                        (Z.to_nat (maxRetries + 1)) 0 None) in
             Z.of_nat (requests trace) <= maxRetries + 1 /\
             0 <= slept trace <= retryDelayMs * (2 ^ maxRetries - 1)) as Hgen.
  { intros maxRetries retryDelayMs Hmax Hdelay. cbv zeta.
    destruct (attempts_spec fetch maxRetries retryDelayMs (Z.to_nat (maxRetries + 1))
                            0 None ltac:(simpl; lia) ltac:(lia))
      as [k [Hk [_ [_ Heq]]]].
    assert (attempts fetch maxRetries retryDelayMs (Z.to_nat (maxRetries + 1)) 0 None
            = (backoff retryDelayMs k, settles fetch (Z.of_nat k))) as Heq'
      by exact Heq.
    cbn [Nat.add] in Hk. rewrite Heq'. cbn [fst].
    destruct (backoff_cost retryDelayMs k) as [-> ->].
    assert (1 <= 2 ^ Z.of_nat k <= 2 ^ maxRetries) as Hpow.
    { split; [|apply Z.pow_le_mono_r; lia].
      change 1 with (2 ^ 0). apply Z.pow_le_mono_r; lia. }
    split; [lia|]. split; [nia|]. apply Z.mul_le_mono_nonneg_l; lia. }
  split.
  - intros maxRetries retryDelayMs Hmax Hdelay. now apply Hgen.
  - cbv zeta. unfold fetchWithRetry. cbn [Retry.maxRetries Retry.retryDelayMs].
    destruct (Hgen DEFAULT_MAX_RETRIES DEFAULT_RETRY_DELAY_MS) as [H1 H2];
      [unfold DEFAULT_MAX_RETRIES; lia|unfold DEFAULT_RETRY_DELAY_MS; lia|].
    unfold DEFAULT_MAX_RETRIES, DEFAULT_RETRY_DELAY_MS in *.
    change (1000 * (2 ^ 3 - 1)) with 7000 in H2. split; [lia|exact H2].
Qed.

Lemma fetchWithRetry_is_bounded_witness :
  (Z.of_nat (requests (fst (fetchWithRetry dead (MkOptions (Some 2) (Some 500))))) <= 2 + 1 /\
   0 <= slept (fst (fetchWithRetry dead (MkOptions (Some 2) (Some 500))))
     <= 500 * (2 ^ 2 - 1)) /\
  fetchWithRetry dead (MkOptions (Some 2) (Some 500))
    = ([Fetch 0; Sleep 500; Fetch 1; Sleep 1000; Fetch 2], Rejected (Some aborted)).
Proof.
  split; [|reflexivity].
  apply (proj1 (fetchWithRetry_is_bounded dead) 2 500); lia.
Defined.

End RetryProperties.

(** ** Event statuses *)

Module StatusesFacts.
Import Statuses.

Lemma filter_all_free (statuses : list string) :
  ~ In "all"%string (List.filter (fun s => negb (String.eqb s "all")) statuses).
Proof.
  intros H. apply filter_In in H as [_ H]. now rewrite String.eqb_refl in H.
Qed.

Lemma filter_all_id (statuses : list string) :
  existsb (fun s => String.eqb s "all") statuses = false ->
  List.filter (fun s => negb (String.eqb s "all")) statuses = statuses.
Proof.
  induction statuses as [|s l IH]; simpl; [easy|].
  destruct (String.eqb s "all"); simpl; [easy|]. intros H. now rewrite IH.
Qed.

End StatusesFacts.

Module StatusesProperties.
Import Statuses StatusesFacts.

(** The expansion is never empty and never contains ["all"], every
    status it returns is one of the input or one of the three API
    statuses, and expanding twice is the same as expanding once. *)
Theorem expandStatusesForApi_normalises (statuses : list string) :
  expandStatusesForApi statuses <> [] /\
  ~ In "all"%string (expandStatusesForApi statuses) /\
  (forall s, In s (expandStatusesForApi statuses) ->
             In s statuses \/ In s API_STATUSES) /\
  expandStatusesForApi (expandStatusesForApi statuses) = expandStatusesForApi statuses.
Proof.
  unfold expandStatusesForApi.
  destruct statuses as [|s0 l]; [repeat split; try easy; [simpl; intuition discriminate|auto]|].
  cbn [length Nat.eqb orb].
  destruct (existsb (fun s => String.eqb s "all") (s0 :: l)) eqn:E.
  - repeat split; try easy; [simpl; intuition discriminate|auto].
  - rewrite (filter_all_id (s0 :: l) E). cbn [length Nat.eqb orb]. rewrite E.
    rewrite (filter_all_id (s0 :: l) E). repeat split; try easy; [|auto].
    intros Hin. apply (filter_all_free (s0 :: l)).
    now rewrite (filter_all_id (s0 :: l) E).
Qed.

End StatusesProperties.

(** ** The filter maps *)

Module FilterMapsFacts.
Import JsMore FilterMaps FilterMapsSpec JsMapFacts.

Lemma truthy_idOf m n :
  truthy (JsMap.get n m) = match idOf m n with Some _ => true | None => false end.
Proof. unfold idOf. now destruct (JsMap.get n m) as [[|c s]|]. Qed.

Lemma pushed_idOf m n :
  truthy (JsMap.get n m) = true ->
  match JsMap.get n m with Some i => [i] | None => [] end
  = match idOf m n with Some i => [i] | None => [] end.
Proof. unfold idOf. now destruct (JsMap.get n m) as [[|c s]|]. Qed.

Lemma resolveLoop_spec kind m names ids warnings :
  resolveLoop kind m names ids warnings
  = (ids ++ knownIds m names,
     warnings ++ map (warnUnknown kind) (unknownNames m names)).
Proof.
  revert ids warnings. induction names as [|n names IH]; intros ids warnings.
  - simpl. now rewrite !app_nil_r.
  - cbn [resolveLoop knownIds unknownNames flat_map List.filter].
    fold (knownIds m names) (unknownNames m names).
    destruct (truthy (JsMap.get n m)) eqn:E.
    + rewrite IH, (pushed_idOf m n E). rewrite truthy_idOf in E.
      destruct (idOf m n); [|discriminate]. now rewrite <- app_assoc.
    + rewrite IH. rewrite truthy_idOf in E.
      destruct (idOf m n); [discriminate|]. cbn [map app]. now rewrite <- app_assoc.
Qed.

Lemma strictLoop_spec m names invalid ids :
  strictLoop m names invalid ids
  = (invalid ++ unknownNames m names, ids ++ knownIds m names).
Proof.
  revert ids invalid. induction names as [|n names IH]; intros ids invalid.
  - simpl. now rewrite !app_nil_r.
  - cbn [strictLoop knownIds unknownNames flat_map List.filter].
    fold (knownIds m names) (unknownNames m names).
    destruct (truthy (JsMap.get n m)) eqn:E.
    + rewrite IH, (pushed_idOf m n E). rewrite truthy_idOf in E.
      destruct (idOf m n); [|discriminate]. now rewrite <- app_assoc.
    + rewrite IH. rewrite truthy_idOf in E.
      destruct (idOf m n); [discriminate|]. cbn [app]. now rewrite <- app_assoc.
Qed.

Lemma known_unknown_length m names :
  (length (knownIds m names) + length (unknownNames m names) = length names)%nat.
Proof.
  induction names as [|n names IH]; [easy|].
  cbn [knownIds unknownNames flat_map List.filter].
  fold (knownIds m names) (unknownNames m names).
  destruct (idOf m n); simpl; lia.
Qed.

(** *** [new Map(pairs)] *)

Lemma find_over_app {A} (f : A -> bool) (l1 l2 : list A) :
  find f (l1 ++ l2) = match find f l1 with Some x => Some x | None => find f l2 end.
Proof. induction l1 as [|a l1 IH]; simpl; [easy|]. now destruct (f a). Qed.

Lemma Map_of_from (pairs m : list (string * string)) key :
  JsMap.get key (fold_left (fun m kv => JsMap.set (fst kv) (snd kv) m) pairs m)
  = match lastOf key pairs with
    | Some v => Some v
    | None => JsMap.get key m
    end.
Proof.
  unfold lastOf. revert m. induction pairs as [|[k v] pairs IH]; intros m; [easy|].
  cbn [fold_left fst snd rev]. rewrite IH, find_over_app.
  destruct (find (fun kv => String.eqb (fst kv) key) (rev pairs)) as [kv|]; [easy|].
  cbn [option_map find fst]. rewrite get_set.
  destruct (String.eqb k key); reflexivity.
Qed.

Lemma Map_of_get pairs key : JsMap.get key (Map_of pairs) = lastOf key pairs.
Proof.
  unfold Map_of. rewrite Map_of_from. simpl. now destruct (lastOf key pairs).
Qed.

Lemma Map_of_unique_from (pairs m : list (string * string)) :
  NoDup (JsMap.keys m ++ map fst pairs) ->
  fold_left (fun m kv => JsMap.set (fst kv) (snd kv) m) pairs m = m ++ pairs.
Proof.
  revert m. induction pairs as [|[k v] pairs IH]; intros m Hnd.
  - now rewrite app_nil_r.
  - cbn [fold_left fst snd]. rewrite store_set_new.
    + rewrite IH; [now rewrite <- app_assoc|].
      unfold JsMap.keys in *. rewrite map_app, <- app_assoc. exact Hnd.
    + apply store_get_None_iff. intros Hin.
      apply NoDup_remove_2 in Hnd. apply Hnd, in_or_app. now left.
Qed.

(** With pairwise distinct keys the map holds the pairs as given. *)
Lemma Map_of_unique pairs : NoDup (map fst pairs) -> Map_of pairs = pairs.
Proof. intros H. unfold Map_of. now rewrite Map_of_unique_from. Qed.

Lemma nameOfId_In entries name id :
  NoDup (map snd entries) -> In (name, id) entries -> nameOfId entries id = Some name.
Proof.
  induction entries as [|[n i] entries IH]; [easy|]. cbn [map snd nameOfId].
  intros Hnd [Heq|Hin]; apply NoDup_cons_iff in Hnd as [Hi Hnd].
  - injection Heq as -> ->. now rewrite String.eqb_refl.
  - destruct (String.eqb_spec i id) as [->|Hne]; [|auto].
    exfalso. apply Hi. apply in_map_iff. now exists (name, id).
Qed.

Lemma nameOfId_None entries id :
  (forall kv, In kv entries -> snd kv <> id) -> nameOfId entries id = None.
Proof.
  induction entries as [|[n i] entries IH]; [easy|]. intros H. cbn [nameOfId].
  destruct (String.eqb_spec i id) as [->|Hne].
  - exfalso. now apply (H (n, id)); [left|].
  - apply IH. intros kv Hin. apply H. now right.
Qed.

Lemma Map_of_values pairs kv :
  In kv (Map_of pairs) -> exists kv', In kv' pairs /\ snd kv' = snd kv.
Proof.
  unfold Map_of.
  assert (forall m,
             In kv (fold_left (fun m kv => JsMap.set (fst kv) (snd kv) m) pairs m) ->
             In kv m \/ exists kv', In kv' pairs /\ snd kv' = snd kv) as H.
  { induction pairs as [|[k v] pairs IH]; intros m Hin; [now left|].
    cbn [fold_left fst snd] in Hin. apply IH in Hin as [Hin|[kv' [Hin Heq]]].
    - clear IH. induction m as [|[k0 v0] m IHm]; simpl in Hin.
      + destruct Hin as [<-|[]]. right. exists (k, v). split; [now left|easy].
      + destruct (String.eqb k0 k).
        * destruct Hin as [<-|Hin]; [|left; now right].
          right. exists (k, v). split; [now left|easy].
        * destruct Hin as [<-|Hin]; [left; now left|].
          destruct (IHm Hin) as [H|H]; [left; now right|now right].
    - right. exists kv'. split; [now right|easy]. }
  intros Hin. destruct (H [] Hin) as [[]|H']; exact H'.
Qed.

End FilterMapsFacts.

Module FilterMapsProperties.
Import JsMore FilterMaps FilterMapsSpec JsMapFacts FilterMapsFacts.

(** The resolvers return, in the order of the names, the ids of the
    names whose id in the map is a non-empty string; the lenient ones
    write one warning for each other name, and the strict ones throw an
    error that lists those names, separated by a comma and a space,
    exactly when there is one. Each name gives an id or is reported. *)
Theorem strict_resolvers_throw_on_unknown_names (maps : Maps) (names : list string) :
  resolveFormatIds maps names
    = (knownIds (FORMAT_MAP maps) names,
       map (warnUnknown "format") (unknownNames (FORMAT_MAP maps) names)) /\
  resolveCategoryIds maps names
    = (knownIds (CATEGORY_MAP maps) names,
       map (warnUnknown "category") (unknownNames (CATEGORY_MAP maps) names)) /\
  resolveFormatIdsStrict maps names
    = match unknownNames (FORMAT_MAP maps) names with
      | [] => Return (knownIds (FORMAT_MAP maps) names)
      | invalid =>
          ThrowError ("Unknown format(s). Use list_filters for valid names: "
                        ++ join ", " invalid)%string
      end /\
  resolveCategoryIdsStrict maps names
    = match unknownNames (CATEGORY_MAP maps) names with
      | [] => Return (knownIds (CATEGORY_MAP maps) names)
      | invalid =>
          ThrowError ("Unknown category(s). Use list_filters for valid names: "
                        ++ join ", " invalid)%string
      end /\
  (length (knownIds (FORMAT_MAP maps) names)
   + length (unknownNames (FORMAT_MAP maps) names) = length names)%nat /\
  (length (knownIds (CATEGORY_MAP maps) names)
   + length (unknownNames (CATEGORY_MAP maps) names) = length names)%nat.
Proof.
  unfold resolveFormatIds, resolveCategoryIds, resolveFormatIdsStrict,
    resolveCategoryIdsStrict.
  rewrite !resolveLoop_spec, !strictLoop_spec. cbn [app].
  repeat split; try apply known_unknown_length.
  - now destruct (unknownNames (FORMAT_MAP maps) names).
  - now destruct (unknownNames (CATEGORY_MAP maps) names).
Qed.

(** After [updateFilterMaps(formats, categories)] a name resolves to the
    id of the last format, or category, of the list that bears the
    name, and to nothing when no element bears it or when that id is the
    empty string. *)
Theorem updateFilterMaps_last_name_wins (formats categories : list Named)
    (key : string) :
  let maps := updateFilterMaps formats categories in
  JsMap.get key (FORMAT_MAP maps) = lastOf key (map (fun f => (name f, id f)) formats) /\
  JsMap.get key (CATEGORY_MAP maps)
    = lastOf key (map (fun c => (name c, id c)) categories) /\
  fst (resolveFormatIds maps [key])
    = match lastOf key (map (fun f => (name f, id f)) formats) with
      | Some (String c s) => [String c s]
      | _ => []
      end /\
  fst (resolveCategoryIds maps [key])
    = match lastOf key (map (fun c => (name c, id c)) categories) with
      | Some (String c s) => [String c s]
      | _ => []
      end.
Proof.
  cbv zeta. unfold updateFilterMaps, resolveFormatIds, resolveCategoryIds.
  cbn [FORMAT_MAP CATEGORY_MAP]. rewrite !resolveLoop_spec. cbn [fst app].
  unfold knownIds, idOf. cbn [flat_map]. rewrite !app_nil_r, !Map_of_get.
  repeat split.
  - now destruct (lastOf key _) as [[|c s]|].
  - now destruct (lastOf key _) as [[|c s]|].
Qed.

(** When the categories given to [updateFilterMaps] have pairwise
    distinct names and pairwise distinct ids, [getCategoryName] of the
    id of a category is its name, and resolving that name gives back
    the id when it is not empty. An id that no category has is returned
    unchanged. *)
Theorem getCategoryName_inverts_resolution (formats categories : list Named) :
  let maps := updateFilterMaps formats categories in
  (NoDup (map name categories) -> NoDup (map id categories) ->
   forall c, In c categories ->
     getCategoryName maps (id c) = name c /\
     (id c <> EmptyString -> resolveCategoryIds maps [name c] = ([id c], []))) /\
  (forall templateId,
      (forall c, In c categories -> id c <> templateId) ->
      getCategoryName maps templateId = templateId).
Proof.
  cbv zeta. split.
  - intros Hnames Hids c Hc.
    unfold getCategoryName, resolveCategoryIds, updateFilterMaps. cbn [CATEGORY_MAP].
    set (pairs := map (fun c => (name c, id c)) categories).
    assert (map fst pairs = map name categories) as Hfst
      by (unfold pairs; rewrite map_map; reflexivity).
    assert (map snd pairs = map id categories) as Hsnd
      by (unfold pairs; rewrite map_map; reflexivity).
    assert (In (name c, id c) pairs) as Hin
      by (unfold pairs; apply in_map_iff; now exists c).
    rewrite Map_of_unique by now rewrite Hfst. split.
    + rewrite (nameOfId_In pairs (name c) (id c)); [easy|now rewrite Hsnd|easy].
    + intros Hne. rewrite resolveLoop_spec.
      unfold knownIds, unknownNames, idOf. cbn [flat_map List.filter app].
      rewrite (In_get (name c) (id c) pairs); [|unfold JsMap.keys; now rewrite Hfst|easy].
      now destruct (id c).
  - intros templateId Hnone. unfold getCategoryName, updateFilterMaps.
    cbn [CATEGORY_MAP]. rewrite nameOfId_None; [easy|].
    intros kv Hin. apply Map_of_values in Hin as [kv' [Hin Heq]].
    apply in_map_iff in Hin as [c [<- Hc]]. rewrite <- Heq. cbn [snd].
    now apply Hnone.
Qed.

Lemma getCategoryName_inverts_resolution_witness :
  let maps := updateFilterMaps [constructed; sealed] [league; championship] in
  getCategoryName maps "c-9" = "Store Championship"%string /\
  resolveCategoryIds maps ["Store Championship"%string] = (["c-9"%string], []) /\
  getCategoryName maps "c-404" = "c-404"%string.
Proof.
  cbv zeta.
  destruct (getCategoryName_inverts_resolution [constructed; sealed] [league; championship])
    as [Hknown Hunknown].
  destruct (Hknown ltac:(repeat constructor; simpl; intuition discriminate)
                   ltac:(repeat constructor; simpl; intuition discriminate)
                   championship ltac:(simpl; auto)) as [Hname Hid].
  split; [exact Hname|]. split; [apply Hid; discriminate|].
  apply Hunknown. intros c [<-|[<-|[]]]; discriminate.
Defined.

End FilterMapsProperties.

(** ** Pages of standings *)

Module PaginationFacts.
Import JsMore Pagination PaginationSpec.

(** A slice that starts at a position that is not negative. *)
Lemma Array_slice_from {A} (start size : Z) (l : list A) :
  0 <= start -> 0 <= size ->
  Array_slice start (start + size) l
  = firstn (Z.to_nat size) (skipn (Z.to_nat start) l).
Proof.
  intros Hstart Hsize. unfold Array_slice, relative_index.
  destruct (Z.ltb_spec start 0); [lia|]. destruct (Z.ltb_spec (start + size) 0); [lia|].
  set (len := Z.of_nat (length l)).
  destruct (Z.le_gt_cases len start) as [Hout|Hin].
  - rewrite !Z.min_r by lia.
    rewrite !(skipn_all2 l) by lia. now rewrite !firstn_nil.
  - rewrite (Z.min_l start) by lia.
    destruct (Z.le_gt_cases (start + size) len) as [Hfit|Hcut].
    + rewrite Z.min_l by lia. f_equal. lia.
    + rewrite Z.min_r by lia.
      rewrite !firstn_all2; [easy| |]; rewrite length_skipn; lia.
Qed.

(** The ceiling of a quotient, with a positive divisor. *)
Lemma Math_ceil_div_spec (a b q : Z) : 0 < b -> (q < Math_ceil_div a b <-> q * b < a).
Proof.
  intros Hb. unfold Math_ceil_div.
  pose proof (Z.div_mod (- a) b ltac:(lia)) as Hdm.
  pose proof (Z.mod_pos_bound (- a) b Hb) as Hmod. nia.
Qed.

Lemma results_paginate standings page pageSize :
  StandingsResponse.results (paginateStandings standings page pageSize)
  = firstn (Z.to_nat (Z.max 1 pageSize))
           (skipn (Z.to_nat ((Z.max 1 page - 1) * Z.max 1 pageSize)) standings).
Proof.
  unfold paginateStandings. cbn [StandingsResponse.results].
  apply Array_slice_from; nia.
Qed.

Lemma pages_concat {A} (s n : nat) (l : list A) :
  concat (map (fun p => firstn s (skipn ((p - 1) * s) l)) (seq 1 n)) = firstn (n * s) l.
Proof.
  induction n as [|n IH]; [easy|].
  rewrite seq_S, map_app, concat_app, IH. cbn [map concat Nat.add].
  rewrite app_nil_r. replace (S n - 1)%nat with n by lia.
  rewrite take_take_drop. f_equal. lia.
Qed.

Lemma next_paginate standings page pageSize :
  StandingsResponse.next_page_number (paginateStandings standings page pageSize)
  = (if Z.max 1 page * Z.max 1 pageSize <? Z.of_nat (length standings)
     then Some (Z.max 1 page + 1) else None).
Proof.
  unfold paginateStandings. cbn [StandingsResponse.next_page_number].
  set (sp := Z.max 1 page). set (ss := Z.max 1 pageSize). set (len := length standings).
  pose proof (Math_ceil_div_spec (Z.of_nat len) ss sp ltac:(unfold ss; lia)) as Hnext.
  assert (1 <= sp) as Hsp by (unfold sp; lia).
  destruct (Z.ltb_spec sp (Z.max 1 (Math_ceil_div (Z.of_nat len) ss)));
    destruct (Z.ltb_spec (sp * ss) (Z.of_nat len)); try easy; exfalso; lia.
Qed.

Lemma length_paginate standings page pageSize :
  length (StandingsResponse.results (paginateStandings standings page pageSize))
  = Nat.min (Z.to_nat (Z.max 1 pageSize))
            (length standings - Z.to_nat ((Z.max 1 page - 1) * Z.max 1 pageSize)).
Proof. now rewrite results_paginate, length_firstn, length_skipn. Qed.

(** What a caller that walks the pages reads. *)
Lemma paginateStandings_fields standings page pageSize :
  StandingsResponse.results (paginateStandings standings page pageSize)
    = firstn (Z.to_nat (Z.max 1 pageSize))
             (skipn (Z.to_nat ((Z.max 1 page - 1) * Z.max 1 pageSize)) standings) /\
  StandingsResponse.next_page_number (paginateStandings standings page pageSize)
    = (if Z.max 1 page * Z.max 1 pageSize <? Z.of_nat (length standings)
       then Some (Z.max 1 page + 1) else None) /\
  (Z.max 1 page * Z.max 1 pageSize < Z.of_nat (length standings) ->
   Z.of_nat (length (StandingsResponse.results
                       (paginateStandings standings page pageSize)))
   = Z.max 1 pageSize).
Proof.
  split; [apply results_paginate|]. split; [apply next_paginate|].
  intros H. rewrite length_paginate. nia.
Qed.

End PaginationFacts.

Module PaginationProperties.
Import JsMore Pagination PaginationSpec PaginationFacts.

(** The pages 1, 2, ..., [totalPages] of a list, taken in order, are
    the list: no entry is lost, repeated or moved, whatever the page
    size. *)
Theorem paginateStandings_pages_partition (standings : list StandingEntry.t)
    (pageSize : Z) :
  concat (map (fun p => StandingsResponse.results
                          (paginateStandings standings (Z.of_nat p) pageSize))
              (seq 1 (Z.to_nat (totalPages standings pageSize))))
  = standings.
Proof.
  set (s := Z.to_nat (Z.max 1 pageSize)).
  set (n := Z.to_nat (totalPages standings pageSize)).
  assert (forall p, In p (seq 1 n) ->
             StandingsResponse.results (paginateStandings standings (Z.of_nat p) pageSize)
             = firstn s (skipn ((p - 1) * s) standings)) as Hpage.
  { intros p Hp. apply in_seq in Hp. rewrite results_paginate. fold s. do 2 f_equal.
    unfold s. rewrite Z.max_r by lia. nia. }
  rewrite (map_ext_in _ _ _ Hpage), pages_concat.
  apply firstn_all2. unfold n, s, totalPages.
  set (len := Z.of_nat (length standings)). set (ss := Z.max 1 pageSize).
  destruct (Z.le_gt_cases (Math_ceil_div len ss) 1) as [Hone|Hmany].
  - rewrite Z.max_l by lia.
    assert (~ 1 * ss < len) as Hle
      by (rewrite <- (Math_ceil_div_spec len ss 1) by (unfold ss; lia); lia).
    unfold len in *. nia.
  - rewrite Z.max_r by lia.
    assert (~ Math_ceil_div len ss * ss < len) as Hle
      by (rewrite <- (Math_ceil_div_spec len ss) by (unfold ss; lia); lia).
    unfold len in *. nia.
Qed.

(** A page holds at most [pageSize] entries, taken from position
    [(page - 1) * pageSize] on, with [page] and [pageSize] raised to at
    least 1, and [count] is their number. [next_page_number] is the
    following page exactly when entries remain after this page;
    [previous_page_number] is the preceding page exactly when the page
    is not the first and holds an entry, so a page past the end has
    neither. *)
Theorem paginateStandings_page_fields (standings : list StandingEntry.t)
    (page pageSize : Z) :
  let r := paginateStandings standings page pageSize in
  let safePage := Z.max 1 page in
  let safePageSize := Z.max 1 pageSize in
  let total := Z.of_nat (length standings) in
  StandingsResponse.results r
    = firstn (Z.to_nat safePageSize)
             (skipn (Z.to_nat ((safePage - 1) * safePageSize)) standings) /\
  StandingsResponse.count r = Z.of_nat (length (StandingsResponse.results r)) /\
  StandingsResponse.count r <= safePageSize /\
  StandingsResponse.total r = Some total /\
  StandingsResponse.next_page_number r
    = (if safePage * safePageSize <? total then Some (safePage + 1) else None) /\
  StandingsResponse.previous_page_number r
    = (if (1 <? safePage) && (0 <? StandingsResponse.count r)
       then Some (safePage - 1) else None).
Proof.
  cbv zeta. split; [apply results_paginate|].
  split; [reflexivity|].
  assert (StandingsResponse.count (paginateStandings standings page pageSize)
          = Z.of_nat (length (StandingsResponse.results
                                (paginateStandings standings page pageSize)))) as Hcount
    by reflexivity.
  rewrite Hcount, results_paginate, length_firstn, length_skipn.
  set (sp := Z.max 1 page). set (ss := Z.max 1 pageSize).
  set (len := length standings).
  split; [lia|]. split; [reflexivity|].
  split; [apply next_paginate|].
  unfold paginateStandings. cbn [StandingsResponse.previous_page_number].
  fold sp ss len.
  pose proof (Math_ceil_div_spec (Z.of_nat len) ss (sp - 1) ltac:(unfold ss; lia)) as Hprev.
  assert (1 <= sp) as Hsp by (unfold sp; lia).
  assert (1 <= ss) as Hss by (unfold ss; lia).
  rewrite Z.gtb_ltb.
  destruct (Z.ltb_spec 1 sp) as [Hgt|Hfirst]; [|easy]. cbn [andb].
  destruct (Z.leb_spec sp (Z.max 1 (Math_ceil_div (Z.of_nat len) ss)));
    destruct (Z.ltb_spec 0 (Z.of_nat (Nat.min (Z.to_nat ss)
                                        (len - Z.to_nat ((sp - 1) * ss)))));
    try easy; exfalso.
  - assert ((sp - 1) * ss < Z.of_nat len) by lia. nia.
  - assert (~ (sp - 1) * ss < Z.of_nat len) by lia. nia.
Qed.

End PaginationProperties.

(** ** The cached fetchers *)

Module CacheUse.
Import TtlCache JsMapFacts TtlCacheFacts.

Section Facts.
Context {T : Type}.
Variable maxSize : Z.
Implicit Types (s : @store T) (key : string).

Lemma get_absent now key s : JsMap.get key s = None -> get maxSize now key s = (s, None).
Proof. intros H. unfold get. now rewrite H. Qed.

(** After a lookup that gives nothing the key is not in the store. *)
Lemma get_None_absent now key s :
  snd (get maxSize now key s) = None -> JsMap.get key (fst (get maxSize now key s)) = None.
Proof.
  unfold get. destruct (JsMap.get key s) as [e|] eqn:E; [|easy].
  destruct (now >? expiresAt e); [intros _; apply store_get_delete_eq|].
  now destruct (maxSize >? 0).
Qed.

(** A lookup never gives an expired value. *)
Lemma get_Some_live now key s v :
  snd (get maxSize now key s) = Some v ->
  exists e, JsMap.get key s = Some e /\ value e = v /\ now <= expiresAt e.
Proof.
  unfold get. destruct (JsMap.get key s) as [e|] eqn:E; [|easy].
  destruct (Z.gtb_spec now (expiresAt e)) as [Hgt|Hle]; [easy|].
  intros H. exists e. split; [easy|]. split; [|easy].
  destruct (maxSize >? 0); simpl in H; congruence.
Qed.

(** A lookup of a stored key that has not expired gives the value. *)
Lemma get_after_store now1 now2 key (v : T) ttlMs s later :
  later <= now2 + ttlMs ->
  exists s', get maxSize later key (set maxSize now1 now2 key v ttlMs s) = (s', Some v).
Proof.
  intros Hlive. unfold get. rewrite store_get_set_any. cbn [expiresAt value].
  rewrite gtb_false by easy. destruct (maxSize >? 0); eauto.
Qed.

End Facts.

End CacheUse.

Module FetchersFacts.
Import Js JsMore Http Standings Pagination Fetchers FetchersSpec CacheUse.
Import TtlCacheFacts JsMapFacts.

Lemma ttl_values :
  CACHE_TTL_PAST_MS = 604800000 /\ CACHE_TTL_LIVE_MS = 60000.
Proof. split; reflexivity. Qed.

(** A call that finds nothing cached for the event sends one request. *)
Lemma fetchEventDetails_miss (getEvent : Z -> reply Event.t) (now0 now1 now2 eventId : Z)
    (cache : @TtlCache.store Event.t) :
  absent (string_of_Z eventId) cache ->
  snd (fst (fetchEventDetails getEvent now0 now1 now2 eventId cache)) = [GetEvent eventId].
Proof.
  unfold absent, fetchEventDetails. intros H. rewrite get_absent by easy.
  destruct (getEvent eventId) as [|[] ? ? ? [?|]]; reflexivity.
Qed.

End FetchersFacts.

Module FetchersProperties.
Import Js JsMore Http Standings Pagination Fetchers FetchersSpec CacheUse FetchersFacts.
Import TtlCacheFacts JsMapFacts.

(** After a call of [fetchEventDetails] that asked the upstream and
    returned an event, the event is cached for 7 days when it is
    completed and for 1 minute otherwise, counted from the clock reading
    of the store: a second call for the same event whose clock reading
    is within that time returns the same event and sends no request,
    whatever the upstream would answer. *)
Theorem fetchEventDetails_repeat_is_served_from_cache
    (getEvent getEvent' : Z -> reply Event.t)
    (now0 now1 now2 later later1 later2 eventId : Z)
    (cache cache1 : @TtlCache.store Event.t) (event : Event.t) :
  fetchEventDetails getEvent now0 now1 now2 eventId cache
    = (cache1, [GetEvent eventId], Value event) ->
  later <= now2 + (if isEventCompleted event then 604800000 else 60000) ->
  exists cache2,
    fetchEventDetails getEvent' later later1 later2 eventId cache1
      = (cache2, [], Value event).
Proof.
  unfold fetchEventDetails.
  destruct (TtlCache.get CACHE_MAX_SIZE now0 (string_of_Z eventId) cache)
    as [cache0 [cached|]]; [discriminate|].
  destruct (getEvent eventId) as [|ok status statusText text json]; [discriminate|].
  destruct ok; cbn [negb]; [|discriminate].
  destruct json as [ev|]; [|discriminate].
  intros H Hlive. injection H as <- <-.
  destruct (get_after_store CACHE_MAX_SIZE now1 now2 (string_of_Z eventId) ev
              (cacheTtlForEvent ev) cache0 later Hlive) as [s' Hs'].
  rewrite Hs'. now exists s'.
Qed.

Lemma fetchEventDetails_repeat_is_served_from_cache_witness :
  fetchEventDetails serveWeekly 1000 1000 1001 42 []
    = ([("42"%string, TtlCache.Entry weekly (1001 + 604800000))],
       [GetEvent 42], Value weekly) /\
  exists cache2,
    fetchEventDetails down 604801001 604801001 604801001 42
      [("42"%string, TtlCache.Entry weekly (1001 + 604800000))]
      = (cache2, [], Value weekly).
Proof.
  split; [reflexivity|].
  apply (fetchEventDetails_repeat_is_served_from_cache serveWeekly down 1000 1000 1001
           604801001 604801001 604801001 42 []); [reflexivity|simpl; lia].
Defined.

(** A call of [fetchEventDetails] that throws has sent exactly one
    request and leaves nothing cached for the event, so the next call
    asks the upstream again; when the upstream answered with a status
    that is not ok, the error names the status, its text and the body. *)
Theorem fetchEventDetails_failure_is_not_cached
    (getEvent : Z -> reply Event.t) (now0 now1 now2 eventId : Z)
    (cache cache1 : @TtlCache.store Event.t) (requests : list Request) (e : thrown) :
  fetchEventDetails getEvent now0 now1 now2 eventId cache
    = (cache1, requests, Thrown e) ->
  requests = [GetEvent eventId] /\
  absent (string_of_Z eventId) cache1 /\
  (forall status statusText text json,
      getEvent eventId = Responds false status statusText text json ->
      e = ApiError ("API request failed: " ++ string_of_Z status ++ " " ++ statusText
                      ++ " - " ++ text)%string) /\
  (forall getEvent' later later1 later2,
      snd (fst (fetchEventDetails getEvent' later later1 later2 eventId cache1))
        = [GetEvent eventId]).
Proof.
  intros H.
  assert (requests = [GetEvent eventId] /\
          absent (string_of_Z eventId) cache1 /\
          (forall status statusText text json,
              getEvent eventId = Responds false status statusText text json ->
              e = ApiError ("API request failed: " ++ string_of_Z status ++ " " ++ statusText
                              ++ " - " ++ text)%string)) as [Hreq [Habsent Herr]].
  { revert H. unfold fetchEventDetails, absent.
    pose proof (get_None_absent CACHE_MAX_SIZE now0 (string_of_Z eventId) cache) as Hmiss.
    destruct (TtlCache.get CACHE_MAX_SIZE now0 (string_of_Z eventId) cache)
      as [cache0 [cached|]]; [discriminate|].
    specialize (Hmiss eq_refl). cbn [fst] in Hmiss.
    destruct (getEvent eventId) as [|ok status statusText text json].
    - intros H. injection H as <- <- <-. repeat split; easy.
    - destruct ok; cbn [negb].
      + destruct json as [ev|]; [discriminate|].
        intros H. injection H as <- <- <-. repeat split; easy.
      + intros H. injection H as <- <- <-. repeat split; try easy.
        intros st stT tx js Heq. now injection Heq as <- <- <- <-. }
  repeat split; try easy.
  intros getEvent' later later1 later2. now apply fetchEventDetails_miss.
Qed.

Lemma fetchEventDetails_failure_is_not_cached_witness :
  fetchEventDetails down 1000 1000 1001 42 []
    = ([], [GetEvent 42],
       Thrown (ApiError "API request failed: 503 Service Unavailable - try later")) /\
  absent (string_of_Z 42) (@nil (string * @TtlCache.entry Event.t)) /\
  snd (fst (fetchEventDetails serveWeekly 2000 2000 2001 42 [])) = [GetEvent 42].
Proof.
  split; [reflexivity|].
  destruct (fetchEventDetails_failure_is_not_cached down 1000 1000 1001 42 [] []
              [GetEvent 42]
              (ApiError "API request failed: 503 Service Unavailable - try later")
              eq_refl) as [_ [Habsent [_ Hagain]]].
  split; [exact Habsent|apply Hagain].
Defined.

End FetchersProperties.

(** ** Numbers printed in decimal *)

Module DecimalFacts.
Import Js AggregateSpec AggregateFacts.

Lemma to_int_proper (n : Z) :
  Z.to_int n <> Decimal.Pos Decimal.Nil /\ Z.to_int n <> Decimal.Neg Decimal.Nil.
Proof.
  destruct n as [|p|p]; cbn [Z.to_int]; split; try discriminate;
    intros H; injection H as H; now apply DecimalPos.Unsigned.to_uint_nonnil in H.
Qed.

(** Distinct integers print differently. *)
Lemma string_of_Z_inj (n m : Z) : string_of_Z n = string_of_Z m -> n = m.
Proof.
  unfold string_of_Z. intros H. apply DecimalZ.to_int_inj.
  destruct (to_int_proper n) as [Hn1 Hn2]. destruct (to_int_proper m) as [Hm1 Hm2].
  pose proof (NilZero.isi (Z.to_int n) Hn1 Hn2) as Hn.
  pose proof (NilZero.isi (Z.to_int m) Hm1 Hm2) as Hm.
  rewrite H in Hn. congruence.
Qed.

Lemma string_of_Z_digits (n : Z) : 0 <= n -> all_digits (string_of_Z n).
Proof.
  intros H. destruct (string_of_Z_nonneg n H) as [d [-> _]].
  apply string_of_uint_digits.
Qed.

Lemma append_assoc (a b c : string) : ((a ++ b) ++ c = a ++ (b ++ c))%string.
Proof. induction a as [|x a IH]; simpl; [easy|]. now rewrite IH. Qed.

Lemma digits_have_no_dash (a b : string) : ~ all_digits (a ++ String "-" b)%string.
Proof.
  intros H. destruct (H "-"%char) as [v Hv]; [|discriminate].
  apply in_append. right. now left.
Qed.

(** A text that ends with a dash and a run of digits determines both
    the run and what comes before the dash. *)
Lemma dash_suffix_inj (x x' s s' : string) :
  all_digits s -> all_digits s' ->
  (x ++ String "-" s = x' ++ String "-" s')%string -> x = x' /\ s = s'.
Proof.
  intros Hs Hs'. revert x'. induction x as [|c x IH]; intros [|c' x'] H; simpl in H.
  - now injection H as ->.
  - injection H as <- ->. now apply digits_have_no_dash in Hs.
  - injection H as -> <-. now apply digits_have_no_dash in Hs'.
  - injection H as -> H. destruct (IH x' H) as [-> ->]. easy.
Qed.

End DecimalFacts.

Module RoundStandingsFacts.
Import Js JsMore Http Standings Pagination Fetchers FetchersSpec CacheUse DecimalFacts.
Import TtlCacheFacts JsMapFacts.

Lemma pageKey_inj r p s r' p' s' :
  0 <= p -> 0 <= s -> 0 <= p' -> 0 <= s' ->
  pageKey r p s = pageKey r' p' s' -> r = r' /\ p = p' /\ s = s'.
Proof.
  intros Hp Hs Hp' Hs'. unfold pageKey. intros H.
  change (string_of_Z r ++ "-" ++ string_of_Z p ++ "-" ++ string_of_Z s)%string
    with (string_of_Z r ++ (String "-" (string_of_Z p ++ String "-" (string_of_Z s))))%string
    in H.
  change (string_of_Z r' ++ "-" ++ string_of_Z p' ++ "-" ++ string_of_Z s')%string
    with (string_of_Z r' ++ (String "-" (string_of_Z p' ++ String "-" (string_of_Z s'))))%string
    in H.
  change (String "-" (string_of_Z p ++ String "-" (string_of_Z s)))%string
    with (String "-" (string_of_Z p) ++ String "-" (string_of_Z s))%string in H.
  change (String "-" (string_of_Z p' ++ String "-" (string_of_Z s')))%string
    with (String "-" (string_of_Z p') ++ String "-" (string_of_Z s'))%string in H.
  rewrite <- !append_assoc in H.
  apply dash_suffix_inj in H as [H Hss]; try now apply string_of_Z_digits.
  apply dash_suffix_inj in H as [Hr Hpp]; try now apply string_of_Z_digits.
  repeat split; now apply string_of_Z_inj.
Qed.

End RoundStandingsFacts.

Module RoundStandingsProperties.
Import Js JsMore Http Standings Pagination Fetchers FetchersSpec CacheUse.
Import RoundStandingsFacts TtlCacheFacts JsMapFacts.

(** Two calls of [fetchTournamentRoundStandings] use the same cache
    entry only when they ask for the same round, the same page and the
    same page size, the last two raised to at least 1. *)
Theorem page_cache_keys_do_not_collide
    (roundId roundId' : Z) (page pageSize page' pageSize' : Z) :
  pageKey roundId (Z.max 1 page) (Z.max 1 pageSize)
    = pageKey roundId' (Z.max 1 page') (Z.max 1 pageSize') ->
  roundId = roundId' /\ Z.max 1 page = Z.max 1 page' /\
  Z.max 1 pageSize = Z.max 1 pageSize'.
Proof. apply pageKey_inj; lia. Qed.

Lemma page_cache_keys_do_not_collide_witness :
  pageKey 7 (Z.max 1 0) (Z.max 1 25) = pageKey 7 (Z.max 1 1) (Z.max 1 25) /\
  7 = 7 /\ Z.max 1 0 = Z.max 1 1 /\ Z.max 1 25 = Z.max 1 25.
Proof.
  split; [reflexivity|].
  apply (page_cache_keys_do_not_collide 7 7 0 25 1 25). reflexivity.
Defined.

(** After a call of [fetchTournamentRoundStandings] that asked the
    upstream and returned a response, the response is cached for 7
    days when [isPastEvent] is true and for 1 minute otherwise: a second
    call for the same round whose page and page size come to the same
    values once defaulted and raised to at least 1, and whose clock
    reading is within that time, returns the same response and sends no
    request. *)
Theorem fetchTournamentRoundStandings_repeat_is_served_from_cache
    (getStandingsPage getStandingsPage' : Z -> Z -> Z -> reply StandingsResponse.t)
    (getStandings getStandings' : Z -> reply (option (list StandingEntry.t)))
    (now0 now1 now2 later later1 later2 roundId : Z)
    (page pageSize page' pageSize' : option Z) (isPastEvent isPastEvent' : option bool)
    (cache cache1 : @TtlCache.store StandingsResponse.t)
    (request : Request) (more : list Request) (response : StandingsResponse.t) :
  fetchTournamentRoundStandings getStandingsPage getStandings now0 now1 now2 roundId
                                page pageSize isPastEvent cache
    = (cache1, request :: more, Value response) ->
  Z.max 1 (orDefault page' 1) = Z.max 1 (orDefault page 1) ->
  Z.max 1 (orDefault pageSize' 25) = Z.max 1 (orDefault pageSize 25) ->
  later <= now2 + (if orDefault isPastEvent false then 604800000 else 60000) ->
  exists cache2,
    fetchTournamentRoundStandings getStandingsPage' getStandings' later later1 later2
                                  roundId page' pageSize' isPastEvent' cache1
      = (cache2, [], Value response).
Proof.
  unfold fetchTournamentRoundStandings. intros H Hpage Hsize Hlive.
  rewrite Hpage, Hsize.
  set (key := pageKey roundId (Z.max 1 (orDefault page 1))
                      (Z.max 1 (orDefault pageSize 25))) in *.
  destruct (TtlCache.get CACHE_MAX_SIZE now0 key cache) as [cache0 [cached|]];
    [discriminate|].
  destruct (getStandingsPage roundId _ _) as [|ok status statusText text json];
    [discriminate|].
  destruct ok; cbn [negb] in H; [|discriminate].
  destruct json as [paginated|]; [|discriminate].
  injection H as <- _ _ <-.
  match goal with
  | |- context [TtlCache.set _ _ _ _ ?v ?ttl _] =>
      destruct (get_after_store CACHE_MAX_SIZE now1 now2 key v ttl cache0 later)
        as [s' Hs']; [exact Hlive|]
  end.
  rewrite Hs'. now exists s'.
Qed.

Lemma fetchTournamentRoundStandings_repeat_is_served_from_cache_witness :
  exists cache2,
    fetchTournamentRoundStandings
      (fun _ _ _ => Unreachable) noStandings 50000 50000 50000 7 None None None
      (fst (fst (fetchTournamentRoundStandings emptyPages fullStandings 0 0 0 7 (Some 0)
                   (Some 25) None [])))
    = (cache2, [], Value (paginateStandings twoEntries 1 25)).
Proof.
  apply (fetchTournamentRoundStandings_repeat_is_served_from_cache
           emptyPages (fun _ _ _ => Unreachable) fullStandings noStandings
           0 0 0 50000 50000 50000 7 (Some 0) (Some 25) None None None None []
           _ (GetStandingsPage 7 1 25) [GetStandings 7]);
    [reflexivity|reflexivity|reflexivity|simpl; lia].
Defined.

(** When the cache has nothing for the page and the paginated endpoint
    answers ok with no results and a total that is 0 or missing, the
    unpaginated endpoint is asked once: if it answers ok with a list of
    standings that is not empty, the response is the requested page of
    that list; in every other case (it cannot be reached, it answers
    with an error status, its body is not JSON, it has no standings or
    an empty list) the call still returns the empty paginated
    response. When the paginated answer has results or a total other
    than 0 no second request is made and the answer is returned as it
    is. *)
Theorem fetchTournamentRoundStandings_falls_back_to_full_list
    (getStandingsPage : Z -> Z -> Z -> reply StandingsResponse.t)
    (getStandings : Z -> reply (option (list StandingEntry.t)))
    (now0 now1 now2 roundId : Z) (page pageSize : option Z) (isPastEvent : option bool)
    (cache : @TtlCache.store StandingsResponse.t)
    (status : Z) (statusText text : string) (paginated : StandingsResponse.t) :
  let safePage := Z.max 1 (orDefault page 1) in
  let safePageSize := Z.max 1 (orDefault pageSize 25) in
  let out := fetchTournamentRoundStandings getStandingsPage getStandings now0 now1 now2
               roundId page pageSize isPastEvent cache in
  absent (pageKey roundId safePage safePageSize) cache ->
  getStandingsPage roundId safePage safePageSize
    = Responds true status statusText text (Some paginated) ->
  (StandingsResponse.results paginated = [] ->
   orDefault (StandingsResponse.total paginated) 0 = 0 ->
   snd (fst out) = [GetStandingsPage roundId safePage safePageSize; GetStandings roundId] /\
   snd out = Value match getStandings roundId with
                   | Responds true _ _ _ (Some (Some (e :: fullStandings))) =>
                       paginateStandings (e :: fullStandings) safePage safePageSize
                   | _ => paginated
                   end) /\
  (StandingsResponse.results paginated <> [] \/
   orDefault (StandingsResponse.total paginated) 0 <> 0 ->
   snd (fst out) = [GetStandingsPage roundId safePage safePageSize] /\
   snd out = Value paginated).
Proof.
  cbv zeta. unfold absent, fetchTournamentRoundStandings. intros Habsent Hpage.
  rewrite get_absent by easy. rewrite Hpage. cbn [negb]. split.
  - intros Hres Htotal. rewrite Hres, Htotal. cbn [length Nat.eqb Z.eqb andb fst snd].
    split; [reflexivity|]. unfold fetchTournamentRoundStandingsUnpaginated.
    destruct (getStandings roundId) as [|[] ? ? ? [[[|e full]|]|]]; reflexivity.
  - intros Hsome.
    assert ((length (StandingsResponse.results paginated) =? 0)%nat
            && (orDefault (StandingsResponse.total paginated) 0 =? 0) = false) as ->.
    { destruct Hsome as [Hres|Htotal].
      - destruct (StandingsResponse.results paginated); [easy|reflexivity].
      - apply andb_false_iff. right. now apply Z.eqb_neq. }
    split; reflexivity.
Qed.

Lemma fetchTournamentRoundStandings_falls_back_to_full_list_witness :
  snd (fetchTournamentRoundStandings emptyPages fullStandings 0 0 0 7 None None None [])
    = Value (paginateStandings twoEntries 1 25) /\
  snd (fetchTournamentRoundStandings emptyPages noStandings 0 0 0 7 None None None [])
    = Value emptyPage.
Proof.
  split.
  - apply (proj1 (fetchTournamentRoundStandings_falls_back_to_full_list
                    emptyPages fullStandings 0 0 0 7 None None None []
                    200 "OK" EmptyString emptyPage eq_refl eq_refl)); reflexivity.
  - apply (proj1 (fetchTournamentRoundStandings_falls_back_to_full_list
                    emptyPages noStandings 0 0 0 7 None None None []
                    200 "OK" EmptyString emptyPage eq_refl eq_refl)); reflexivity.
Defined.

End RoundStandingsProperties.

(** ** All pages of a round *)

Module AllPagesFacts.
Import Js JsMore Http Standings Pagination Fetchers FetchersSpec CacheUse.
Import PaginationSpec PaginationFacts.

Section Walk.
Variable fetch : FetchCall -> option StandingsResponse.t.
Variables (roundId : Z) (isPastEvent : bool).

Local Abbreviation callAt :=
  (fun p : nat => MkFetchCall roundId (Z.of_nat p) STANDINGS_PAGE_SIZE isPastEvent).

(** The loop asks for consecutive pages and stops at the first response
    that does not tell it to go on, at the first exception, or when no
    page is left. *)
Lemma collectPages_spec (left p : nat) (all : list StandingEntry.t) :
  exists (k : nat) (responses : list StandingsResponse.t),
    (k <= left)%nat /\
    fst (collectPages fetch left roundId isPastEvent (Z.of_nat p) all)
      = map callAt (seq p k) /\
    Forall (fun r => hasMore r = true) (removelast responses) /\
    ((snd (collectPages fetch left roundId isPastEvent (Z.of_nat p) all)
        = Some (all ++ flat_map StandingsResponse.results responses) /\
      answered fetch (map callAt (seq p k)) responses false /\
      (k = left \/
       exists init r, responses = init ++ [r] /\ hasMore r = false))
     \/
     (snd (collectPages fetch left roundId isPastEvent (Z.of_nat p) all) = None /\
      answered fetch (map callAt (seq p k)) responses true /\
      Forall (fun r => hasMore r = true) responses)).
Proof.
  revert p all. induction left as [|left IH]; intros p all.
  - exists 0%nat, []. cbn. rewrite app_nil_r.
    split; [lia|]. split; [easy|]. split; [constructor|]. left. unfold answered. auto.
  - cbn [collectPages]. destruct (fetch (callAt p)) as [response|] eqn:Ef.
    + fold (hasMore response). destruct (hasMore response) eqn:Emore.
      * replace (Z.of_nat p + 1) with (Z.of_nat (S p)) by lia.
        destruct (IH (S p) (all ++ StandingsResponse.results response))
          as [k [responses [Hk [Hcalls [Hmid Hend]]]]].
        destruct (collectPages fetch left roundId isPastEvent (Z.of_nat (S p))
                               (all ++ StandingsResponse.results response))
          as [calls result].
        cbn [fst snd] in *. exists (S k), (response :: responses).
        split; [lia|]. split; [cbn [seq map]; now rewrite Hcalls|].
        split.
        { destruct responses; [constructor|]. cbn [removelast] in *. now constructor. }
        destruct Hend as [[Hres [Hans Hlast]]|[Hres [Hans Hall]]]; [left|right].
        -- split; [rewrite Hres; cbn [flat_map]; now rewrite app_assoc|].
           split.
           ++ unfold answered in *. cbn [seq map app]. now rewrite Ef, Hans.
           ++ destruct Hlast as [->|[init [r [-> Hr]]]]; [now left|right].
              now exists (response :: init), r.
        -- split; [easy|]. split; [|now constructor].
           unfold answered in *. cbn [seq map app]. now rewrite Ef, Hans.
      * exists 1%nat, [response]. cbn [fst snd seq map removelast flat_map].
        rewrite app_nil_r. split; [lia|]. split; [easy|]. split; [constructor|].
        left. split; [easy|]. split; [unfold answered; cbn; now rewrite Ef|].
        right. now exists [], response.
    + exists 1%nat, []. cbn [fst snd seq map removelast].
      split; [lia|]. split; [easy|]. split; [constructor|].
      right. split; [easy|]. split; [unfold answered; cbn; now rewrite Ef|constructor].
Qed.

End Walk.

(** *** Against a server that paginates a fixed list *)

Section Paginated.
Variable full : list StandingEntry.t.
Variable fetch : FetchCall -> option StandingsResponse.t.
Variables (roundId : Z) (isPastEvent : bool).
Hypothesis fetch_serves : forall call, fetch call = serves full call.

Lemma served_page (p : nat) :
  (1 <= p)%nat ->
  exists response,
    fetch (MkFetchCall roundId (Z.of_nat p) STANDINGS_PAGE_SIZE isPastEvent)
      = Some response /\
    StandingsResponse.results response = firstn 100 (skipn (100 * (p - 1)) full) /\
    hasMore response = (Z.of_nat p <? totalPages full 100).
Proof.
  intros Hp. rewrite fetch_serves. unfold serves. cbn [call_page call_pageSize].
  eexists. split; [reflexivity|].
  destruct (paginateStandings_fields full (Z.of_nat p) STANDINGS_PAGE_SIZE)
    as [Hres [Hnext Hlen]].
  unfold STANDINGS_PAGE_SIZE in *. rewrite (Z.max_r 1 (Z.of_nat p)) in * by lia.
  change (Z.max 1 100) with 100 in *.
  split.
  - rewrite Hres. change (Z.to_nat 100) with 100%nat. do 2 f_equal. lia.
  - unfold hasMore, totalPages. rewrite Hnext. change (Z.max 1 100) with 100.
    change STANDINGS_PAGE_SIZE with 100.
    pose proof (Math_ceil_div_spec (Z.of_nat (length full)) 100 (Z.of_nat p) ltac:(lia))
      as Hceil.
    destruct (Z.ltb_spec (Z.of_nat p * 100) (Z.of_nat (length full))) as [Hlt|Hge].
    + cbn [andb]. rewrite Hlen by lia.
      rewrite Z.eqb_refl. symmetry. apply Z.ltb_lt. lia.
    + cbn [andb]. symmetry. apply Z.ltb_ge. lia.
Qed.

Lemma collect_served (left p : nat) :
  (1 <= p)%nat -> Z.of_nat p <= totalPages full 100 ->
  snd (collectPages fetch left roundId isPastEvent (Z.of_nat p)
                    (firstn (100 * (p - 1)) full))
    = Some (firstn (100 * (p - 1 + left)) full) /\
  length (fst (collectPages fetch left roundId isPastEvent (Z.of_nat p)
                            (firstn (100 * (p - 1)) full)))
    = Nat.min left (Z.to_nat (totalPages full 100) - p + 1).
Proof.
  revert p. induction left as [|left IH]; intros p Hp Hmax.
  - cbn [collectPages fst snd length]. rewrite Nat.add_0_r. split; [easy|lia].
  - cbn [collectPages]. destruct (served_page p Hp) as [response [-> [Hres Hmore]]].
    fold (hasMore response). rewrite Hmore, Hres.
    replace (firstn (100 * (p - 1)) full ++ firstn 100 (skipn (100 * (p - 1)) full))
      with (firstn (100 * (S p - 1)) full)
      by (rewrite take_take_drop; f_equal; lia).
    destruct (Z.ltb_spec (Z.of_nat p) (totalPages full 100)) as [Hlt|Hge].
    + replace (Z.of_nat p + 1) with (Z.of_nat (S p)) by lia.
      destruct (IH (S p) ltac:(lia) ltac:(lia)) as [IH1 IH2].
      destruct (collectPages fetch left roundId isPastEvent (Z.of_nat (S p))
                             (firstn (100 * (S p - 1)) full)) as [calls result].
      cbn [fst snd length] in *. rewrite IH1, IH2.
      split; [do 2 f_equal; lia|lia].
    + cbn [fst snd length]. split; [|lia]. f_equal.
      assert (length full <= 100 * p)%nat as Hall.
      { unfold totalPages in *. change (Z.max 1 100) with 100 in *.
        pose proof (Math_ceil_div_spec (Z.of_nat (length full)) 100 (Z.of_nat p)
                      ltac:(lia)) as Hceil. lia. }
      rewrite !firstn_all2; [easy| |]; lia.
Qed.

End Paginated.

End AllPagesFacts.

Module AllPagesProperties.
Import Js JsMore Http Standings Pagination Fetchers FetchersSpec CacheUse.
Import PaginationSpec PaginationFacts AllPagesFacts.

(** On a cache miss [fetchAllRoundStandings] asks for the pages 1, 2,
    ..., k of the round, in this order and with 100 entries a page, for
    some k between 1 and 50. Every response but the last names a next
    page and holds exactly 100 results. Either all calls return, the
    result is the results of the responses put end to end, and the last
    response is the 50th or does not tell to go on; or the last call
    throws and so does the function. *)
Theorem fetchAllRoundStandings_walks_pages
    (fetch : FetchCall -> option StandingsResponse.t)
    (now0 now1 now2 roundId : Z) (isPastEvent : option bool)
    (cache : @TtlCache.store (list StandingEntry.t)) :
  absent (string_of_Z roundId) cache ->
  let out := fetchAllRoundStandings fetch now0 now1 now2 roundId isPastEvent cache in
  exists (k : nat) (responses : list StandingsResponse.t),
    (1 <= k <= 50)%nat /\
    snd (fst out) = pageCalls roundId (orDefault isPastEvent false) k /\
    Forall (fun r => hasMore r = true) (removelast responses) /\
    ((snd out = Some (flat_map StandingsResponse.results responses) /\
      answered fetch (snd (fst out)) responses false /\
      (k = 50%nat \/ exists init r, responses = init ++ [r] /\ hasMore r = false))
     \/
     (snd out = None /\
      answered fetch (snd (fst out)) responses true /\
      Forall (fun r => hasMore r = true) responses)).
Proof.
  intros Habsent. cbv zeta. unfold fetchAllRoundStandings, absent in *.
  rewrite get_absent by easy.
  destruct (collectPages_spec fetch roundId (orDefault isPastEvent false) 50 1 [])
    as [k [responses [Hk [Hcalls [Hmid Hend]]]]].
  change (Z.to_nat STANDINGS_MAX_PAGES) with 50%nat. change 1 with (Z.of_nat 1).
  destruct (collectPages fetch 50 roundId (orDefault isPastEvent false) (Z.of_nat 1) [])
    as [calls result].
  cbn [fst snd] in Hcalls, Hend. subst calls.
  assert (1 <= k)%nat as Hk1.
  { destruct k; [|lia]. exfalso. unfold answered in Hend. cbn [seq map] in Hend.
    destruct Hend as [[_ [Hans [H|[init [r [-> _]]]]]]|[_ [Hans _]]]; try discriminate.
    - rewrite map_app in Hans. now destruct (map Some init).
    - now destruct (map Some responses). }
  exists k, responses. fold (pageCalls roundId (orDefault isPastEvent false) k) in *.
  destruct Hend as [[Hres [Hans Hlast]]|[Hres [Hans Hall]]]; subst result.
  - cbn [app]. destruct (0 <? _)%nat; cbn [fst snd];
      (split; [lia|]); (split; [easy|]); (split; [easy|]); left; auto.
  - cbn [fst snd]. split; [lia|]. split; [easy|]. split; [easy|]. right. auto.
Qed.

Lemma fetchAllRoundStandings_walks_pages_witness :
  exists (k : nat) (responses : list StandingsResponse.t),
    (1 <= k <= 50)%nat /\
    snd (fst (fetchAllRoundStandings (serves field250) 0 0 0 7 (Some true) []))
      = pageCalls 7 true k /\
    Forall (fun r => hasMore r = true) (removelast responses) /\
    ((snd (fetchAllRoundStandings (serves field250) 0 0 0 7 (Some true) [])
        = Some (flat_map StandingsResponse.results responses) /\
      answered (serves field250)
               (snd (fst (fetchAllRoundStandings (serves field250) 0 0 0 7 (Some true) [])))
               responses false /\
      (k = 50%nat \/ exists init r, responses = init ++ [r] /\ hasMore r = false))
     \/
     (snd (fetchAllRoundStandings (serves field250) 0 0 0 7 (Some true) []) = None /\
      answered (serves field250)
               (snd (fst (fetchAllRoundStandings (serves field250) 0 0 0 7 (Some true) [])))
               responses true /\
      Forall (fun r => hasMore r = true) responses)).
Proof.
  apply (fetchAllRoundStandings_walks_pages (serves field250) 0 0 0 7 (Some true) []).
  reflexivity.
Defined.

(** Against an upstream that serves the pages of one list of standings
    as [paginateStandings] cuts them, a cache miss returns the first
    5000 entries of the list, so the whole list when it has at most
    5000, after as many requests as the list has pages of 100, and at
    most 50. *)
Theorem fetchAllRoundStandings_collects_paginated_list
    (full : list StandingEntry.t) (fetch : FetchCall -> option StandingsResponse.t)
    (now0 now1 now2 roundId : Z) (isPastEvent : option bool)
    (cache : @TtlCache.store (list StandingEntry.t)) :
  (forall call, fetch call = serves full call) ->
  absent (string_of_Z roundId) cache ->
  let out := fetchAllRoundStandings fetch now0 now1 now2 roundId isPastEvent cache in
  snd out = Some (firstn 5000 full) /\
  length (snd (fst out)) = Nat.min 50 (Z.to_nat (totalPages full 100)).
Proof.
  intros Hserves Habsent. cbv zeta. unfold fetchAllRoundStandings, absent in *.
  rewrite get_absent by easy.
  destruct (collect_served full fetch roundId (orDefault isPastEvent false) Hserves 50 1
              ltac:(lia) ltac:(unfold totalPages; lia)) as [Hres Hlen].
  change (Z.to_nat STANDINGS_MAX_PAGES) with 50%nat. change 1 with (Z.of_nat 1).
  change (firstn (100 * (1 - 1)) full) with (@nil StandingEntry.t) in Hres, Hlen.
  destruct (collectPages fetch 50 roundId (orDefault isPastEvent false) (Z.of_nat 1) [])
    as [calls result].
  cbn [fst snd] in Hres, Hlen. subst result.
  assert (1 <= totalPages full 100) as Hpages by (unfold totalPages; lia).
  destruct (0 <? _)%nat; cbn [fst snd]; (split; [reflexivity|lia]).
Qed.

Lemma fetchAllRoundStandings_collects_paginated_list_witness :
  snd (fetchAllRoundStandings (serves field250) 0 0 0 7 None []) = Some (firstn 5000 field250) /\
  length (snd (fst (fetchAllRoundStandings (serves field250) 0 0 0 7 None [])))
    = Nat.min 50 (Z.to_nat (totalPages field250 100)).
Proof.
  apply (fetchAllRoundStandings_collects_paginated_list field250 (serves field250)
           0 0 0 7 None []); reflexivity.
Defined.

(** On a cache miss that ends with a list, an empty list is not stored
    and leaves the cache as it was, so the next call asks again; a list
    that is not empty is stored for 7 days when [isPastEvent] is true
    and for 1 minute otherwise, and a second call within that time
    returns it without any request. *)
Theorem fetchAllRoundStandings_stores_only_results
    (fetch fetch' : FetchCall -> option StandingsResponse.t)
    (now0 now1 now2 later later1 later2 roundId : Z)
    (isPastEvent isPastEvent' : option bool)
    (cache : @TtlCache.store (list StandingEntry.t)) (all : list StandingEntry.t) :
  absent (string_of_Z roundId) cache ->
  let out := fetchAllRoundStandings fetch now0 now1 now2 roundId isPastEvent cache in
  snd out = Some all ->
  (all = [] -> fst (fst out) = cache) /\
  (all <> [] ->
   later <= now2 + (if orDefault isPastEvent false then 604800000 else 60000) ->
   exists cache2,
     fetchAllRoundStandings fetch' later later1 later2 roundId isPastEvent' (fst (fst out))
       = (cache2, [], Some all)).
Proof.
  intros Habsent. cbv zeta. unfold fetchAllRoundStandings, absent in *.
  rewrite get_absent by easy.
  destruct (collectPages fetch _ roundId (orDefault isPastEvent false) 1 [])
    as [calls [found|]]; cbn [fst snd]; [|discriminate].
  intros H. injection H as ->. split.
  - intros ->. reflexivity.
  - intros Hne Hlive. destruct all as [|e all]; [easy|]. cbn [length Nat.ltb Nat.leb fst].
    destruct (get_after_store CACHE_MAX_SIZE now1 now2 (string_of_Z roundId) (e :: all)
                (if orDefault isPastEvent false then CACHE_TTL_PAST_MS
                 else CACHE_TTL_LIVE_MS) cache later) as [s' Hs'].
    { destruct (orDefault isPastEvent false); exact Hlive. }
    rewrite Hs'. now exists s'.
Qed.

Lemma fetchAllRoundStandings_stores_only_results_witness :
  (@nil StandingEntry.t = [] ->
   fst (fst (fetchAllRoundStandings (serves []) 0 0 0 7 None [])) = []) /\
  exists cache2,
    fetchAllRoundStandings (fun _ => None) 60000 60000 60000 7 None
      (fst (fst (fetchAllRoundStandings (serves twoEntries) 0 0 0 7 None [])))
    = (cache2, [], Some twoEntries).
Proof.
  split.
  - apply (proj1 (fetchAllRoundStandings_stores_only_results
                    (serves []) (fun _ => None) 0 0 0 0 0 0 7 None None [] []
                    eq_refl eq_refl)).
  - apply (proj2 (fetchAllRoundStandings_stores_only_results
                    (serves twoEntries) (fun _ => None) 0 0 0 60000 60000 60000 7
                    None None [] twoEntries eq_refl eq_refl));
      [discriminate|simpl; lia].
Defined.

End AllPagesProperties.

(** ** Standings of many events *)

Module BatchFacts.
Import Js Runner Batch BatchSpec RunnerFacts.

Section Facts.
Variable getEventStandings : Z -> Z -> result (option EventStandings).

Lemma keepFound_from (raw : list (option (option EventStandings)))
    (acc : list EventStandings) :
  fold_left (fun results one =>
               match one with
               | Some (Some found) => results ++ [found]
               | _ => results
               end) raw acc
  = acc ++ flat_map (fun one => match one with
                                | Some (Some found) => [found]
                                | _ => []
                                end) raw.
Proof.
  revert acc. induction raw as [|one raw IH]; intros acc; simpl.
  - now rewrite app_nil_r.
  - rewrite IH. destruct one as [[found|]|]; simpl; try easy. now rewrite <- app_assoc.
Qed.

Lemma keepFound_settled (eventIds : list Z) :
  keepFound (map (fun item => stored (fetchOne getEventStandings item)) eventIds)
  = foundInOrder getEventStandings eventIds.
Proof.
  unfold keepFound, foundInOrder. rewrite keepFound_from. cbn [app].
  induction eventIds as [|eventId eventIds IH]; [easy|].
  cbn [map flat_map]. rewrite IH. unfold fetchOne. cbn [stored].
  now destruct (getEventStandings eventId 100) as [|[found|]].
Qed.

Lemma foundInOrder_length (eventIds : list Z) :
  (length (foundInOrder getEventStandings eventIds) <= length eventIds)%nat.
Proof.
  unfold foundInOrder. induction eventIds as [|eventId eventIds IH]; [easy|].
  cbn [flat_map]. rewrite length_app.
  destruct (getEventStandings eventId 100) as [|[found|]]; simpl; lia.
Qed.

Lemma foundInOrder_In (eventIds : list Z) (found : EventStandings) :
  In found (foundInOrder getEventStandings eventIds) <->
  exists eventId,
    In eventId eventIds /\ getEventStandings eventId 100 = Returns (Some found).
Proof.
  unfold foundInOrder. rewrite in_flat_map. split.
  - intros [eventId [Hin H]]. exists eventId. split; [easy|].
    destruct (getEventStandings eventId 100) as [|[f|]]; try easy.
    destruct H as [->|[]]. reflexivity.
  - intros [eventId [Hin H]]. exists eventId. split; [easy|]. rewrite H. now left.
Qed.

End Facts.

End BatchFacts.

Module BatchProperties.
Import Js Runner Batch BatchSpec RunnerFacts BatchFacts.

(** [fetchAllEventStandings] resolves, and under every schedule of its
    eight workers it resolves to the same list: the standings of the
    events for which [getEventStandings] returned some, in the order of
    the event ids. Events without standings and events whose lookup
    throws are left out, and nothing else is added. *)
Theorem fetchAllEventStandings_keeps_found_in_order
    (getEventStandings : Z -> Z -> result (option EventStandings))
    (eventIds : list Z) :
  fetchAllEventStandings getEventStandings eventIds
                         (foundInOrder getEventStandings eventIds) /\
  (forall out,
      fetchAllEventStandings getEventStandings eventIds out ->
      out = foundInOrder getEventStandings eventIds) /\
  (length (foundInOrder getEventStandings eventIds) <= length eventIds)%nat /\
  (forall found,
      In found (foundInOrder getEventStandings eventIds) <->
      exists eventId,
        In eventId eventIds /\ getEventStandings eventId 100 = Returns (Some found)).
Proof.
  assert (forall st,
             rtc (step (fetchOne getEventStandings) eventIds)
                 (init (fetchOne getEventStandings) eventIds EVENT_STANDINGS_CONCURRENCY)
                 st ->
             all_returned st ->
             keepFound (results st) = foundInOrder getEventStandings eventIds) as Hout.
  { intros st Hst Hall.
    rewrite (results_when_returned (fetchOne getEventStandings) eventIds
               EVENT_STANDINGS_CONCURRENCY st); [|unfold EVENT_STANDINGS_CONCURRENCY; lia
                                                 |easy|easy].
    apply keepFound_settled. }
  split; [|split; [|split]].
  - destruct (can_finish (fetchOne getEventStandings) eventIds
                (init (fetchOne getEventStandings) eventIds EVENT_STANDINGS_CONCURRENCY)
                (inv_init _ _ _)) as [st [Hst Hall]].
    exists st. split; [easy|]. split; [easy|]. symmetry. now apply Hout.
  - intros out [st [Hst [Hall ->]]]. now apply Hout.
  - apply foundInOrder_length.
  - intros found. apply foundInOrder_In.
Qed.

Lemma fetchAllEventStandings_keeps_found_in_order_witness :
  foundInOrder threeEvents [1; 2; 3] = [AggregateSpec.week1] /\
  fetchAllEventStandings threeEvents [1; 2; 3] [AggregateSpec.week1] /\
  (fetchAllEventStandings threeEvents [1; 2; 3] [AggregateSpec.week1] ->
   [AggregateSpec.week1] = foundInOrder threeEvents [1; 2; 3]).
Proof.
  destruct (fetchAllEventStandings_keeps_found_in_order threeEvents [1; 2; 3])
    as [Hex [Huniq _]].
  split; [reflexivity|]. split; [exact Hex|apply Huniq].
Defined.

End BatchProperties.

(** ** More on the cache *)

Module TtlCacheMoreFacts.
Import TtlCache TtlCacheSpec JsMapFacts TtlCacheFacts.

Section Facts.
Context {V : Type}.
Implicit Types (s : list (string * V)) (key k : string).

Lemma store_get_delete_ne key k s :
  k <> key -> JsMap.get k (JsMap.delete key s) = JsMap.get k s.
Proof.
  intros Hne. unfold JsMap.delete. induction s as [|[k0 e0] s IH]; [easy|].
  cbn [List.filter fst]. destruct (String.eqb_spec k0 key) as [->|Hk0]; cbn [negb].
  - rewrite IH. simpl. destruct (String.eqb_spec key k); [congruence|easy].
  - simpl. now rewrite IH.
Qed.

Lemma In_store_set key (e : V) s x : In x (JsMap.set key e s) -> x = (key, e) \/ In x s.
Proof.
  induction s as [|[k0 e0] s IH]; simpl.
  - intros [<-|[]]. now left.
  - destruct (String.eqb_spec k0 key) as [->|Hne]; intros [<-|Hin]; auto.
    destruct (IH Hin); auto.
Qed.

(** In a store with unique keys, a lookup in the filtered store is the
    lookup in the store, when the entry passes the filter. *)
Lemma store_get_filter (f : string * V -> bool) k s :
  NoDup (JsMap.keys s) ->
  JsMap.get k (List.filter f s)
  = match JsMap.get k s with
    | Some e => if f (k, e) then Some e else None
    | None => None
    end.
Proof.
  induction s as [|[k0 e0] s IH]; [easy|]. intros Hnd.
  apply NoDup_cons_iff in Hnd as [Hk0 Hnd]. cbn [List.filter JsMap.get].
  destruct (String.eqb_spec k0 k) as [->|Hne].
  - destruct (f (k, e0)); simpl; [now rewrite String.eqb_refl|].
    apply store_get_filter_None. now apply store_get_None_iff.
  - destruct (f (k0, e0)); simpl; [|now apply IH].
    destruct (String.eqb_spec k0 k); [congruence|now apply IH].
Qed.

End Facts.

Section Cache.
Context {T : Type}.
Variable maxSize : Z.
Implicit Types (s : @store T) (key k : string).

Lemma In_evict_loop fuel s x : In x (evict_loop maxSize fuel s) -> In x s.
Proof.
  revert s. induction fuel as [|fuel IH]; intros s; simpl; [easy|].
  destruct (store_size s >=? maxSize); [|easy]. intros H. apply IH in H.
  unfold evictLru in H. destruct (_ || _); [easy|].
  destruct s as [|[k0 e0] s']; [easy|]. unfold JsMap.delete in H.
  now apply filter_In in H as [H _].
Qed.

(** Whatever [set] leaves in the store is the entry it wrote or an
    entry that was there and has not expired. *)
Lemma In_set now1 now2 key (v : T) ttlMs s k e :
  In (k, e) (set maxSize now1 now2 key v ttlMs s) ->
  (k = key /\ e = Entry v (now2 + ttlMs)) \/ (In (k, e) s /\ now1 <= expiresAt e).
Proof.
  unfold set. intros H. apply In_store_set in H as [H|H].
  - injection H as -> ->. now left.
  - right. apply pruneExpired_spec.
    destruct (_ && negb _);
      [unfold JsMap.delete in H; apply filter_In in H as [H _]|];
      (destruct (_ && _); [now apply In_evict_loop in H|easy]).
Qed.

Lemma get_other now key k s :
  k <> key -> JsMap.get k (fst (get maxSize now key s)) = JsMap.get k s.
Proof.
  intros Hne. unfold get. destruct (JsMap.get key s) as [e|]; [|easy].
  destruct (now >? expiresAt e); cbn [fst]; [now apply store_get_delete_ne|].
  destruct (maxSize >? 0); cbn [fst]; [|easy].
  rewrite get_set. destruct (String.eqb_spec key k); [congruence|].
  now apply store_get_delete_ne.
Qed.

(** Without a bound, [set] sweeps and writes, and does nothing else. *)
Lemma set_unbounded now1 now2 key (v : T) ttlMs s :
  maxSize <= 0 ->
  set maxSize now1 now2 key v ttlMs s
  = JsMap.set key (Entry v (now2 + ttlMs)) (pruneExpired now1 s).
Proof.
  intros Hmax. unfold set. rewrite (gtb_false maxSize) by easy.
  now rewrite andb_false_r.
Qed.

End Cache.

End TtlCacheMoreFacts.

Module TtlCacheProperties.
Import TtlCache TtlCacheSpec JsMapFacts TtlCacheFacts TtlCacheMoreFacts CacheUse.

(** [get] never returns a value that has expired: a value returned for
    a key is the value stored under the key, and its expiry is not
    before the clock reading. A [get] that returns nothing leaves the
    key out of the store, and no [get] changes what the store holds
    under another key. *)
Theorem get_is_fresh_and_local {T} (maxSize now : Z) (key : string) (s : @store T) :
  (forall v, snd (get maxSize now key s) = Some v ->
             exists e, JsMap.get key s = Some e /\ value e = v /\ now <= expiresAt e) /\
  (snd (get maxSize now key s) = None ->
   JsMap.get key (fst (get maxSize now key s)) = None) /\
  (forall k, k <> key -> JsMap.get k (fst (get maxSize now key s)) = JsMap.get k s).
Proof.
  split; [intros v; apply get_Some_live|].
  split; [apply get_None_absent|]. intros k. apply get_other.
Qed.

Lemma get_is_fresh_and_local_witness :
  (exists e, JsMap.get "a" [("a"%string, Entry 1%nat 9); ("b"%string, Entry 2%nat 3)]
             = Some e /\ value e = 1%nat /\ 7 <= expiresAt e) /\
  JsMap.get "b" (fst (get 2 7 "b" [("a"%string, Entry 1%nat 9);
                                   ("b"%string, Entry 2%nat 3)])) = None /\
  JsMap.get "a" (fst (get 2 7 "b" [("a"%string, Entry 1%nat 9);
                                   ("b"%string, Entry 2%nat 3)]))
    = JsMap.get "a" [("a"%string, Entry 1%nat 9); ("b"%string, Entry 2%nat 3)].
Proof.
  split; [|split].
  - apply (proj1 (get_is_fresh_and_local 2 7 "a"
                    [("a"%string, Entry 1%nat 9); ("b"%string, Entry 2%nat 3)])).
    reflexivity.
  - apply (proj1 (proj2 (get_is_fresh_and_local 2 7 "b"
                           [("a"%string, Entry 1%nat 9); ("b"%string, Entry 2%nat 3)]))).
    reflexivity.
  - apply (proj2 (proj2 (get_is_fresh_and_local 2 7 "b"
                           [("a"%string, Entry 1%nat 9); ("b"%string, Entry 2%nat 3)]))).
    discriminate.
Defined.

(** Whatever the bound, every entry of the store after [set] is the
    entry just written or an entry that was in the store and had not
    expired at the clock reading of the sweep: [set] never keeps an
    expired entry and never brings one in. *)
Theorem set_leaves_only_live_entries {T} (maxSize now1 now2 : Z) (key : string) (v : T)
    (ttlMs : Z) (s : @store T) (k : string) (e : @entry T) :
  In (k, e) (set maxSize now1 now2 key v ttlMs s) ->
  (k = key /\ e = Entry v (now2 + ttlMs)) \/ (In (k, e) s /\ now1 <= expiresAt e).
Proof. apply In_set. Qed.

Lemma set_leaves_only_live_entries_witness :
  In ("b"%string, Entry 2%nat 100)
     (set 0 10 11 "c" 3%nat 50 [("a"%string, Entry 1%nat 5); ("b"%string, Entry 2%nat 100)]) /\
  (("b"%string = "c"%string /\ Entry 2%nat 100 = Entry 3%nat (11 + 50)) \/
   (In ("b"%string, Entry 2%nat 100)
       [("a"%string, Entry 1%nat 5); ("b"%string, Entry 2%nat 100)] /\
    10 <= expiresAt (Entry 2%nat 100))).
Proof.
  assert (In ("b"%string, Entry 2%nat 100)
             (set 0 10 11 "c" 3%nat 50
                  [("a"%string, Entry 1%nat 5); ("b"%string, Entry 2%nat 100)])) as Hin
    by (simpl; auto).
  split; [exact Hin|].
  exact (set_leaves_only_live_entries 0 10 11 "c" 3%nat 50 _ "b" (Entry 2%nat 100) Hin).
Defined.

(** A cache created without a positive [maxSize] loses entries only by
    expiry: after any sequence of calls, a [set] leaves under its key
    the entry written, and under every other key what was there when it
    had not expired at the clock reading of the sweep, and nothing
    otherwise. *)
Theorem unbounded_cache_drops_only_expired {T} (maxSize : Z) (ops : list (@op T))
    (now1 now2 : Z) (key : string) (v : T) (ttlMs : Z) (k : string) :
  maxSize <= 0 ->
  JsMap.get k (set maxSize now1 now2 key v ttlMs (run maxSize ops))
  = if String.eqb key k then Some (Entry v (now2 + ttlMs))
    else match JsMap.get k (run maxSize ops) with
         | Some e => if now1 >? expiresAt e then None else Some e
         | None => None
         end.
Proof.
  intros Hmax. rewrite set_unbounded by easy. rewrite get_set.
  destruct (String.eqb key k); [easy|]. unfold pruneExpired.
  rewrite store_get_filter by apply run_NoDup.
  destruct (JsMap.get k (run maxSize ops)) as [e|]; [|easy]. cbn [snd].
  now destruct (now1 >? expiresAt e).
Qed.

Lemma unbounded_cache_drops_only_expired_witness :
  0 <= 0 /\
  JsMap.get "a" (set 0 10 11 "c" 3%nat 50
                     (run 0 [OpSet 0 0 "a" 1%nat 5; OpSet 1 1 "b" 2%nat 100])) = None /\
  JsMap.get "b" (set 0 10 11 "c" 3%nat 50
                     (run 0 [OpSet 0 0 "a" 1%nat 5; OpSet 1 1 "b" 2%nat 100]))
    = Some (Entry 2%nat 101).
Proof.
  split; [lia|]. split.
  - etransitivity;
      [apply (unbounded_cache_drops_only_expired 0
                [OpSet 0 0 "a" 1%nat 5; OpSet 1 1 "b" 2%nat 100] 10 11 "c" 3%nat 50 "a");
       lia|reflexivity].
  - etransitivity;
      [apply (unbounded_cache_drops_only_expired 0
                [OpSet 0 0 "a" 1%nat 5; OpSet 1 1 "b" 2%nat 100] 10 11 "c" 3%nat 50 "b");
       lia|reflexivity].
Defined.

End TtlCacheProperties.

(** ** More on the aggregation *)

Module AggregateMoreFacts.
Import Js Aggregate AggregateSpec AggregateMoreSpec JsMapFacts SortFacts AggregateFacts.
Import DecimalFacts.

(** *** Totals *)

Lemma measured_set a b c key r agg :
  measured a b c (JsMap.set key r agg)
  = measured a b c agg
    - match JsMap.get key agg with Some old => measure a b c old | None => 0 end
    + measure a b c r.
Proof.
  unfold measured. induction agg as [|[k0 r0] agg IH]; simpl; [lia|].
  destruct (String.eqb k0 key); simpl; [lia|]. rewrite IH. lia.
Qed.

Lemma addEntry_measured a b c agg i entry :
  measured a b c (addEntry agg i entry)
  = measured a b c agg
    + if String.eqb (standingPlayerKey entry) UNKNOWN then 0
      else a * winsOf entry + b * lossesOf entry + c.
Proof.
  unfold addEntry, winsOf, lossesOf.
  destruct (String.eqb (standingPlayerKey entry) UNKNOWN); [lia|].
  destruct (standingWinsLosses entry) as [w l]. rewrite measured_set. cbn [fst snd].
  destruct (JsMap.get (standingPlayerKey entry) agg) as [r|]; unfold measure.
  - destruct (_ && negb _); cbn; lia.
  - cbn. lia.
Qed.

Lemma addStandings_measured a b c standings agg i :
  measured a b c (addStandings agg i standings)
  = measured a b c agg
    + sumZ (map (fun e => a * winsOf e + b * lossesOf e + c)
                (List.filter (fun e => negb (String.eqb (standingPlayerKey e) UNKNOWN))
                             standings)).
Proof.
  revert agg i. induction standings as [|entry rest IH]; intros agg i; simpl; [lia|].
  rewrite IH, addEntry_measured.
  destruct (String.eqb (standingPlayerKey entry) UNKNOWN); simpl; lia.
Qed.

Lemma accumulate_measured a b c evs :
  measured a b c (accumulate evs)
  = sumZ (map (fun e => a * winsOf e + b * lossesOf e + c) (attributed evs)).
Proof.
  unfold accumulate, attributed.
  assert (forall agg,
             measured a b c (fold_left (fun agg es => addStandings agg 0 (snd es)) evs agg)
             = measured a b c agg
               + sumZ (map (fun e => a * winsOf e + b * lossesOf e + c)
                           (flat_map (fun es =>
                                        List.filter
                                          (fun e => negb (String.eqb (standingPlayerKey e)
                                                                     UNKNOWN))
                                          (snd es)) evs))) as H.
  { induction evs as [|es evs IH]; intros agg; simpl; [lia|].
    rewrite IH, addStandings_measured, map_app, sumZ_app. lia. }
  rewrite H. unfold measured. simpl. lia.
Qed.

Lemma accumulate_totals evs : totals (accumulate evs) = entryTotals (attributed evs).
Proof.
  unfold totals, entryTotals.
  pose proof (accumulate_measured 1 0 0 evs) as Hw.
  pose proof (accumulate_measured 0 1 0 evs) as Hl.
  pose proof (accumulate_measured 0 0 1 evs) as He.
  unfold measured, measure in *.
  assert (forall (f g : string * AggRec.t -> Z) l,
             (forall x, f x = g x) -> sumZ (map f l) = sumZ (map g l)) as Hext
    by (intros f g l H; f_equal; apply map_ext; exact H).
  assert (forall (f g : StandingEntry.t -> Z) l,
             (forall x, f x = g x) -> sumZ (map f l) = sumZ (map g l)) as Hext'
    by (intros f g l H; f_equal; apply map_ext; exact H).
  f_equal; [f_equal|].
  - rewrite (Hext _ (fun kr => 1 * AggRec.wins (snd kr) + 0 * AggRec.losses (snd kr)
                               + 0 * AggRec.eventsPlayed (snd kr))) by (intros; lia).
    rewrite Hw. apply Hext'. intros. lia.
  - rewrite (Hext _ (fun kr => 0 * AggRec.wins (snd kr) + 1 * AggRec.losses (snd kr)
                               + 0 * AggRec.eventsPlayed (snd kr))) by (intros; lia).
    rewrite Hl. apply Hext'. intros. lia.
  - rewrite (Hext _ (fun kr => 0 * AggRec.wins (snd kr) + 0 * AggRec.losses (snd kr)
                               + 1 * AggRec.eventsPlayed (snd kr))) by (intros; lia).
    rewrite He. generalize (attributed evs). intros l.
    induction l as [|e l IH]; [easy|]. cbn [map sumZ fold_right length] in *.
    unfold sumZ in IH. rewrite IH. lia.
Qed.

(** *** The records behind the rows *)

(** Every record of the map has played at least one event, and its
    placements are as many as its events. *)
Lemma record_counts evs k r :
  In (k, r) (accumulate evs) ->
  AggRec.eventsPlayed r = Z.of_nat (length (AggRec.placements r)) /\
  1 <= AggRec.eventsPlayed r.
Proof.
  intros Hin. pose proof (placements_nonempty evs k r Hin) as Hne.
  apply In_get in Hin; [|apply accumulate_NoDup].
  assert (k <> UNKNOWN) as Hk by (intros ->; rewrite accumulate_unknown in Hin; easy).
  pose proof (accumulate_tracks k evs Hk) as Ht. rewrite Hin in Ht.
  destruct Ht as [_ [_ [_ [He Hp]]]]. rewrite He, Hp, length_map. split; [easy|].
  rewrite Hp in Hne. destruct (all_contribs k evs); [easy|simpl; lia].
Qed.

Lemma In_firstn {A} (n : nat) (l : list A) x : In x (firstn n l) -> In x l.
Proof.
  revert l. induction n as [|n IH]; intros [|y l]; simpl; try easy.
  intros [->|H]; [now left|right; now apply IH].
Qed.

Lemma In_slice0 {A} (limit : Z) (l : list A) x : In x (slice0 limit l) -> In x l.
Proof. unfold slice0. destruct (limit <? 0); apply In_firstn. Qed.

Lemma length_slice0 {A} (limit : Z) (l : list A) :
  0 <= limit -> Z.of_nat (length (slice0 limit l)) <= limit.
Proof.
  intros H. unfold slice0. destruct (Z.ltb_spec limit 0); [lia|].
  rewrite length_firstn. lia.
Qed.

Lemma slice0_all {A} (limit : Z) (l : list A) :
  Z.of_nat (length l) <= limit -> slice0 limit l = l.
Proof.
  intros H. unfold slice0. destruct (Z.ltb_spec limit 0); [lia|].
  apply firstn_all2. lia.
Qed.

(** A row of the result comes from a record of the map that passes the
    [minEvents] filter. *)
Lemma row_origin evs minEvents sortBy limit p :
  In p (aggregateStandingsToPlayers evs minEvents sortBy limit) ->
  exists k r,
    In (k, r) (accumulate evs) /\ p = toPlayerStats r /\
    minEvents <= AggRec.eventsPlayed r.
Proof.
  unfold aggregateStandingsToPlayers. intros H. apply In_slice0 in H.
  apply (Permutation_in _ (sortPlayers_perm _ sortBy)) in H.
  unfold qualifiedPlayers in H. apply in_map_iff in H as [r [<- H]].
  apply filter_In in H as [H Hmin]. unfold JsMap.values in H.
  apply in_map_iff in H as [[k r'] [<- H]]. exists k, r'.
  split; [easy|]. split; [easy|]. cbn [snd] in Hmin. lia.
Qed.

Lemma count_first_bounds l : 0 <= count_first l <= Z.of_nat (length l).
Proof.
  unfold count_first.
  pose proof (filter_length_le (fun p => p =? 1) l). lia.
Qed.

(** *** Parsing a record with more than two parts *)

Lemma trim_starts (c : ascii) (r : string) :
  isWhiteSpace c = false -> trim (String c r) <> EmptyString.
Proof.
  intros Hc. unfold trim. cbn [trimStart]. rewrite Hc. cbn [trimEnd].
  destruct (trimEnd r); [now rewrite Hc|discriminate].
Qed.

Lemma parseRecord_with_tail w l tail :
  0 <= w -> 0 <= l ->
  parseRecordToWinsLosses
    (Some (string_of_Z w ++ "-" ++ string_of_Z l ++ "-" ++ tail)%string) = (w, l).
Proof.
  intros Hw Hl.
  destruct (string_of_Z_nonneg w Hw) as [dw [Ew [Nw Vw]]].
  destruct (string_of_Z_nonneg l Hl) as [dl [El [Nl Vl]]].
  rewrite Ew, El.
  set (a := NilEmpty.string_of_uint dw). set (b := NilEmpty.string_of_uint dl).
  assert (all_digits a) as Da by apply string_of_uint_digits.
  assert (all_digits b) as Db by apply string_of_uint_digits.
  assert (a <> EmptyString) as Na by (subst a; now destruct dw).
  assert (b <> EmptyString) as Nb by (subst b; now destruct dl).
  assert (forall s, all_digits s ->
            forall c, In c (list_ascii_of_string s) -> Ascii.eqb c "-" = false) as Hdash.
  { intros s Hs c Hc. destruct (Hs c Hc) as [v Hv]. now apply digit_char in Hv. }
  unfold parseRecordToWinsLosses.
  change (a ++ "-" ++ b ++ "-" ++ tail)%string
    with (a ++ String "-" (b ++ String "-" tail))%string.
  destruct (trim (a ++ String "-" (b ++ String "-" tail))) eqn:E.
  { exfalso. destruct a as [|c a']; [easy|]. cbn [append] in E.
    revert E. apply trim_starts.
    destruct (Da c (or_introl eq_refl)) as [v Hv]. now apply digit_char in Hv. }
  rewrite split_app by now apply Hdash.
  rewrite split_app by now apply Hdash.
  cbn [map]. rewrite !trim_no_space by now apply all_digits_no_space.
  rewrite (parseInt_digits a w), (parseInt_digits b l); try easy.
  - subst b. rewrite digits_uint by easy. now rewrite Vl.
  - subst a. rewrite digits_uint by easy. now rewrite Vw.
Qed.

(** *** Keys of entries that carry a player number *)

Lemma key_of_id entry n :
  player_id entry = Some n ->
  standingPlayerKey entry = ("player_id:" ++ string_of_Z n)%string.
Proof. intros H. unfold standingPlayerKey. now rewrite H. Qed.

End AggregateMoreFacts.

Module AggregateProperties.
Import Js Aggregate AggregateSpec AggregateMoreSpec JsMapFacts SortFacts AggregateFacts.
Import DecimalFacts AggregateMoreFacts.

(** Two entries that carry a player number are aggregated into the same
    row exactly when the numbers are equal, whatever names they carry. *)
Theorem player_number_decides_the_row (e1 e2 : StandingEntry.t) (n1 n2 : Z) :
  player_id e1 = Some n1 -> player_id e2 = Some n2 ->
  (standingPlayerKey e1 = standingPlayerKey e2 <-> n1 = n2).
Proof.
  intros H1 H2. rewrite (key_of_id e1 n1 H1), (key_of_id e2 n2 H2). split.
  - intros H. cbn [append] in H. injection H as H. now apply string_of_Z_inj.
  - now intros ->.
Qed.

Lemma player_number_decides_the_row_witness :
  standingPlayerKey (handle_entry 7 "ann") = standingPlayerKey (scored 7 3 0) /\
  standingPlayerKey (handle_entry 7 "ann") <> standingPlayerKey (scored 8 3 0).
Proof.
  split.
  - apply (player_number_decides_the_row (handle_entry 7 "ann") (scored 7 3 0) 7 7);
      reflexivity.
  - intros H.
    apply (player_number_decides_the_row (handle_entry 7 "ann") (scored 8 3 0) 7 8) in H;
      [discriminate|reflexivity|reflexivity].
Defined.

(** Every row of a leaderboard is consistent: the player has played at
    least one event and at least [minEvents], has one placement for
    each event played, a best placement that is one of the placements
    and the least of them, and a number of first places between 0 and
    the number of events. The leaderboard has at most [limit] rows when
    [limit] is not negative. *)
Theorem leaderboard_rows_are_consistent (evs : list EventStandings)
    (minEvents : Z) (sortBy : LeaderboardSortBy) (limit : Z) :
  (forall p,
      In p (aggregateStandingsToPlayers evs minEvents sortBy limit) ->
      1 <= PlayerStats.eventsPlayed p /\
      minEvents <= PlayerStats.eventsPlayed p /\
      PlayerStats.eventsPlayed p = Z.of_nat (length (PlayerStats.placements p)) /\
      In (PlayerStats.bestPlacement p) (PlayerStats.placements p) /\
      (forall q, In q (PlayerStats.placements p) -> PlayerStats.bestPlacement p <= q) /\
      0 <= PlayerStats.firstPlaceFinishes p <= PlayerStats.eventsPlayed p) /\
  (0 <= limit ->
   Z.of_nat (length (aggregateStandingsToPlayers evs minEvents sortBy limit)) <= limit).
Proof.
  split.
  - intros p Hp. apply row_origin in Hp as [k [r [Hin [-> Hmin]]]].
    destruct (record_counts evs k r Hin) as [Hcount Hone].
    pose proof (placements_nonempty evs k r Hin) as Hne.
    destruct (Math_min_spec (AggRec.placements r) Hne) as [Hbest Hleast].
    pose proof (count_first_bounds (AggRec.placements r)) as Hfirst.
    cbn [toPlayerStats PlayerStats.eventsPlayed PlayerStats.placements
         PlayerStats.bestPlacement PlayerStats.firstPlaceFinishes].
    repeat split; try easy; lia.
  - intros Hlimit. unfold aggregateStandingsToPlayers. now apply length_slice0.
Qed.

Lemma leaderboard_rows_are_consistent_witness :
  aggregateStandingsToPlayers [night1; night2] 2 total_wins 1
    = [PlayerStats.Make "—" 5 1 2 1 1 [2; 1]] /\
  (1 <= 2 /\ 2 <= 2 /\ 2 = Z.of_nat (length [2; 1]) /\ In 1 [2; 1] /\
   (forall q, In q [2; 1] -> 1 <= q) /\ 0 <= 1 <= 2) /\
  Z.of_nat (length (aggregateStandingsToPlayers [night1; night2] 2 total_wins 1)) <= 1.
Proof.
  destruct (leaderboard_rows_are_consistent [night1; night2] 2 total_wins 1)
    as [Hrow Hlen].
  split; [reflexivity|]. split.
  - apply (Hrow (PlayerStats.Make "—" 5 1 2 1 1 [2; 1])). simpl. auto.
  - apply Hlen. lia.
Defined.

(** When no player is filtered out ([minEvents] at most 1) and the
    limit does not cut the list, the rows of the leaderboard account for
    every attributed entry once: the wins, the losses and the events of
    the rows add up to the wins, the losses and the number of the
    entries that name a player; entries that name nobody count for
    nothing. *)
Theorem leaderboard_totals_are_conserved (evs : list EventStandings)
    (minEvents : Z) (sortBy : LeaderboardSortBy) (limit : Z) :
  minEvents <= 1 -> Z.of_nat (length (accumulate evs)) <= limit ->
  rowTotals (aggregateStandingsToPlayers evs minEvents sortBy limit)
    = entryTotals (attributed evs).
Proof.
  intros Hmin Hlimit. rewrite <- accumulate_totals.
  unfold aggregateStandingsToPlayers.
  assert (qualifiedPlayers evs minEvents
          = map toPlayerStats (JsMap.values (accumulate evs))) as Hall.
  { unfold qualifiedPlayers. f_equal. unfold JsMap.values.
    assert (forall kr, In kr (accumulate evs) -> 1 <= AggRec.eventsPlayed (snd kr)) as H
      by (intros [k r] Hin; now apply (record_counts evs k r)).
    revert H. generalize (accumulate evs). intros agg.
    induction agg as [|kr agg IH]; intros H; [easy|]. cbn [map List.filter].
    rewrite Z.geb_leb.
    destruct (Z.leb_spec minEvents (AggRec.eventsPlayed (snd kr))) as [_|Hlt].
    - f_equal. apply IH. intros x Hx. apply H. now right.
    - specialize (H kr (or_introl eq_refl)). lia. }
  rewrite slice0_all.
  2:{ unfold sortPlayers. rewrite Array_sort_length, Hall, length_map.
      unfold JsMap.values. now rewrite length_map. }
  pose proof (sortPlayers_perm (qualifiedPlayers evs minEvents) sortBy) as Hperm.
  unfold rowTotals.
  rewrite (sumZ_perm _ _ (Permutation_map PlayerStats.totalWins Hperm)),
    (sumZ_perm _ _ (Permutation_map PlayerStats.totalLosses Hperm)),
    (sumZ_perm _ _ (Permutation_map PlayerStats.eventsPlayed Hperm)).
  rewrite Hall. unfold totals, JsMap.values. now rewrite !map_map.
Qed.

Lemma leaderboard_totals_are_conserved_witness :
  rowTotals (aggregateStandingsToPlayers [night1; night2] 1 total_wins 10) = (9, 3, 4) /\
  entryTotals (attributed [night1; night2]) = (9, 3, 4).
Proof.
  assert (rowTotals (aggregateStandingsToPlayers [night1; night2] 1 total_wins 10)
          = entryTotals (attributed [night1; night2])) as H
    by (apply leaderboard_totals_are_conserved; [lia|simpl; lia]).
  split; [rewrite H|]; reflexivity.
Defined.

(** A record printed as wins, a dash, losses, a dash and anything else,
    such as the draws of a W-L-D record, gives the wins and the losses:
    what follows the second dash is ignored. *)
Theorem record_with_draws_keeps_wins_and_losses (w l : Z) (tail : string) :
  0 <= w -> 0 <= l ->
  parseRecordToWinsLosses
    (Some (string_of_Z w ++ "-" ++ string_of_Z l ++ "-" ++ tail)%string) = (w, l).
Proof. apply parseRecord_with_tail. Qed.

Lemma record_with_draws_keeps_wins_and_losses_witness :
  parseRecordToWinsLosses (Some "3-1-2"%string) = (3, 1).
Proof.
  apply (record_with_draws_keeps_wins_and_losses 3 1 "2"); lia.
Defined.

End AggregateProperties.

(** ** More on the entry points *)

Module LeaderboardMoreFacts.
Import Js Aggregate Leaderboard LeaderboardSpec LeaderboardMoreSpec.
Import AggregateFacts AggregateMoreFacts.

(** *** The paging loops *)

Section Coords.
Variable search : CoordsQuery.t -> result SearchReply.
Variables (geo : Geo.t) (radius : Z) (startDate endDate : string).
Variable bound : Z.
Hypothesis bounded : totalsBelow search bound.

Local Abbreviation queryAt :=
  (fun p : nat => CoordsQuery.Make (Geo.lat geo) (Geo.lon geo) (Geo.display_name geo)
                    radius pastAndInProgress startDate endDate 100 (Z.of_nat p)).

Lemma pageByCoords_spec (fuel page : nat) (allEvents : list EventRef) :
  exists k : nat,
    (k <= fuel)%nat /\
    fst (pageByCoords search fuel geo radius startDate endDate (Z.of_nat page) allEvents)
      = map (fun p => CallSearchCoords (queryAt p)) (seq page k) /\
    searchesFor k (bound - Z.of_nat (length allEvents)) /\
    ((1 <= fuel)%nat -> bound - Z.of_nat (length allEvents) < 100 * Z.of_nat fuel ->
     snd (pageByCoords search fuel geo radius startDate endDate (Z.of_nat page) allEvents)
       <> StillPaging).
Proof.
  revert page allEvents. induction fuel as [|fuel IH]; intros page allEvents.
  - exists 0%nat. cbn. split; [lia|]. split; [easy|]. split; [left; lia|lia].
  - cbn [pageByCoords]. destruct (search (queryAt page)) as [|[error|events total]] eqn:Es.
    + exists 1%nat. cbn. split; [lia|]. split; [easy|]. split; [left; lia|easy].
    + exists 1%nat. cbn. split; [lia|]. split; [easy|]. split; [left; lia|easy].
    + pose proof (bounded _ _ _ Es) as Htotal.
      destruct ((Z.of_nat (length events) =? 100)
                && (total >? Z.of_nat (length (allEvents ++ map toEventRef events))))
        eqn:Emore.
      * apply andb_true_iff in Emore as [Hfull Hgt].
        apply Z.eqb_eq in Hfull. rewrite Z.gtb_ltb in Hgt. apply Z.ltb_lt in Hgt.
        rewrite length_app, length_map in Hgt.
        replace (Z.of_nat page + 1) with (Z.of_nat (S page)) by lia.
        destruct (IH (S page) (allEvents ++ map toEventRef events))
          as [k [Hk [Hcalls [Hcount Hend]]]].
        destruct (pageByCoords search fuel geo radius startDate endDate
                               (Z.of_nat (S page)) (allEvents ++ map toEventRef events))
          as [calls d].
        cbn [fst snd] in *. rewrite length_app, length_map in Hcount, Hend.
        exists (S k). split; [lia|]. split; [cbn [seq map]; now rewrite Hcalls|].
        split.
        -- right. destruct Hcount as [Hk1|Hk1]; lia.
        -- intros _ Hfuel. apply Hend; lia.
      * exists 1%nat. cbn. split; [lia|]. split; [easy|]. split; [left; lia|easy].
Qed.

End Coords.

Section Store.
Variable search : StoreQuery.t -> result SearchReply.
Variables (storeId : Z) (startDate endDate : string).
Variable bound : Z.
Hypothesis bounded : totalsBelow search bound.

Lemma pageByStore_spec (fuel page : nat) (label : option string)
    (allEvents : list EventRef) :
  exists k : nat,
    (k <= fuel)%nat /\
    map StoreQuery.page
        (storeQueries (fst (pageByStore search fuel storeId label startDate endDate
                                        (Z.of_nat page) allEvents)))
      = map Z.of_nat (seq page k) /\
    length (fst (pageByStore search fuel storeId label startDate endDate
                             (Z.of_nat page) allEvents)) = k /\
    Forall (fun q => StoreQuery.storeId q = storeId /\ StoreQuery.pageSize q = 100 /\
                     StoreQuery.statuses q = pastAndInProgress /\
                     StoreQuery.startDate q = startDate /\
                     StoreQuery.endDate q = endDate)
           (storeQueries (fst (pageByStore search fuel storeId label startDate endDate
                                           (Z.of_nat page) allEvents))) /\
    searchesFor k (bound - Z.of_nat (length allEvents)) /\
    ((1 <= fuel)%nat -> bound - Z.of_nat (length allEvents) < 100 * Z.of_nat fuel ->
     snd (pageByStore search fuel storeId label startDate endDate
                      (Z.of_nat page) allEvents) <> StillPaging).
Proof.
  revert page label allEvents. induction fuel as [|fuel IH]; intros page label allEvents.
  - exists 0%nat. cbn. split; [lia|]. split; [easy|]. split; [easy|].
    split; [constructor|]. split; [left; lia|lia].
  - cbn [pageByStore].
    set (q := StoreQuery.Make storeId label pastAndInProgress startDate endDate 100
                              (Z.of_nat page)).
    destruct (search q) as [|[error|events total]] eqn:Es.
    + exists 1%nat. cbn. split; [lia|]. split; [easy|]. split; [easy|].
      split; [repeat constructor|]. split; [left; lia|easy].
    + exists 1%nat. cbn. split; [lia|]. split; [easy|]. split; [easy|].
      split; [repeat constructor|]. split; [left; lia|easy].
    + pose proof (bounded _ _ _ Es) as Htotal.
      destruct ((Z.of_nat (length events) =? 100)
                && (total >? Z.of_nat (length (allEvents ++ map toEventRef events))))
        eqn:Emore.
      * apply andb_true_iff in Emore as [Hfull Hgt].
        apply Z.eqb_eq in Hfull. rewrite Z.gtb_ltb in Hgt. apply Z.ltb_lt in Hgt.
        rewrite length_app, length_map in Hgt.
        replace (Z.of_nat page + 1) with (Z.of_nat (S page)) by lia.
        destruct (IH (S page) (resolveLabel label events)
                     (allEvents ++ map toEventRef events))
          as [k [Hk [Hpages [Hlen [Hshape [Hcount Hend]]]]]].
        destruct (pageByStore search fuel storeId (resolveLabel label events)
                              startDate endDate (Z.of_nat (S page))
                              (allEvents ++ map toEventRef events)) as [calls d].
        cbn [fst snd] in *. rewrite length_app, length_map in Hcount, Hend.
        exists (S k). split; [lia|].
        split; [cbn [storeQueries flat_map app seq map StoreQuery.page];
                fold (storeQueries calls); now rewrite Hpages|].
        split; [cbn [length]; now rewrite Hlen|].
        split; [cbn [storeQueries flat_map app]; constructor; [now subst q|exact Hshape]|].
        split.
        -- right. destruct Hcount as [Hk1|Hk1]; lia.
        -- intros _ Hfuel. apply Hend; lia.
      * exists 1%nat. cbn. split; [lia|]. split; [easy|]. split; [easy|].
        split; [repeat constructor|]. split; [left; lia|easy].
Qed.

End Store.

Lemma coordsQueries_searches (f : nat -> CoordsQuery.t) (l : list nat) :
  coordsQueries (map (fun p => CallSearchCoords (f p)) l) = map f l.
Proof. induction l as [|p l IH]; [easy|]. cbn. now rewrite <- IH. Qed.

Lemma coordsQueries_app (l1 l2 : list Call) :
  coordsQueries (l1 ++ l2) = coordsQueries l1 ++ coordsQueries l2.
Proof. unfold coordsQueries. apply flat_map_app. Qed.

Lemma storeQueries_app (l1 l2 : list Call) :
  storeQueries (l1 ++ l2) = storeQueries l1 ++ storeQueries l2.
Proof. unfold storeQueries. apply flat_map_app. Qed.

(** *** The result of a success *)

Section Result.
Variable fetchAllEventStandings : list Z -> list EventStandings.

Lemma buildResult_shape allEvents minRounds minEvents sortBy limit startDate endDate
    city store :
  let result := buildResult fetchAllEventStandings allEvents minRounds minEvents sortBy
                            limit startDate endDate city store in
  (0 <= limit -> Z.of_nat (length (LeaderboardResult.players result)) <= limit) /\
  (forall p, In p (LeaderboardResult.players result) ->
             minEvents <= PlayerStats.eventsPlayed p) /\
  LeaderboardResult.eventsAnalyzed result
    = Z.of_nat (length (LeaderboardResult.eventsIncluded result)) /\
  (length (LeaderboardResult.eventsIncluded result)
   <= length (fetchAllEventStandings (map ref_id allEvents)))%nat /\
  LeaderboardResult.dateRange result = (startDate, endDate) /\
  LeaderboardResult.filters result = Filters.Make city store (truthyZ minRounds).
Proof.
  cbv zeta. unfold buildResult.
  cbn [LeaderboardResult.players LeaderboardResult.eventsAnalyzed
       LeaderboardResult.eventsIncluded LeaderboardResult.dateRange
       LeaderboardResult.filters].
  split; [intros H; now apply length_slice0|].
  split.
  { intros p Hp. apply row_origin in Hp as [k [r [_ [-> Hmin]]]]. exact Hmin. }
  split; [now rewrite length_map|]. split; [|easy].
  rewrite length_map. unfold filterByMinRounds.
  destruct minRounds as [[|m|m]|]; first [apply filter_length_le|apply Nat.le_refl].
Qed.

End Result.

End LeaderboardMoreFacts.

Module LeaderboardProperties.
Import Js Aggregate Leaderboard LeaderboardSpec LeaderboardMoreSpec.
Import AggregateFacts AggregateMoreFacts LeaderboardMoreFacts.

(** When no search reports more than [bound] events in total, the
    discovery of both entry points ends: a paging budget of more than
    [bound / 100] iterations is never exhausted. The searches ask for
    the pages 1, 2, ..., k in this order, 100 events a page, for past
    and in-progress events between the two dates, and k is 1 or leaves
    [100 * (k - 1)] below [bound]; the city variant searches with the
    radius kept between 0 and 100 miles. *)
Theorem discovery_ends_within_reported_total :
  (forall Date_parse geocodeCity search fetchAll (fuel : nat) params bound,
      totalsBelow search bound -> (1 <= fuel)%nat -> bound < 100 * Z.of_nat fuel ->
      let out := getPlayerLeaderboardByCity Date_parse geocodeCity search fetchAll
                                            fuel params in
      snd out <> Pending /\
      exists k : nat,
        map CoordsQuery.page (coordsQueries (fst out)) = firstPages k /\
        searchesFor k bound /\
        Forall (fun q => 0 <= CoordsQuery.radiusMiles q <= 100 /\
                         CoordsQuery.pageSize q = 100 /\
                         CoordsQuery.statuses q = ["past"; "inProgress"]%string /\
                         CoordsQuery.startDate q = CityParams.startDate params /\
                         CoordsQuery.endDate q = CityParams.endDate params)
               (coordsQueries (fst out))) /\
  (forall Date_parse search fetchAll (fuel : nat) params bound,
      totalsBelow search bound -> (1 <= fuel)%nat -> bound < 100 * Z.of_nat fuel ->
      let out := getPlayerLeaderboardByStore Date_parse search fetchAll fuel params in
      snd out <> Pending /\
      exists k : nat,
        map StoreQuery.page (storeQueries (fst out)) = firstPages k /\
        searchesFor k bound /\
        Forall (fun q => StoreQuery.storeId q = StoreParams.storeId params /\
                         StoreQuery.pageSize q = 100 /\
                         StoreQuery.statuses q = ["past"; "inProgress"]%string /\
                         StoreQuery.startDate q = StoreParams.startDate params /\
                         StoreQuery.endDate q = StoreParams.endDate params)
               (storeQueries (fst out))).
Proof.
  split.
  - intros Date_parse geocodeCity search fetchAll fuel params bound Hbound Hfuel Hlt.
    cbv zeta. unfold getPlayerLeaderboardByCity.
    destruct (validateDateRange Date_parse _ _).
    { split; [easy|]. exists 0%nat. split; [easy|]. split; [left; lia|constructor]. }
    destruct (geocodeCity _) as [|[geo|]].
    { split; [easy|]. exists 0%nat. split; [easy|]. split; [left; lia|constructor]. }
    2:{ split; [easy|]. exists 0%nat. split; [easy|]. split; [left; lia|constructor]. }
    fold (cityRadius params).
    destruct (pageByCoords_spec search geo (cityRadius params) (CityParams.startDate params)
                (CityParams.endDate params) bound Hbound fuel 1 [])
      as [k [Hk [Hcalls [Hcount Hend]]]].
    change (Z.of_nat 1) with 1 in *. cbn [length] in Hcount, Hend.
    rewrite Z.sub_0_r in Hcount, Hend. specialize (Hend Hfuel Hlt).
    destruct (pageByCoords search fuel geo (cityRadius params) _ _ 1 []) as [calls d].
    cbn [fst snd] in Hcalls, Hend.
    assert (forall ids,
               coordsQueries ((CallGeocode (CityParams.city params) :: calls)
                                ++ [CallStandings ids]) =
               coordsQueries (CallGeocode (CityParams.city params) :: calls)) as Hq
      by (intros ids; rewrite coordsQueries_app; cbn; now rewrite app_nil_r).
    assert (forall calls',
               coordsQueries calls'
               = coordsQueries (CallGeocode (CityParams.city params) :: calls) ->
               exists k : nat,
                 map CoordsQuery.page (coordsQueries calls') = firstPages k /\
                 searchesFor k bound /\
                 Forall (fun q => 0 <= CoordsQuery.radiusMiles q <= 100 /\
                                  CoordsQuery.pageSize q = 100 /\
                                  CoordsQuery.statuses q = ["past"; "inProgress"]%string /\
                                  CoordsQuery.startDate q = CityParams.startDate params /\
                                  CoordsQuery.endDate q = CityParams.endDate params)
                        (coordsQueries calls')) as Hfinal.
    { intros calls' ->. exists k. rewrite Hcalls. cbn [coordsQueries flat_map app].
      rewrite (coordsQueries_searches _ (seq 1 k)).
      split; [|split; [exact Hcount|]].
      + rewrite map_map. reflexivity.
      + apply Forall_forall. intros q Hin. apply in_map_iff in Hin as [p [<- _]].
        cbn. unfold cityRadius, MAX_LEADERBOARD_RADIUS_MILES. repeat split; lia. }
    destruct d as [| |e|allEvents label]; try easy; cbn [fst snd].
    1,2: split; [easy|]; now apply Hfinal.
    destruct (length allEvents =? 0)%nat; cbn [fst snd]; (split; [easy|]);
      apply Hfinal; [reflexivity|apply Hq].
  - intros Date_parse search fetchAll fuel params bound Hbound Hfuel Hlt.
    cbv zeta. unfold getPlayerLeaderboardByStore.
    destruct (validateDateRange Date_parse _ _).
    { split; [easy|]. exists 0%nat. split; [easy|]. split; [left; lia|constructor]. }
    destruct (pageByStore_spec search (StoreParams.storeId params)
                (StoreParams.startDate params) (StoreParams.endDate params) bound Hbound
                fuel 1 (StoreParams.storeLabel params) [])
      as [k [Hk [Hpages [Hlen [Hshape [Hcount Hend]]]]]].
    change (Z.of_nat 1) with 1 in *. cbn [length] in Hcount, Hend.
    rewrite Z.sub_0_r in Hcount, Hend. specialize (Hend Hfuel Hlt).
    destruct (pageByStore search fuel (StoreParams.storeId params) _ _ _ 1 [])
      as [calls d].
    cbn [fst snd] in Hpages, Hshape, Hend.
    assert (forall ids, storeQueries (calls ++ [CallStandings ids]) = storeQueries calls)
      as Hq by (intros ids; rewrite storeQueries_app; cbn; now rewrite app_nil_r).
    destruct d as [| |e|allEvents label]; try easy; cbn [fst snd].
    1,2: split; [easy|]; exists k; split; [exact Hpages|]; split; [exact Hcount|];
      exact Hshape.
    destruct (length allEvents =? 0)%nat; cbn [fst snd]; rewrite ?Hq;
      (split; [easy|]); exists k; (split; [exact Hpages|]); (split; [exact Hcount|]);
      exact Hshape.
Qed.

Lemma discovery_ends_within_reported_total_witness :
  totalsBelow one_event_by_coords 1 /\ (1 <= 1)%nat /\ 1 < 100 * Z.of_nat 1 /\
  snd (getPlayerLeaderboardByCity IsoDate.parse geocode_detroit one_event_by_coords
                                  week1_standings 1 january_in_detroit) <> Pending /\
  fst (getPlayerLeaderboardByCity IsoDate.parse geocode_detroit one_event_by_coords
                                  week1_standings 1 january_in_detroit)
    = [CallGeocode "Detroit, MI";
       CallSearchCoords (CoordsQuery.Make (Geo.lat detroit) (Geo.lon detroit)
                           (Geo.display_name detroit) 50 pastAndInProgress
                           "2025-01-01" "2025-01-31" 100 1);
       CallStandings [1]].
Proof.
  assert (totalsBelow one_event_by_coords 1) as Hbound.
  { intros q events total H. unfold one_event_by_coords in H. injection H as _ <-. lia. }
  split; [exact Hbound|]. split; [lia|]. split; [lia|]. split; [|reflexivity].
  apply (proj1 discovery_ends_within_reported_total IsoDate.parse geocode_detroit
           one_event_by_coords week1_standings 1%nat january_in_detroit 1 Hbound);
    lia.
Defined.

(** A leaderboard that an entry point resolves to has at most 100
    players and at most the requested limit raised to at least 1; every
    player has played at least the requested minimum of events raised
    to at least 1; [eventsAnalyzed] is the number of [eventsIncluded],
    which is at most the number of standings fetched; the date range is
    the one asked for; and the filters name the city or the store, never
    both. *)
Theorem leaderboard_result_is_bounded :
  (forall Date_parse geocodeCity search fetchAll (fuel : nat) params result,
      snd (getPlayerLeaderboardByCity Date_parse geocodeCity search fetchAll fuel params)
        = Resolved (Success result) ->
      Z.of_nat (length (LeaderboardResult.players result)) <= 100 /\
      Z.of_nat (length (LeaderboardResult.players result))
        <= Z.max 1 (orElse (CityParams.limit params) 20) /\
      (forall p, In p (LeaderboardResult.players result) ->
                 Z.max 1 (orElse (CityParams.minEvents params) 1)
                 <= PlayerStats.eventsPlayed p) /\
      LeaderboardResult.eventsAnalyzed result
        = Z.of_nat (length (LeaderboardResult.eventsIncluded result)) /\
      (exists eventIds,
          (length (LeaderboardResult.eventsIncluded result)
           <= length (fetchAll eventIds))%nat) /\
      LeaderboardResult.dateRange result
        = (CityParams.startDate params, CityParams.endDate params) /\
      (exists geo,
          geocodeCity (CityParams.city params) = Returns (Some geo) /\
          Filters.city (LeaderboardResult.filters result) = Some (Geo.display_name geo)) /\
      Filters.store (LeaderboardResult.filters result) = None) /\
  (forall Date_parse search fetchAll (fuel : nat) params result,
      snd (getPlayerLeaderboardByStore Date_parse search fetchAll fuel params)
        = Resolved (Success result) ->
      Z.of_nat (length (LeaderboardResult.players result)) <= 100 /\
      Z.of_nat (length (LeaderboardResult.players result))
        <= Z.max 1 (orElse (StoreParams.limit params) 20) /\
      (forall p, In p (LeaderboardResult.players result) ->
                 Z.max 1 (orElse (StoreParams.minEvents params) 1)
                 <= PlayerStats.eventsPlayed p) /\
      LeaderboardResult.eventsAnalyzed result
        = Z.of_nat (length (LeaderboardResult.eventsIncluded result)) /\
      (exists eventIds,
          (length (LeaderboardResult.eventsIncluded result)
           <= length (fetchAll eventIds))%nat) /\
      LeaderboardResult.dateRange result
        = (StoreParams.startDate params, StoreParams.endDate params) /\
      Filters.city (LeaderboardResult.filters result) = None /\
      Filters.store (LeaderboardResult.filters result) <> None).
Proof.
  split.
  - intros Date_parse geocodeCity search fetchAll fuel params result.
    unfold getPlayerLeaderboardByCity.
    destruct (validateDateRange Date_parse _ _); [discriminate|].
    destruct (geocodeCity _) as [|[geo|]] eqn:Eg; try discriminate.
    destruct (pageByCoords search fuel geo _ _ _ 1 []) as [calls d].
    destruct d as [| |e|allEvents label]; try discriminate.
    destruct (length allEvents =? 0)%nat; [discriminate|].
    cbn [snd]. intros H. injection H as <-.
    destruct (buildResult_shape fetchAll allEvents (CityParams.minRounds params)
                (Z.max 1 (orElse (CityParams.minEvents params) 1))
                (orElse (CityParams.sortBy params) total_wins)
                (Z.min MAX_LEADERBOARD_LIMIT (Z.max 1 (orElse (CityParams.limit params) 20)))
                (CityParams.startDate params) (CityParams.endDate params)
                (Some (Geo.display_name geo)) None)
      as [Hlen [Hmin [Hcount [Hfetched [Hrange Hfilters]]]]].
    unfold MAX_LEADERBOARD_LIMIT in *. specialize (Hlen ltac:(lia)).
    split; [lia|]. split; [lia|]. split; [exact Hmin|]. split; [exact Hcount|].
    split; [now exists (map ref_id allEvents)|]. split; [exact Hrange|].
    rewrite Hfilters. cbn. split; [now exists geo|easy].
  - intros Date_parse search fetchAll fuel params result.
    unfold getPlayerLeaderboardByStore.
    destruct (validateDateRange Date_parse _ _); [discriminate|].
    destruct (pageByStore search fuel _ _ _ _ 1 []) as [calls d].
    destruct d as [| |e|allEvents label]; try discriminate.
    destruct (length allEvents =? 0)%nat; [discriminate|].
    cbn [snd]. intros H. injection H as <-.
    destruct (buildResult_shape fetchAll allEvents (StoreParams.minRounds params)
                (Z.max 1 (orElse (StoreParams.minEvents params) 1))
                (orElse (StoreParams.sortBy params) total_wins)
                (Z.min MAX_LEADERBOARD_LIMIT (Z.max 1 (orElse (StoreParams.limit params) 20)))
                (StoreParams.startDate params) (StoreParams.endDate params) None
                (Some (orElse label
                         ("Store " ++ string_of_Z (StoreParams.storeId params))%string)))
      as [Hlen [Hmin [Hcount [Hfetched [Hrange Hfilters]]]]].
    unfold MAX_LEADERBOARD_LIMIT in *. cbn [append] in *. specialize (Hlen ltac:(lia)).
    split; [lia|]. split; [lia|]. split; [exact Hmin|]. split; [exact Hcount|].
    split; [now exists (map ref_id allEvents)|]. split; [exact Hrange|].
    rewrite Hfilters. cbn. split; [easy|discriminate].
Qed.

Lemma leaderboard_result_is_bounded_witness :
  exists result,
    snd (getPlayerLeaderboardByCity IsoDate.parse geocode_detroit one_event_by_coords
                                    week1_standings 1 january_in_detroit)
      = Resolved (Success result) /\
    Z.of_nat (length (LeaderboardResult.players result)) <= 100 /\
    LeaderboardResult.eventsAnalyzed result = 1.
Proof.
  eexists. split; [reflexivity|].
  destruct (proj1 leaderboard_result_is_bounded IsoDate.parse geocode_detroit
              one_event_by_coords week1_standings 1%nat january_in_detroit _ eq_refl)
    as [Hlen _].
  split; [exact Hlen|reflexivity].
Defined.

End LeaderboardProperties.

(** ** Geocoding and searching *)

Module SearchFacts.
Import Js JsMore Http Geocode Search SearchSpec FetchersSpec CacheUse.
Import Leaderboard LeaderboardSpec LeaderboardMoreSpec.

Section Store.
Variable getEvents : list (string * string) -> reply EventsApiResponse.t.

(** A search that finds nothing in its cache reports as total the
    [count] of the upstream. *)
Lemma searchOnMiss_found (q : StoreQuery.t) events total :
  searchOnMiss getEvents q = Returns (SearchOk events total) ->
  exists ok status statusText text data,
    getEvents (storeQuery (StoreQuery.storeId q) (StoreQuery.statuses q)
                          (Some (StoreQuery.startDate q)) (Some (StoreQuery.endDate q))
                          (StoreQuery.pageSize q) (StoreQuery.page q))
      = Responds ok status statusText text (Some data) /\
    events = EventsApiResponse.results data /\ total = EventsApiResponse.count data.
Proof.
  unfold searchOnMiss, searchEventsByStore, paramsOf.
  cbn [SearchStoreParams.storeId SearchStoreParams.storeLabel SearchStoreParams.statuses
       SearchStoreParams.startDate SearchStoreParams.endDate SearchStoreParams.pageSize
       SearchStoreParams.page orDefault].
  rewrite get_absent by reflexivity.
  destruct (getEvents _) as [|ok status statusText text [data|]]; try discriminate.
  - destruct ok; cbn [negb snd]; [|discriminate].
    intros H. injection H as <- <-. now exists true, status, statusText, text, data.
  - destruct ok; discriminate.
Qed.

Lemma one_page_when_counting (fuel : nat) storeId label startDate endDate page allEvents :
  countsThePage getEvents ->
  (length (fst (pageByStore (searchOnMiss getEvents) (S fuel) storeId label
                            startDate endDate page allEvents)) = 1)%nat.
Proof.
  intros Hcount. cbn [pageByStore].
  destruct (searchOnMiss getEvents _) as [|[error|events total]] eqn:Es; try reflexivity.
  apply searchOnMiss_found in Es as [ok [status [statusText [text [data [Hd [-> ->]]]]]]].
  rewrite (Hcount _ _ _ _ _ _ Hd), length_app, length_map.
  rewrite (gtb_false (Z.of_nat (length (EventsApiResponse.results data)))) by lia.
  now rewrite andb_false_r.
Qed.

End Store.

End SearchFacts.

Module SearchProperties.
Import Js JsMore Http Geocode Search SearchSpec FetchersSpec CacheUse SearchFacts.
Import Leaderboard LeaderboardSpec LeaderboardMoreSpec.

(** [geocodeCity] caches the places it finds and nothing else. After a
    call that asked Nominatim and found a place, a call for a city with
    the same lower-case form, made within 10 minutes of the store,
    returns the same place without a request. A call that returns
    [null] (an error status, or no match) has sent one request and
    leaves nothing cached, so the next call asks again. *)
Theorem geocodeCity_caches_found_places_only
    (number : Type) (parseFloat : string -> number) (toLowerCase : string -> string)
    (search search' : string -> reply (list NominatimResult))
    (now0 now1 now2 later later1 later2 : Z) (city city' : string)
    (cache cache1 : @TtlCache.store (GeocodeCityResult number)) :
  (forall place,
      geocodeCity number parseFloat toLowerCase search now0 now1 now2 city cache
        = (cache1, [city], Value (Some place)) ->
      toLowerCase city' = toLowerCase city ->
      later <= now2 + 600000 ->
      exists cache2,
        geocodeCity number parseFloat toLowerCase search' later later1 later2 city' cache1
          = (cache2, [], Value (Some place))) /\
  (forall requests,
      geocodeCity number parseFloat toLowerCase search now0 now1 now2 city cache
        = (cache1, requests, Value None) ->
      requests = [city] /\
      absent ("geocode:" ++ toLowerCase city)%string cache1 /\
      snd (fst (geocodeCity number parseFloat toLowerCase search' later later1 later2
                            city cache1)) = [city]).
Proof.
  unfold geocodeCity, absent.
  remember ("geocode:" ++ toLowerCase city)%string as key eqn:Hkey.
  pose proof (get_None_absent GEO_CACHE_MAX_SIZE now0 key cache) as Hmiss.
  destruct (TtlCache.get GEO_CACHE_MAX_SIZE now0 key cache) as [cache0 [cached|]].
  { split; [intros place H|intros requests H]; discriminate. }
  specialize (Hmiss eq_refl). cbn [fst] in Hmiss.
  split.
  - intros place H Hcase Hlive. rewrite Hcase, <- Hkey.
    destruct (search city) as [|ok status statusText text json]; [discriminate|].
    destruct ok; cbn [negb] in H; [|discriminate].
    destruct json as [[|first rest]|]; try discriminate.
    injection H as <- <-.
    match goal with
    | |- context [TtlCache.set _ _ _ ?key ?v ?ttl _] =>
        destruct (get_after_store GEO_CACHE_MAX_SIZE now1 now2 key v ttl cache0 later)
          as [s' Hs']; [exact Hlive|]
    end.
    rewrite Hs'. now exists s'.
  - intros requests H.
    assert (cache1 = cache0 /\ requests = [city]) as [-> ->].
    { destruct (search city) as [|ok status statusText text json]; [discriminate|].
      destruct ok; cbn [negb] in H.
      - destruct json as [[|first rest]|]; try discriminate. now injection H as <- <-.
      - now injection H as <- <-. }
    split; [easy|]. split; [exact Hmiss|].
    rewrite get_absent by exact Hmiss.
    destruct (search' city) as [|[] ? ? ? [[|? ?]|]]; reflexivity.
Qed.

Lemma geocodeCity_caches_found_places_only_witness :
  exists cache2,
    geocodeCity string (fun s => s) lowerAscii nowhere 600001 600001 600001 "DETROIT"
      (fst (fst (geocodeCity string (fun s => s) lowerAscii nominatim 0 0 1 "Detroit" [])))
    = (cache2, [], Value (Some (MkResult string "42.3314"%string "-83.0458"%string "Detroit, Michigan"))).
Proof.
  apply (proj1 (geocodeCity_caches_found_places_only string (fun s => s) lowerAscii
                  nominatim nowhere 0 0 1 600001 600001 600001 "Detroit" "DETROIT" [] _));
    [reflexivity|reflexivity|simpl; lia].
Defined.

(** [searchEventsByStore] returns an upstream error as a value and
    does not cache it: when nothing is cached for the search and the
    upstream answers with a status that is not ok, the search resolves
    to the error that names the status, after one request, and the
    cache still holds nothing for the search. A result that was found
    is cached for 5 minutes: the same search made within that time
    returns it without a request. *)
Theorem searchEventsByStore_caches_results_not_errors
    (getEvents getEvents' : list (string * string) -> reply EventsApiResponse.t)
    (now0 now1 now2 later later1 later2 : Z) (params : SearchStoreParams.t)
    (cache : @TtlCache.store EventSearchResult.t) :
  absent (keyOf params) cache ->
  let out := searchEventsByStore getEvents now0 now1 now2 params cache in
  (forall status statusText text json,
      getEvents (storeQuery (SearchStoreParams.storeId params)
                            (orDefault (SearchStoreParams.statuses params)
                                       ["upcoming"; "inProgress"]%string)
                            (SearchStoreParams.startDate params)
                            (SearchStoreParams.endDate params)
                            (orDefault (SearchStoreParams.pageSize params) 25)
                            (orDefault (SearchStoreParams.page params) 1))
        = Responds false status statusText text json ->
      snd out = Value (ErrorReply ("API error: " ++ string_of_Z status)%string) /\
      length (snd (fst out)) = 1%nat /\
      fst (fst out) = cache) /\
  (forall result,
      snd out = Value (ResultReply result) ->
      later <= now2 + 300000 ->
      exists cache2,
        searchEventsByStore getEvents' later later1 later2 params (fst (fst out))
          = (cache2, [], Value (ResultReply result))).
Proof.
  intros Habsent. cbv zeta. unfold searchEventsByStore, absent, keyOf in *.
  rewrite get_absent by exact Habsent. split.
  - intros status statusText text json Hreply. rewrite Hreply. cbn. easy.
  - intros result H Hlive.
    destruct (getEvents _) as [|ok status statusText text json]; [discriminate|].
    destruct ok; cbn [negb] in *; [|discriminate].
    destruct json as [data|]; [|discriminate]. cbn [fst snd] in *.
    injection H as <-.
    match goal with
    | |- context [TtlCache.set _ _ _ ?key ?v ?ttl _] =>
        destruct (get_after_store CACHE_MAX_SIZE now1 now2 key v ttl cache later)
          as [s' Hs']; [exact Hlive|]
    end.
    rewrite Hs'. now exists s'.
Qed.

Lemma searchEventsByStore_caches_results_not_errors_witness :
  snd (searchEventsByStore unavailable 0 0 0 store4622 [])
    = Value (ErrorReply "API error: 503") /\
  fst (fst (searchEventsByStore unavailable 0 0 0 store4622 [])) = [] /\
  exists cache2,
    searchEventsByStore unavailable 300000 300000 300000 store4622
      (fst (fst (searchEventsByStore pageCounting 0 0 0 store4622 [])))
    = (cache2, [],
       Value (ResultReply (EventSearchResult.Make hundred "Store 4622" 100 1 (Some 2) 100))).
Proof.
  destruct (searchEventsByStore_caches_results_not_errors unavailable unavailable
              0 0 0 0 0 0 store4622 [] eq_refl) as [Herror _].
  destruct (Herror 503 "Service Unavailable"%string EmptyString None eq_refl)
    as [Hout [_ Hcache]].
  split; [exact Hout|]. split; [exact Hcache|].
  apply (proj2 (searchEventsByStore_caches_results_not_errors pageCounting unavailable
                  0 0 0 300000 300000 300000 store4622 [] eq_refl));
    [reflexivity|simpl; lia].
Defined.

(** The leaderboard of a store reads the total of a search from the
    [count] field of the upstream. When the upstream reports in [count]
    the number of events of the page, the discovery stops after the
    first search, whatever the total: at most one page of events is
    analysed. *)
Theorem store_discovery_needs_count_to_be_the_total
    (getEvents : list (string * string) -> reply EventsApiResponse.t)
    (Date_parse : string -> option Z)
    (fetchAll : list Z -> list EventStandings) (fuel : nat) (params : StoreParams.t) :
  countsThePage getEvents ->
  let out := getPlayerLeaderboardByStore Date_parse (searchOnMiss getEvents) fetchAll
                                         (S fuel) params in
  snd out <> Pending /\ (length (storeQueries (fst out)) <= 1)%nat.
Proof.
  intros Hcount. cbv zeta. unfold getPlayerLeaderboardByStore.
  destruct (validateDateRange Date_parse _ _); [split; [easy|simpl; lia]|].
  pose proof (one_page_when_counting getEvents fuel (StoreParams.storeId params)
                (StoreParams.storeLabel params) (StoreParams.startDate params)
                (StoreParams.endDate params) 1 [] Hcount) as Hone.
  assert (snd (pageByStore (searchOnMiss getEvents) (S fuel) (StoreParams.storeId params)
                           (StoreParams.storeLabel params) (StoreParams.startDate params)
                           (StoreParams.endDate params) 1 []) <> StillPaging) as Hend.
  { cbn [pageByStore].
    destruct (searchOnMiss getEvents _) as [|[error|events total]] eqn:Es; try easy.
    apply searchOnMiss_found in Es
        as [ok [status [statusText [text [data [Hd [-> ->]]]]]]].
    rewrite (Hcount _ _ _ _ _ _ Hd), length_app, length_map.
    rewrite (gtb_false (Z.of_nat (length (EventsApiResponse.results data)))) by lia.
    now rewrite andb_false_r. }
  destruct (pageByStore (searchOnMiss getEvents) (S fuel) _ _ _ _ 1 []) as [calls d].
  cbn [fst snd] in Hone, Hend.
  assert (length (storeQueries calls) <= 1)%nat as Hq.
  { destruct calls as [|c [|c' calls]]; try discriminate. destruct c; simpl; lia. }
  destruct d as [| |e|allEvents label]; try easy.
  destruct (length allEvents =? 0)%nat; cbn [fst snd]; (split; [easy|]); [easy|].
  rewrite LeaderboardMoreFacts.storeQueries_app.
  change (storeQueries [CallStandings (map ref_id allEvents)]) with (@nil StoreQuery.t).
  now rewrite app_nil_r.
Qed.

Lemma store_discovery_needs_count_to_be_the_total_witness :
  countsThePage pageCounting /\
  fst (pageByStore (searchOnMiss pageCounting) 5 4622 None "2025-01-01" "2025-12-31" 1 [])
    = [CallSearchStore (StoreQuery.Make 4622 None pastAndInProgress
                          "2025-01-01" "2025-12-31" 100 1)] /\
  (length (storeQueries
             (fst (getPlayerLeaderboardByStore IsoDate.parse (searchOnMiss pageCounting)
                     week1_standings 5 january_at_store))) <= 1)%nat.
Proof.
  assert (countsThePage pageCounting) as Hcount.
  { intros query ok status statusText text data H. unfold pageCounting in H.
    injection H as _ _ _ _ <-. reflexivity. }
  split; [exact Hcount|]. split; [reflexivity|].
  apply (store_discovery_needs_count_to_be_the_total pageCounting IsoDate.parse
           week1_standings 4 january_at_store Hcount).
Defined.

End SearchProperties.

(** ** The entry points over the batch fetch *)

Module PipelineFacts.
Import Js Aggregate Leaderboard LeaderboardSpec LeaderboardMoreSpec Batch BatchSpec.
Import BatchFacts.

Lemma totalRounds_nonneg (event : Event.t) : 0 <= totalRounds event.
Proof.
  unfold totalRounds.
  assert (forall phases acc,
             0 <= acc ->
             0 <= fold_left (fun sum phase =>
                               sum + match Phase.rounds phase with
                                     | Some rs => Z.of_nat (length rs)
                                     | None => 0
                                     end) phases acc) as H.
  { induction phases as [|ph phases IH]; intros acc Hacc; simpl; [easy|].
    apply IH. destruct (Phase.rounds ph); lia. }
  apply H. lia.
Qed.

(** What [filterByMinRounds] keeps has enough rounds. *)
Lemma filterByMinRounds_In evs minRounds es :
  In es (filterByMinRounds evs minRounds) ->
  In es evs /\ forall m, minRounds = Some m -> m <= totalRounds (fst es).
Proof.
  unfold filterByMinRounds. pose proof (totalRounds_nonneg (fst es)) as Hpos.
  destruct minRounds as [[|m|m]|]; intros H.
  - split; [easy|]. intros m' Hm. injection Hm as <-. lia.
  - apply filter_In in H as [H Hm]. split; [easy|].
    intros m' Heq. injection Heq as <-. lia.
  - apply filter_In in H as [H Hm]. split; [easy|].
    intros m' Heq. injection Heq as <-. lia.
  - split; [easy|]. discriminate.
Qed.

Section Included.
Variable getEventStandings : Z -> Z -> result (option EventStandings).

Lemma buildResult_included allEvents minRounds minEvents sortBy limit startDate endDate
    city store x :
  In x (LeaderboardResult.eventsIncluded
          (buildResult (foundInOrder getEventStandings) allEvents minRounds minEvents
                       sortBy limit startDate endDate city store)) ->
  exists eventId event standings,
    In eventId (map ref_id allEvents) /\
    getEventStandings eventId 100 = Returns (Some (event, standings)) /\
    x = (Event.id event, Event.name event, slice_0_10 (Event.start_datetime event)) /\
    forall m, minRounds = Some m -> m <= totalRounds event.
Proof.
  unfold buildResult. cbn [LeaderboardResult.eventsIncluded]. intros H.
  apply in_map_iff in H as [[event standings] [<- H]].
  apply filterByMinRounds_In in H as [H Hrounds].
  apply foundInOrder_In in H as [eventId [Hin Hfound]].
  exists eventId, event, standings. repeat split; easy.
Qed.

End Included.

End PipelineFacts.

Module PipelineProperties.
Import Js Aggregate Leaderboard LeaderboardSpec LeaderboardMoreSpec Batch BatchSpec.
Import BatchFacts PipelineFacts.

(** With the standings fetched by [fetchAllEventStandings], every event
    that a leaderboard lists in [eventsIncluded] is one of the events
    found by the discovery, for which [getEventStandings] returned
    standings, and which has at least [minRounds] rounds when
    [minRounds] is given; its [startDate] is the first ten characters of
    the event's start time. *)
Theorem included_events_were_found_and_have_standings
    (getEventStandings : Z -> Z -> result (option EventStandings)) :
  (forall Date_parse geocodeCity search (fuel : nat) params result x,
      let out := getPlayerLeaderboardByCity Date_parse geocodeCity search
                   (foundInOrder getEventStandings) fuel params in
      snd out = Resolved (Success result) ->
      In x (LeaderboardResult.eventsIncluded result) ->
      exists eventIds eventId event standings,
        In (CallStandings eventIds) (fst out) /\ In eventId eventIds /\
        getEventStandings eventId 100 = Returns (Some (event, standings)) /\
        x = (Event.id event, Event.name event, slice_0_10 (Event.start_datetime event)) /\
        forall m, CityParams.minRounds params = Some m -> m <= totalRounds event) /\
  (forall Date_parse search (fuel : nat) params result x,
      let out := getPlayerLeaderboardByStore Date_parse search
                   (foundInOrder getEventStandings) fuel params in
      snd out = Resolved (Success result) ->
      In x (LeaderboardResult.eventsIncluded result) ->
      exists eventIds eventId event standings,
        In (CallStandings eventIds) (fst out) /\ In eventId eventIds /\
        getEventStandings eventId 100 = Returns (Some (event, standings)) /\
        x = (Event.id event, Event.name event, slice_0_10 (Event.start_datetime event)) /\
        forall m, StoreParams.minRounds params = Some m -> m <= totalRounds event).
Proof.
  split.
  - intros Date_parse geocodeCity search fuel params result x. cbv zeta.
    unfold getPlayerLeaderboardByCity.
    destruct (validateDateRange Date_parse _ _); [discriminate|].
    destruct (geocodeCity _) as [|[geo|]]; try discriminate.
    destruct (pageByCoords search fuel geo _ _ _ 1 []) as [calls d].
    destruct d as [| |e|allEvents label]; try discriminate.
    destruct (length allEvents =? 0)%nat; [discriminate|].
    cbn [fst snd]. intros H Hx. injection H as <-.
    apply buildResult_included in Hx
        as [eventId [event [standings [Hin [Hfound [Hx Hrounds]]]]]].
    exists (map ref_id allEvents), eventId, event, standings.
    split; [|easy]. right. apply in_or_app. right. now left.
  - intros Date_parse search fuel params result x. cbv zeta.
    unfold getPlayerLeaderboardByStore.
    destruct (validateDateRange Date_parse _ _); [discriminate|].
    destruct (pageByStore search fuel _ _ _ _ 1 []) as [calls d].
    destruct d as [| |e|allEvents label]; try discriminate.
    destruct (length allEvents =? 0)%nat; [discriminate|].
    cbn [fst snd]. intros H Hx. injection H as <-.
    apply buildResult_included in Hx
        as [eventId [event [standings [Hin [Hfound [Hx Hrounds]]]]]].
    exists (map ref_id allEvents), eventId, event, standings.
    split; [|easy]. apply in_or_app. right. now left.
Qed.

Lemma included_events_were_found_and_have_standings_witness :
  exists eventIds eventId event standings,
    In (CallStandings eventIds)
       (fst (getPlayerLeaderboardByCity IsoDate.parse geocode_detroit one_event_by_coords
               (foundInOrder threeEvents) 1 january_in_detroit)) /\
    In eventId eventIds /\
    threeEvents eventId 100 = Returns (Some (event, standings)) /\
    (1, "Weekly"%string, "2025-01-04"%string)
      = (Event.id event, Event.name event, slice_0_10 (Event.start_datetime event)) /\
    forall m, CityParams.minRounds january_in_detroit = Some m -> m <= totalRounds event.
Proof.
  eapply (proj1 (included_events_were_found_and_have_standings threeEvents)
            IsoDate.parse geocode_detroit one_event_by_coords 1%nat january_in_detroit);
    [reflexivity|simpl; auto].
Defined.

End PipelineProperties.
